(** * Source-view selection of the image-based dataset

    A shallow embedding of
    [easyvolcap/dataloaders/datasets/image_based_dataset.py]
    (class [ImageBasedDataset]) and of the bound cropping of
    [easyvolcap/dataloaders/datasets/noop_dataset.py] (class [NoopDataset]).

    Conventions of the embedding.
    - Python exceptions are results [Raise e]; code that calls the [random]
      module runs in a state-and-error monad over the generator state.
    - A torch tensor is a shape together with an accessor; indexing checks the
      shape, as torch does.
    - The element type of the camera tensors is an interface ([Scalar]) with
      two instances: IEEE binary64 numbers, on which every definition
      evaluates, and the real numbers, the exact arithmetic of which the
      floating-point computation is the rounded version.
    - Two kernels of torch are interfaces as well, for the source does not
      fix what they answer: how [norm] rounds ([NormKernel]), and in which
      order a sort without [stable=True] leaves entries that compare equal
      ([SortKernel]). A theorem holds for every kernel unless it names one.
    - The weights of [random.choices] are binary64 numbers, summed as the
      library sums them; a tensor of bounds has an element type, int64 or
      floating point, and is an object of a heap where it is written in
      place.
    - Counts ([n_srcs], [extra_src_pool], positions along an axis) are
      natural numbers; pixel coordinates and slice bounds are integers. *)

From Stdlib Require Import List Arith ZArith QArith Bool Lia Permutation Sorted.
From Stdlib Require Import Reals Lra Floats.
Import ListNotations.

Close Scope Q_scope.
Close Scope R_scope.
Close Scope Z_scope.
Open Scope nat_scope.

Set Implicit Arguments.

(** ** Python results and the generator monad *)

Module Py.

Inductive exn : Set :=
| AssertionError
| ValueError
| IndexError
| RuntimeError.

Inductive result (A : Type) : Type :=
| Ok (a : A)
| Raise (e : exn).

Arguments Ok {A} a.
Arguments Raise {A} e.

Definition is_ok {A} (r : result A) : bool :=
  match r with Ok _ => true | Raise _ => false end.

Definition rbind {A B} (r : result A) (k : A -> result B) : result B :=
  match r with Ok a => k a | Raise e => Raise e end.

(** [l[a:b]] for non-negative bounds: out-of-range bounds are truncated,
    never an error. *)
Definition slice {A} (a b : nat) (l : list A) : list A :=
  firstn (b - a) (skipn a l).

(** [l[-1]] *)
Definition last_item {A} (l : list A) : result A :=
  match rev l with
  | [] => Raise IndexError
  | x :: _ => Ok x
  end.

(** [l[i]] for a non-negative position. *)
Definition item {A} (l : list A) (i : nat) : result A :=
  match nth_error l i with
  | Some x => Ok x
  | None => Raise IndexError
  end.

(** [slice(start, stop, step).indices(len)] restricted to what a tensor
    accepts: torch refuses a step that is not positive. The result is the
    list of selected positions of [range(len)]. *)
Definition clamp_bound (len : Z) (b : option Z) (dflt : Z) : Z :=
  match b with
  | None => dflt
  | Some v => if (v <? 0)%Z then Z.max (v + len) 0 else Z.min v len
  end.

Fixpoint stride (fuel : nat) (i stop step : Z) : list nat :=
  match fuel with
  | O => []
  | S fuel' =>
      if (i <? stop)%Z
      then Z.to_nat i :: stride fuel' (i + step)%Z stop step
      else []
  end.

Definition slice_positions (len : nat) (start stop step : option Z)
  : result (list nat) :=
  let st := match step with None => 1%Z | Some s => s end in
  if (st <=? 0)%Z then Raise ValueError
  else
    let n := Z.of_nat len in
    Ok (stride len (clamp_bound n start 0%Z) (clamp_bound n stop n) st).

(** [range(len)[i]] with Python's wrap-around of a negative position. *)
Definition wrap_position (len : nat) (i : Z) : result nat :=
  let n := Z.of_nat len in
  let j := if (i <? 0)%Z then (i + n)%Z else i in
  if ((0 <=? j) && (j <? n))%Z then Ok (Z.to_nat j) else Raise IndexError.

Fixpoint mapM {A B} (f : A -> result B) (l : list A) : result (list B) :=
  match l with
  | [] => Ok []
  | x :: r =>
      rbind (f x) (fun y => rbind (mapM f r) (fun ys => Ok (y :: ys)))
  end.

End Py.

Import Py.

(** ** The [random] module *)

Module Random.

(** The generator is an arbitrary tape of raw draws and a read position;
    every call of the module consumes cells of the tape. *)
Record rng : Type := { tape : nat -> N; pos : nat }.

Definition M (A : Type) : Type := rng -> result (A * rng).

Definition ret {A} (a : A) : M A := fun g => Ok (a, g).

Definition raise {A} (e : exn) : M A := fun _ => Raise e.

Definition bind {A B} (m : M A) (k : A -> M B) : M B :=
  fun g => match m g with
           | Ok (a, g') => k a g'
           | Raise e => Raise e
           end.

Definition lift {A} (r : result A) : M A :=
  fun g => match r with Ok a => Ok (a, g) | Raise e => Raise e end.

Notation "x <- m ;; k" := (bind m (fun x => k))
  (at level 61, m at next level, right associativity).

Definition next (g : rng) : N * rng :=
  (tape g (pos g), {| tape := tape g; pos := S (pos g) |}).

Definition two53 : positive := 9007199254740992.

(** The number that the next [random.random()] returns. *)
Definition peek_random (g : rng) : Q :=
  (Z.of_N (tape g (pos g) mod Npos two53)%N # two53)%Q.

(** [random.random()]: a multiple of 2^-53 in the range 0.0 <= x < 1.0. *)
Definition random : M Q :=
  fun g => Ok (peek_random g, snd (next g)).

(** The same number as the binary64 value that Python holds: [k * 2^-53]
    for an integer [k] below [2^53], which no rounding changes. *)
Definition peek_float (g : rng) : float :=
  (PrimFloat.of_uint63
     (Uint63.of_Z (Z.of_N (tape g (pos g) mod Npos two53)%N))
   * 0x1p-53)%float.

Definition random_float : M float :=
  fun g => Ok (peek_float g, snd (next g)).

(** [randbelow(n)]: a position of [range(n)]. *)
Definition randbelow (n : nat) : M nat :=
  fun g => let (k, g') := next g in
           Ok (N.to_nat (k mod N.of_nat n)%N, g').

Definition list_set {A} (j : nat) (v : A) (l : list A) : list A :=
  firstn j l ++ v :: skipn (S j) l.

(** The selection loop of [random.sample], in the form it takes for a small
    population: the element drawn at position [j] of the pool is replaced by
    the pool's last live element, and the pool shrinks by one. (For a large
    population the library draws positions until it finds a fresh one; the
    result is again a selection of distinct positions.) *)
Fixpoint sample_loop (pool : list nat) (k : nat) : M (list nat) :=
  match k with
  | O => ret []
  | S k' =>
      j <- randbelow (length pool) ;;
      let x := nth j pool 0 in
      let pool' := removelast (list_set j (last pool 0) pool) in
      rest <- sample_loop pool' k' ;;
      ret (x :: rest)
  end.

(** [random.sample(population, k)] *)
Definition sample (population : list nat) (k : nat) : M (list nat) :=
  if length population <? k then raise ValueError
  else sample_loop population k.

(** [itertools.accumulate(weights)]: the running sums of the weights, which
    are binary64 numbers, each sum rounded. *)
Fixpoint accumulate_from (acc : float) (w : list float) : list float :=
  match w with
  | [] => []
  | x :: r => (acc + x)%float :: accumulate_from (acc + x)%float r
  end.

Definition accumulate (w : list float) : list float :=
  match w with
  | [] => []
  | x :: r => x :: accumulate_from x r
  end.

(** [bisect.bisect_right(a, x, lo, hi)]: the loop
    [while lo < hi: mid = (lo + hi) // 2;
     if x < a[mid]: hi = mid else: lo = mid + 1]. *)
Fixpoint bisect (fuel : nat) (a : list float) (x : float) (lo hi : nat)
  : nat :=
  match fuel with
  | O => lo
  | S fuel' =>
      if lo <? hi then
        let mid := (lo + hi) / 2 in
        if (x <? nth mid a 0)%float
        then bisect fuel' a x lo mid
        else bisect fuel' a x (S mid) hi
      else lo
  end.

(** [random.choices(population, weights)[0]]: the cumulative weights must
    be as many as the population, and their total, [cum_weights[-1] + 0.0],
    positive and finite. *)
Definition choices (population : list nat) (weights : list float) : M nat :=
  let cum_weights := accumulate weights in
  let n := length population in
  if negb (length cum_weights =? n) then raise ValueError
  else
    last <- lift (last_item cum_weights) ;;
    let total := (last + 0)%float in
    if (total <=? 0)%float then raise ValueError
    else if negb (PrimFloat.is_finite total) then raise ValueError
    else
      u <- random_float ;;
      lift (item population
              (bisect n cum_weights (u * total)%float 0 (n - 1))).

End Random.

Import Random.

(** ** Tensors *)

Module Torch.

(** A tensor: its shape and the element at a multi-index. A one-dimensional
    index tensor, and the result of [tolist()] on a vector, is a list. *)
Record tensor (A : Type) : Type := { shape : list nat; get : list nat -> A }.

Definition dim {A} (x : tensor A) (k : nat) : nat := nth k (shape x) 0.

Definition in_range (d : nat) (inds : list nat) : bool :=
  forallb (fun i => i <? d) inds.

(** [x[i]] with an integer: the leading axis disappears. *)
Definition index_int {A} (x : tensor A) (i : nat) : result (tensor A) :=
  match shape x with
  | [] => Raise IndexError
  | d :: rest =>
      if i <? d
      then Ok {| shape := rest; get := fun ix => get x (i :: ix) |}
      else Raise IndexError
  end.

(** [x[inds]] with a one-dimensional index tensor: the leading axis is
    kept, with one entry per index. *)
Definition index_tensor {A} (x : tensor A) (inds : list nat)
  : result (tensor A) :=
  match shape x with
  | [] => Raise IndexError
  | d :: rest =>
      if in_range d inds
      then Ok {| shape := length inds :: rest;
                 get := fun ix => match ix with
                                  | k :: ix' => get x (nth k inds 0 :: ix')
                                  | [] => get x []
                                  end |}
      else Raise IndexError
  end.

(** [x[:, inds]] with a one-dimensional index tensor. *)
Definition index_tensor_dim1 {A} (x : tensor A) (inds : list nat)
  : result (tensor A) :=
  match shape x with
  | d0 :: d1 :: rest =>
      if in_range d1 inds
      then Ok {| shape := d0 :: length inds :: rest;
                 get := fun ix =>
                          match ix with
                          | i :: k :: ix' => get x (i :: nth k inds 0 :: ix')
                          | _ => get x ix
                          end |}
      else Raise IndexError
  | _ => Raise IndexError
  end.

(** A Python list of one-dimensional index tensors used as an index.

    [x[items]]: a list that holds a tensor is read as a tuple of indices,
    one per leading axis; the index tensors are broadcast together (here:
    they have one length) and the indexed axes are replaced by one axis. *)
Definition index_list {A} (x : tensor A) (items : list (list nat))
  : result (tensor A) :=
  match items with
  | [] => Raise IndexError
  | first :: _ =>
      let k := length items in
      let n := length first in
      if (k <=? length (shape x))
         && forallb (fun it => length it =? n) items
         && forallb (fun p => in_range (fst p) (snd p))
              (combine (shape x) items)
      then Ok {| shape := n :: skipn k (shape x);
                 get := fun ix =>
                          match ix with
                          | j :: ix' =>
                              get x (map (fun it => nth j it 0) items ++ ix')
                          | [] => get x []
                          end |}
      else Raise IndexError
  end.

(** [torch.tensor(items)] on a list of tensors, which is what a list inside
    an index tuple is converted to: every item must hold one element. *)
Definition tensor_of_items (items : list (list nat)) : result (list nat) :=
  mapM (fun it => match it with
                  | [v] => Ok v
                  | _ => Raise ValueError
                  end) items.

(** [x[:, items]] *)
Definition index_list_dim1 {A} (x : tensor A) (items : list (list nat))
  : result (tensor A) :=
  rbind (tensor_of_items items) (index_tensor_dim1 x).

(** [x.permute(1, 0, 2, 3)] on a tensor whose two trailing axes are kept
    inside the element type: exactly two leading axes are required. *)
Definition permute_1_0 {A} (x : tensor A) : result (tensor A) :=
  match shape x with
  | [d0; d1] =>
      Ok {| shape := [d1; d0];
            get := fun ix => match ix with
                             | [i; j] => get x [j; i]
                             | _ => get x ix
                             end |}
  | _ => Raise RuntimeError
  end.

(** [x.gather(-1, inds)] on vectors. *)
Definition gather (x : list nat) (inds : list nat) : result (list nat) :=
  if in_range (length x) inds
  then Ok (map (fun i => nth i x 0) inds)
  else Raise RuntimeError.

(** *** Sorting

    [x.sort(descending=True)] returns the sorted values and, for each of
    them, its position in the input. [before a b] is the comparison of the
    sort, [a] strictly before [b]. The calls of the source do not pass
    [stable=True], so the order of two entries neither of which comes
    strictly before the other is the kernel's: [tie l i j] says whether, on
    the input [l], the kernel places the entry at position [i] in front of
    the entry at position [j] when the two compare equal. Every descending
    arrangement of the input is the result of some kernel. *)
Class SortKernel (K : Type) : Type := {
  tie : list K -> nat -> nat -> bool
}.

(** The kernel of [stable=True]: equal entries keep their input order. *)
Definition stable_kernel (K : Type) : SortKernel K :=
  {| tie := fun _ i j => i <? j |}.

(** The kernel of a CPU build does an unstable sort with [std::sort] of
    the GNU C++ library: an introsort, which partitions ranges of more than
    16 entries around the median of three of them, falls back to a heap sort
    when the partitions nest too deep, and finishes with an insertion sort.
    [comp a b] is the comparison, [a] strictly before [b]; the array is a
    list, and [d] is read where there is no entry. *)
Module StdSort.

Section Introsort.

Variable A : Type.
Variable comp : A -> A -> bool.
Variable d : A.

Fixpoint assign (i : nat) (v : A) (a : list A) : list A :=
  match a, i with
  | [], _ => []
  | _ :: r, O => v :: r
  | x :: r, S i' => x :: assign i' v r
  end.

Definition iter_swap (a : list A) (i j : nat) : list A :=
  assign i (nth j a d) (assign j (nth i a d) a).

(** [__move_median_to_first(result, a, b, c)] *)
Definition move_median_to_first (arr : list A) (result a b c : nat)
  : list A :=
  let at_ := fun i => nth i arr d in
  if comp (at_ a) (at_ b) then
    if comp (at_ b) (at_ c) then iter_swap arr result b
    else if comp (at_ a) (at_ c) then iter_swap arr result c
    else iter_swap arr result a
  else if comp (at_ a) (at_ c) then iter_swap arr result a
  else if comp (at_ b) (at_ c) then iter_swap arr result c
  else iter_swap arr result b.

(** [while (comp(first, pivot)) ++first;] *)
Fixpoint scan_up (fuel : nat) (arr : list A) (first pivot : nat) : nat :=
  match fuel with
  | O => first
  | S fuel' =>
      if comp (nth first arr d) (nth pivot arr d)
      then scan_up fuel' arr (S first) pivot
      else first
  end.

(** [while (comp(pivot, last)) --last;] *)
Fixpoint scan_down (fuel : nat) (arr : list A) (last pivot : nat) : nat :=
  match fuel with
  | O => last
  | S fuel' =>
      if comp (nth pivot arr d) (nth last arr d)
      then scan_down fuel' arr (pred last) pivot
      else last
  end.

(** [__unguarded_partition(first, last, pivot)] *)
Fixpoint unguarded_partition (fuel : nat) (arr : list A)
    (first last pivot : nat) : list A * nat :=
  match fuel with
  | O => (arr, first)
  | S fuel' =>
      let first := scan_up (length arr) arr first pivot in
      let last := scan_down (length arr) arr (pred last) pivot in
      if first <? last
      then unguarded_partition fuel' (iter_swap arr first last) (S first)
             last pivot
      else (arr, first)
  end.

(** [__unguarded_partition_pivot(first, last)] *)
Definition unguarded_partition_pivot (arr : list A) (first last : nat)
  : list A * nat :=
  let mid := first + (last - first) / 2 in
  let arr := move_median_to_first arr first (first + 1) mid (last - 1) in
  unguarded_partition (length arr) arr (first + 1) last first.

(** [__push_heap(first, holeIndex, topIndex, value)] *)
Fixpoint push_heap (fuel : nat) (arr : list A) (first holeIndex topIndex : nat)
    (value : A) : list A :=
  let parent := (holeIndex - 1) / 2 in
  match fuel with
  | O => assign (first + holeIndex) value arr
  | S fuel' =>
      if (topIndex <? holeIndex) && comp (nth (first + parent) arr d) value
      then push_heap fuel'
             (assign (first + holeIndex) (nth (first + parent) arr d) arr)
             first parent topIndex value
      else assign (first + holeIndex) value arr
  end.

(** The first loop of [__adjust_heap]. *)
Fixpoint sift_down (fuel : nat) (arr : list A) (first holeIndex len : nat)
  : list A * nat :=
  match fuel with
  | O => (arr, holeIndex)
  | S fuel' =>
      if holeIndex <? (len - 1) / 2 then
        let secondChild := 2 * (holeIndex + 1) in
        let secondChild :=
          if comp (nth (first + secondChild) arr d)
               (nth (first + (secondChild - 1)) arr d)
          then secondChild - 1 else secondChild in
        sift_down fuel'
          (assign (first + holeIndex) (nth (first + secondChild) arr d) arr)
          first secondChild len
      else (arr, holeIndex)
  end.

(** [__adjust_heap(first, holeIndex, len, value)] *)
Definition adjust_heap (arr : list A) (first holeIndex len : nat) (value : A)
  : list A :=
  let topIndex := holeIndex in
  let '(arr, secondChild) := sift_down len arr first holeIndex len in
  let '(arr, holeIndex) :=
    if Nat.even len && (secondChild =? (len - 2) / 2) then
      let secondChild' := 2 * (secondChild + 1) in
      (assign (first + secondChild)
         (nth (first + (secondChild' - 1)) arr d) arr,
       secondChild' - 1)
    else (arr, secondChild) in
  push_heap len arr first holeIndex topIndex value.

(** The loop of [__make_heap], from [parent] down to 0. *)
Fixpoint make_heap_from (arr : list A) (first len parent : nat) : list A :=
  let arr := adjust_heap arr first parent len (nth (first + parent) arr d) in
  match parent with
  | O => arr
  | S parent' => make_heap_from arr first len parent'
  end.

Definition make_heap (arr : list A) (first last : nat) : list A :=
  if last - first <? 2 then arr
  else make_heap_from arr first (last - first) ((last - first - 2) / 2).

(** [__pop_heap(first, last, result)] *)
Definition pop_heap (arr : list A) (first last result : nat) : list A :=
  let value := nth result arr d in
  let arr := assign result (nth first arr d) arr in
  adjust_heap arr first 0 (last - first) value.

(** [__sort_heap(first, last)] *)
Fixpoint sort_heap (fuel : nat) (arr : list A) (first last : nat) : list A :=
  match fuel with
  | O => arr
  | S fuel' =>
      if 1 <? last - first
      then sort_heap fuel' (pop_heap arr first (last - 1) (last - 1)) first
             (last - 1)
      else arr
  end.

(** [__partial_sort(first, last, last)]: a heap sort. *)
Definition partial_sort (arr : list A) (first last : nat) : list A :=
  sort_heap (length arr) (make_heap arr first last) first last.

(** [__introsort_loop(first, last, depth_limit)] *)
Fixpoint introsort_loop (fuel : nat) (arr : list A) (first last depth : nat)
  : list A :=
  match fuel with
  | O => arr
  | S fuel' =>
      if 16 <? last - first then
        match depth with
        | O => partial_sort arr first last
        | S depth' =>
            let '(arr, cut) := unguarded_partition_pivot arr first last in
            let arr := introsort_loop fuel' arr cut last depth' in
            introsort_loop fuel' arr first cut depth'
        end
      else arr
  end.

(** [__unguarded_linear_insert(last)] *)
Fixpoint unguarded_linear_insert (fuel : nat) (arr : list A) (last : nat)
    (val : A) : list A :=
  match fuel with
  | O => assign last val arr
  | S fuel' =>
      if comp val (nth (last - 1) arr d)
      then unguarded_linear_insert fuel'
             (assign last (nth (last - 1) arr d) arr) (last - 1) val
      else assign last val arr
  end.

(** [move_backward(first, i, i + 1); *first = val] *)
Definition rotate_to_first (arr : list A) (first i : nat) : list A :=
  firstn first arr ++ nth i arr d :: firstn (i - first) (skipn first arr)
  ++ skipn (S i) arr.

(** One step of the loop of [__insertion_sort]. *)
Definition insertion_step (first : nat) (arr : list A) (i : nat) : list A :=
  if comp (nth i arr d) (nth first arr d)
  then rotate_to_first arr first i
  else unguarded_linear_insert (length arr) arr i (nth i arr d).

(** [__insertion_sort(first, last)] *)
Definition insertion_sort (arr : list A) (first last : nat) : list A :=
  fold_left (insertion_step first) (seq (S first) (last - S first)) arr.

(** [__unguarded_insertion_sort(first, last)] *)
Definition unguarded_insertion_sort (arr : list A) (first last : nat)
  : list A :=
  fold_left (fun arr i =>
               unguarded_linear_insert (length arr) arr i (nth i arr d))
    (seq first (last - first)) arr.

(** [__final_insertion_sort(first, last)] *)
Definition final_insertion_sort (arr : list A) (first last : nat) : list A :=
  if 16 <? last - first then
    unguarded_insertion_sort (insertion_sort arr first (first + 16))
      (first + 16) last
  else insertion_sort arr first last.

(** [std::sort(first, last, comp)] on the whole array. *)
Definition sort (arr : list A) : list A :=
  let n := length arr in
  match n with
  | O => arr
  | _ => final_insertion_sort
           (introsort_loop n arr 0 n (2 * Nat.log2 n)) 0 n
  end.

End Introsort.

End StdSort.

(** The position of the first [i] in [l]. *)
Fixpoint position (i : nat) (l : list nat) : nat :=
  match l with
  | [] => 0
  | x :: r => if x =? i then 0 else S (position i r)
  end.

(** The kernel that leaves equal entries as [std::sort] does. *)
Definition introsort_kernel {K : Type} (before : K -> K -> bool) (d : K)
  : SortKernel K :=
  {| tie := fun input i j =>
              let order :=
                map fst
                  (StdSort.sort (fun p q => before (snd p) (snd q)) (0, d)
                     (combine (seq 0 (length input)) input)) in
              position i order <? position j order |}.

Section Sort.

Context {K : Type} {kernel : SortKernel K}.
Variable before : K -> K -> bool.

(** [y] stays in front of [x]. *)
Definition in_front (input : list K) (y x : nat * K) : bool :=
  before (snd y) (snd x)
  || (negb (before (snd x) (snd y)) && tie input (fst y) (fst x)).

Fixpoint insert (input : list K) (x : nat * K) (l : list (nat * K))
  : list (nat * K) :=
  match l with
  | [] => [x]
  | y :: r =>
      if in_front input y x then y :: insert input x r else x :: y :: r
  end.

Definition enumerate (l : list K) : list (nat * K) :=
  combine (seq 0 (length l)) l.

Definition sort_pairs (l : list K) : list (nat * K) :=
  fold_right (insert l) [] (enumerate l).

Definition sort_descending (l : list K) : list K * list nat :=
  (map snd (sort_pairs l), map fst (sort_pairs l)).

(** [descending p q]: entry [p] may stand before entry [q] in the result
    of a descending sort. *)
Definition descending (p q : nat * K) : Prop :=
  before (snd q) (snd p) = false.

(** [ranked p q]: the same for a stable sort, where equal entries ascend by
    position. *)
Definition ranked (p q : nat * K) : Prop :=
  before (snd q) (snd p) = false
  /\ (before (snd p) (snd q) = false -> fst p < fst q).

(** The entries of a three-axis tensor along axis 1. *)
Definition lane (x : tensor K) (t l : nat) : list K :=
  map (fun s => get x [t; s; l]) (seq 0 (dim x 1)).

(** [x.sort(dim=1, descending=True)] on a three-axis tensor. *)
Definition sort_dim1 (x : tensor K) : tensor K * tensor nat :=
  ({| shape := shape x;
      get := fun ix =>
               match ix with
               | [t; r; l] =>
                   nth r (fst (sort_descending (lane x t l))) (get x ix)
               | _ => get x ix
               end |},
   {| shape := shape x;
      get := fun ix =>
               match ix with
               | [t; r; l] => nth r (snd (sort_descending (lane x t l))) 0
               | _ => 0
               end |}).

End Sort.

(** [x[t, a:b, l].numpy().tolist()] on a three-axis tensor. *)
Definition select_lane {A} (x : tensor A) (t a b l : nat)
  : result (list A) :=
  match shape x with
  | [d0; d1; d2] =>
      if (t <? d0) && (l <? d2)
      then Ok (slice a b (map (fun s => get x [t; s; l]) (seq 0 d1)))
      else Raise IndexError
  | _ => Raise IndexError
  end.

(** [x[:, l]] on a two-axis tensor, as a list. *)
Definition select_column {A} (x : tensor A) (l : nat) : result (list A) :=
  match shape x with
  | [d0; d1] =>
      if l <? d1
      then Ok (map (fun s => get x [s; l]) (seq 0 d0))
      else Raise IndexError
  | _ => Raise IndexError
  end.

End Torch.

Import Torch.

(** ** Tensor elements *)

Class Scalar (F : Type) : Type := {
  f_one : F;
  f_eps : F;                       (* the literal 1e-10 *)
  f_sub : F -> F -> F;
  f_div : F -> F -> F;
  f_ltb : F -> F -> bool;
  f_is_nan : F -> bool;
  f_of_int : Z -> F;               (* an int64 converted to the type *)
  f_trunc : F -> option Z          (* the cast to an integer *)
}.

(** The cast of a number to an integer drops the fraction. A NaN and an
    infinity have no integer; what the cast leaves in the tensor then is
    not determined by the source. *)
Definition sf_trunc (x : spec_float) : option Z :=
  match x with
  | S754_zero _ => Some 0%Z
  | S754_finite s m e =>
      let v := match e with
               | Z0 => Zpos m
               | Zpos p => (Zpos m * 2 ^ Zpos p)%Z
               | Zneg p => (Zpos m / 2 ^ Zpos p)%Z
               end in
      Some (if s then (- v)%Z else v)
  | _ => None
  end.

#[export] Instance float_scalar : Scalar float := {|
  f_one := 1%float;
  f_eps := 0x1.b7cdfd9d7bdbbp-34%float;   (* binary64 nearest to 1e-10 *)
  f_sub := PrimFloat.sub;
  f_div := PrimFloat.div;
  f_ltb := PrimFloat.ltb;
  f_is_nan := PrimFloat.is_nan;
  f_of_int := fun z => SF2Prim (binary_normalize prec emax z 0%Z false);
  f_trunc := fun x => sf_trunc (Prim2SF x)
|}.

Definition Rltb (a b : R) : bool := if Rlt_dec a b then true else false.

Definition Rtrunc (x : R) : Z :=
  if Rle_dec 0 x then Int_part x else (- Int_part (- x))%Z.

#[export] Instance real_scalar : Scalar R := {|
  f_one := 1%R;
  f_eps := 1e-10%R;
  f_sub := Rminus;
  f_div := Rdiv;
  f_ltb := Rltb;
  f_is_nan := fun _ => false;
  f_of_int := IZR;
  f_trunc := fun x => Some (Rtrunc x)
|}.

(** [v.norm(dim=-1)] on vectors of three entries is computed by a kernel of
    the library. Over the real numbers it is the Euclidean length. How the
    kernel rounds on floating-point numbers is not fixed by the source:
    there it is an operation of its own. *)
Class NormKernel (F : Type) : Type := {
  norm3 : F -> F -> F -> F
}.

#[export] Instance real_norm : NormKernel R := {|
  norm3 := fun x y z => R_sqrt.sqrt (x * x + y * y + z * z)%R
|}.

(** The textbook formula on binary64 numbers, each operation rounded. *)
Definition naive_norm : NormKernel float := {|
  norm3 := fun x y z => PrimFloat.sqrt (x * x + y * y + z * z)%float
|}.

Section Numeric.

Context {F : Type} `{Scalar F}.

Record vec3 : Type := { vx : F; vy : F; vz : F }.

Definition vsub (a b : vec3) : vec3 :=
  {| vx := f_sub (vx a) (vx b);
     vy := f_sub (vy a) (vy b);
     vz := f_sub (vz a) (vz b) |}.

(** [v.norm(dim=-1)] *)
Definition norm {NK : NormKernel F} (v : vec3) : F :=
  norm3 (vx v) (vy v) (vz v).

(** [x.clip(lo)]: a lower bound only; a NaN stays a NaN. *)
Definition clip (x lo : F) : F := if f_ltb x lo then lo else x.

(** [torch.maximum] and [torch.minimum]: a NaN operand is returned. *)
Definition maximum (a b : F) : F :=
  if f_is_nan a then a
  else if f_is_nan b then b
  else if f_ltb a b then b else a.

Definition minimum (a b : F) : F :=
  if f_is_nan a then a
  else if f_is_nan b then b
  else if f_ltb b a then b else a.

(** The comparison of the descending sort: a NaN comes before every
    number. *)
Definition before (a b : F) : bool :=
  (f_is_nan a && negb (f_is_nan b)) || f_ltb b a.

Definition vmaximum (a b : vec3) : vec3 :=
  {| vx := maximum (vx a) (vx b);
     vy := maximum (vy a) (vy b);
     vz := maximum (vz a) (vz b) |}.

Definition vminimum (a b : vec3) : vec3 :=
  {| vx := minimum (vx a) (vx b);
     vy := minimum (vy a) (vy b);
     vz := minimum (vz a) (vz b) |}.

End Numeric.

Arguments vec3 F : clear implicits.

(** ** The order of the binary64 numbers

    The comparison of two numbers is the one of [SFcompare]; a number that
    is not a NaN is a point of a lexicographic order on triples. *)

(** A number that is not a NaN, as a point of a lexicographic order. *)
Definition sf_key (x : spec_float) : Z * Z * Z :=
  match x with
  | S754_zero _ => (0, 0, 0)%Z
  | S754_infinity s => (if s then (-2)%Z else 2%Z, 0%Z, 0%Z)
  | S754_nan => (0, 0, 0)%Z
  | S754_finite s m e =>
      if s then ((-1)%Z, (- e)%Z, (- Zpos m)%Z) else (1%Z, e, Zpos m)
  end.

Definition lex_lt (a b : Z * Z * Z) : Prop :=
  (fst (fst a) < fst (fst b)
   \/ (fst (fst a) = fst (fst b)
       /\ (snd (fst a) < snd (fst b)
           \/ (snd (fst a) = snd (fst b) /\ snd a < snd b))))%Z.

Definition sf_is_nan (x : spec_float) : bool :=
  match x with S754_nan => true | _ => false end.

(** The comparison of the descending sort on specified numbers. *)
Definition sf_before (a b : spec_float) : bool :=
  (sf_is_nan a && negb (sf_is_nan b)) || SFltb b a.


(** ** The image-based dataset *)

Fixpoint list_eq_nat (a b : list nat) : bool :=
  match a, b with
  | [], [] => true
  | x :: a', y :: b' => (x =? y) && list_eq_nat a' b'
  | _, _ => false
  end.

(** An axis sample such as [src_view_sample]: a list of three entries is read
    as begin, end and step, where [None] is allowed; a list of another length
    is a list of positions. *)
Inductive sample_spec : Type :=
| SliceSpec (start stop step : option Z)
| IndexSpec (positions : list Z).

(** [sample == [0, None, 1]] *)
Definition is_default_sample (s : sample_spec) : bool :=
  match s with
  | SliceSpec (Some 0%Z) None (Some 1%Z) => true
  | _ => false
  end.

(** What is used to index the camera tensors: a one-dimensional tensor, or a
    Python list of such tensors. *)
Inductive py_index : Type :=
| AsTensor (inds : list nat)
| AsList (items : list (list nat)).

(** The argument of [get_bounds]: an integer or a list of integers. *)
Inductive index_arg : Type :=
| IntArg (i : nat)
| ListArg (l : list nat).

Definition tmap {A B} (f : A -> B) (x : tensor A) : tensor B :=
  {| shape := shape x; get := fun ix => f (get x ix) |}.

Module ImageBasedDataset.

(** *** The box of [get_objects_prior]

    The pixel box [x, y, w, h] of the projected bound and the image size
    [H], [W] are integers. *)

(** [np.ceil(a / b)] and [np.floor(a / b)] for a positive [b]. *)
Definition ceil_div (a b : Z) : Z := (- ((- a) / b))%Z.
Definition floor_div (a b : Z) : Z := (a / b)%Z.

(** [np.clip(v, lo, hi)] *)
Definition np_clip (v lo hi : Z) : Z := Z.min (Z.max v lo) hi.

(** Lines 140 to 143 of [get_objects_prior]: from the projected box and the
    image size to the stored [objects_xywh]. *)
Definition objects_xywh (x y w_orig h_orig H W : Z) : Z * Z * Z * Z :=
  let w := (ceil_div w_orig 32 * 32)%Z in
  let h := (ceil_div h_orig 32 * 32)%Z in
  let '(w, h) :=
    if ((w >? W) || (h >? H))%Z
    then ((floor_div w_orig 32 * 32)%Z, (floor_div h_orig 32 * 32)%Z)
    else (w, h) in
  let x' := np_clip (x - (w - w_orig) / 2)%Z 0%Z (W - w)%Z in
  let y' := np_clip (y - (h - h_orig) / 2)%Z 0%Z (H - h)%Z in
  (x', y', w, h).

Section Dataset.

Context {F : Type} `{Scalar F} {NK : NormKernel F} {SK : SortKernel F}.

(** A camera matrix: the two trailing axes of [Ks], [w2cs] and [c2ws].
    [affine_padding], [affine_inverse] and the column [[..., :3, 3]] of a
    matrix come from the utilities of the package. *)
Variable Mat : Type.
Variable affine_padding : Mat -> Mat.
Variable affine_inverse : Mat -> Mat.
Variable translation : Mat -> vec3 F.

(** A bound box: lower corner [bounds[0]], upper corner [bounds[1]]. *)
Definition bbox : Type := (vec3 F * vec3 F)%type.

(** What the base class [VolumetricVideoDataset] has set up when its
    constructor returns, and the methods of it that are called here. The
    base class is not part of the two files, so these are parameters;
    [get_bounds] is taken to return a box of the element type of the
    cameras, so that the copy which the viewer crops holds what is assigned
    to it. *)
Record base : Type := {
  frame_sample : sample_spec;
  view_sample : sample_spec;
  cache_raw : bool;
  use_smpls : bool;
  use_vhulls : bool;
  n_views : nat;
  view_inds : list nat;
  frame_inds : list nat;
  Ks : tensor Mat;                        (* N, L, 4, 4 *)
  w2cs : tensor Mat;                      (* N, L, 3, 4 *)
  c2ws : tensor Mat;                      (* N, L, 3, 4 *)
  get_cameras : nat -> nat * nat;         (* view_index, latent_index *)
  t_to_frame : F -> nat;
  frame_to_latent : nat -> nat;
  get_bounds : index_arg -> bbox
}.

(** The arguments of the constructor. *)
Record args : Type := {
  a_n_srcs_list : list nat;
  a_n_srcs_prob : list float;
  a_append_gt_prob : Q;
  a_extra_src_pool : nat;
  a_closest_using_t : bool;
  a_use_object_prior : bool;
  a_objects_bounds : option bbox;
  a_supply_decoded : bool;
  a_barebone : bool;
  a_src_view_sample : sample_spec;
  a_force_sparse_view : bool
}.

Definition default_args : args := {|
  a_n_srcs_list := [2; 3; 4];
  (* the binary64 numbers 0.2, 0.6 and 0.2 *)
  a_n_srcs_prob := [0x1.999999999999ap-3; 0x1.3333333333333p-1;
                    0x1.999999999999ap-3]%float;
  a_append_gt_prob := (1 # 10)%Q;
  a_extra_src_pool := 1;
  a_closest_using_t := false;
  a_use_object_prior := false;
  a_objects_bounds := None;
  a_supply_decoded := false;
  a_barebone := false;
  a_src_view_sample := SliceSpec (Some 0%Z) None (Some 1%Z);
  a_force_sparse_view := false
|}.

(** The same arguments with another sampling policy. *)
Definition set_sampling (a : args) (counts : list nat) (probs : list float)
    (gt_prob : Q) (extra : nat) : args := {|
  a_n_srcs_list := counts;
  a_n_srcs_prob := probs;
  a_append_gt_prob := gt_prob;
  a_extra_src_pool := extra;
  a_closest_using_t := a_closest_using_t a;
  a_use_object_prior := a_use_object_prior a;
  a_objects_bounds := a_objects_bounds a;
  a_supply_decoded := a_supply_decoded a;
  a_barebone := a_barebone a;
  a_src_view_sample := a_src_view_sample a;
  a_force_sparse_view := a_force_sparse_view a
|}.

(** The object after [__init__]. *)
Record dataset : Type := {
  parent : base;
  closest_using_t : bool;
  src_view_sample : sample_spec;
  src_view_inds : list nat;
  src_ixts : tensor Mat;
  src_exts : tensor Mat;
  src_sims : tensor F;                    (* Target, Source, Latent *)
  src_inds : tensor nat;                  (* Target, Source, Latent *)
  n_srcs_list : list nat;
  n_srcs_prob : list float;
  extra_src_pool : nat;
  append_gt_prob : Q;
  use_object_prior : bool;
  objects_bounds : option bbox;
  supply_decoded : bool;
  barebone : bool
}.

(** The cameras the base class has loaded: [Ks], [w2cs] and [c2ws] have a
    view axis and a frame axis, as long as [view_inds] and [frame_inds]. *)
Definition base_wf (b : base) : bool :=
  let dims := [length (view_inds b); length (frame_inds b)] in
  list_eq_nat (shape (Ks b)) dims
  && list_eq_nat (shape (w2cs b)) dims
  && list_eq_nat (shape (c2ws b)) dims.

(** *** [load_source_params] *)

(** [torch.arange(0, n)[sample]] *)
Definition select_views (n : nat) (s : sample_spec) : result (list nat) :=
  match s with
  | SliceSpec b e st => slice_positions n b e st
  | IndexSpec [b; e; st] => slice_positions n (Some b) (Some e) (Some st)
  | IndexSpec l => mapM (wrap_position n) l
  end.

(** [if len(view_inds) == 1: view_inds = [view_inds]] *)
Definition guard_single (view_inds : list nat) : py_index :=
  if length view_inds =? 1 then AsList [view_inds] else AsTensor view_inds.

Definition index_dim0 {A} (x : tensor A) (ix : py_index)
  : result (tensor A) :=
  match ix with
  | AsTensor inds => index_tensor x inds
  | AsList items => index_list x items
  end.

Definition index_dim1 {A} (x : tensor A) (ix : py_index)
  : result (tensor A) :=
  match ix with
  | AsTensor inds => index_tensor_dim1 x inds
  | AsList items => index_list_dim1 x items
  end.

(** Returns [src_view_inds], [src_ixts] and [src_exts]. *)
Definition load_source_params (by_time : bool) (sample : sample_spec)
    (b : base) : result (list nat * tensor Mat * tensor Mat) :=
  let all_inds := if by_time then frame_inds b else view_inds b in
  rbind (select_views (length all_inds) sample) (fun view_inds =>
  let ix := guard_single view_inds in
  if by_time then
    rbind (index_dim1 (Ks b) ix) (fun ixts =>
    rbind (index_dim1 (w2cs b) ix) (fun exts =>
    rbind (permute_1_0 ixts) (fun ixts' =>
    rbind (permute_1_0 (tmap affine_padding exts)) (fun exts' =>
    Ok (view_inds, ixts', exts')))))
  else
    rbind (index_dim0 (Ks b) ix) (fun ixts =>
    rbind (index_dim0 (w2cs b) ix) (fun exts =>
    Ok (view_inds, ixts, tmap affine_padding exts)))).

(** *** [load_source_indices] *)

Definition broadcast_dim (a b : nat) : result nat :=
  if a =? b then Ok a
  else if a =? 1 then Ok b
  else if b =? 1 then Ok a
  else Raise RuntimeError.

(** [1 / (centers_source[None] - centers_target[:, None]).norm(dim=-1)] *)
Definition similarities (centers_source centers_target : tensor (vec3 F))
  : result (tensor F) :=
  match shape centers_source, shape centers_target with
  | [n; ls], [t; lt] =>
      rbind (broadcast_dim ls lt) (fun l =>
      Ok {| shape := [t; n; l];
            get := fun ix =>
              match ix with
              | [ti; si; li] =>
                  let cs := get centers_source
                              [si; if ls =? 1 then 0 else li] in
                  let ct := get centers_target
                              [ti; if lt =? 1 then 0 else li] in
                  f_div f_one (norm (vsub cs ct))
              | _ => f_one
              end |})
  | _, _ => Raise RuntimeError
  end.

(** [self.c2ws.permute(1, 0, 2, 3) if self.closest_using_t else self.c2ws] *)
Definition target_c2ws (by_time : bool) (b : base) : result (tensor Mat) :=
  if by_time then permute_1_0 (c2ws b) else Ok (c2ws b).

(** Returns [src_sims] and [src_inds]. *)
Definition load_source_indices (by_time : bool) (b : base)
    (exts : tensor Mat) : result (tensor F * tensor nat) :=
  rbind (target_c2ws by_time b) (fun tar_c2ws =>
  let src_c2ws := tmap affine_inverse exts in
  let centers_target := tmap translation tar_c2ws in
  let centers_source := tmap translation src_c2ws in
  rbind (similarities centers_source centers_target) (fun sims =>
  Ok (sort_dim1 before sims))).

(** *** [__init__] *)

Definition init (a : args) (b : base) : result dataset :=
  if negb (negb (a_closest_using_t a) || is_default_sample (frame_sample b)
           || a_force_sparse_view a)
  then Raise AssertionError
  else if negb (is_default_sample (view_sample b) || a_force_sparse_view a)
  then Raise AssertionError
  else if cache_raw b && negb (a_supply_decoded a)
  then Raise AssertionError
  else
    rbind (load_source_params (a_closest_using_t a) (a_src_view_sample a) b)
      (fun '(view_inds, ixts, exts) =>
    rbind (load_source_indices (a_closest_using_t a) b exts)
      (fun '(sims, inds) =>
    let l := a_n_srcs_list a in
    let stored :=
      if negb (length l =? 1) || negb (nth 0 l 0 =? 0)
      then l else [n_views b] in
    if a_use_object_prior a
       && match a_objects_bounds a with None => true | Some _ => false end
       && negb (use_smpls b) && negb (use_vhulls b)
    then Raise AssertionError
    else
      Ok {| parent := b;
            closest_using_t := a_closest_using_t a;
            src_view_sample := a_src_view_sample a;
            src_view_inds := view_inds;
            src_ixts := ixts;
            src_exts := exts;
            src_sims := sims;
            src_inds := inds;
            n_srcs_list := stored;
            n_srcs_prob := a_n_srcs_prob a;
            extra_src_pool := a_extra_src_pool a;
            append_gt_prob := a_append_gt_prob a;
            use_object_prior := a_use_object_prior a;
            objects_bounds := a_objects_bounds a;
            supply_decoded := a_supply_decoded a;
            barebone := a_barebone a |})).

(** The sizes of the three axes of the ranking: targets, candidates and
    the secondary axis. *)
Definition num_candidates (ds : dataset) : nat := length (src_view_inds ds).

Definition num_targets (ds : dataset) : nat :=
  if closest_using_t ds then length (frame_inds (parent ds))
  else length (view_inds (parent ds)).

Definition num_extra (ds : dataset) : nat :=
  if closest_using_t ds then length (view_inds (parent ds))
  else length (frame_inds (parent ds)).

(** The target index and the extra index of a camera: which of the view
    and the frame is the candidate axis. *)
Definition selection_axes (by_time : bool) (view_index latent_index : nat)
  : nat * nat :=
  if by_time then (latent_index, view_index)
  else (view_index, latent_index).

(** The stored ranking of the candidates for a target and a secondary
    index: [src_inds[target_index, :, extra_index]]. *)
Definition ranking (ds : dataset) (target_index extra_index : nat)
  : list nat :=
  lane (src_inds ds) target_index extra_index.

(** The camera that the base class returns for an index is one of the
    loaded ones. *)
Definition camera_ok (b : base) (index : nat) : bool :=
  (fst (get_cameras b index) <? length (view_inds b))
  && (snd (get_cameras b index) <? length (frame_inds b)).

(** *** [get_metadata] *)

(** A query: an index with the number of sources already drawn by the
    sampler (a [dotdict]), or a plain index. *)
Inductive query : Type :=
| Resolved (index n_srcs : nat)
| Plain (index : nat).

Record metadata : Type := {
  m_view_index : nat;
  m_latent_index : nat;
  m_t_inds : nat;
  m_selection : list nat;     (* [src_inds] of lines 192 and 193 *)
  m_src_exts : list Mat;
  m_src_ixts : list Mat;
  m_src_inds : list nat       (* [src_inds] after the gather of line 203 *)
}.

(** [1 if random.random() > append_gt_prob else 0] *)
Definition remove_gt_of (append_gt_prob u : Q) : nat :=
  if negb (Qle_bool u append_gt_prob) then 1 else 0.

(** Lines 190 to 193: the selection along the candidate axis. *)
Definition select_sources (ds : dataset)
    (target_index extra_index n_srcs : nat) : M (list nat) :=
  u <- random ;;
  let remove_gt := remove_gt_of (append_gt_prob ds) u in
  let random_ap := extra_src_pool ds in
  pool <- lift (select_lane (src_inds ds) target_index remove_gt
                  (remove_gt + n_srcs + random_ap) extra_index) ;;
  if negb (random_ap =? 0) then sample pool n_srcs else ret pool.

(** [x[inds, l]] on a two-axis tensor, as a list. *)
Definition index_pairs {A} (x : tensor A) (inds : list nat) (l : nat)
  : result (list A) :=
  match shape x with
  | [d0; d1] =>
      if in_range d0 inds && (l <? d1)
      then Ok (map (fun s => get x [s; l]) inds)
      else Raise IndexError
  | _ => Raise IndexError
  end.

(** Lines 170 and 171: the index and the number of sources of a query. *)
Definition resolve_query (ds : dataset) (q : query) : M (nat * nat) :=
  match q with
  | Resolved index n_srcs => ret (index, n_srcs)
  | Plain index =>
      n_srcs <- choices (n_srcs_list ds) (n_srcs_prob ds) ;;
      ret (index, n_srcs)
  end.

(** Line 193 hands the sampled list to [torch.as_tensor]. A list without
    entries becomes a tensor of the default floating-point type, and a
    floating-point tensor is refused as an index at line 197. *)
Definition as_index (sampled : bool) (sel : list nat) : result (list nat) :=
  match sel with
  | [] => if sampled then Raise IndexError else Ok sel
  | _ => Ok sel
  end.

(** [get_sources] loads one image for every source through
    [parallel_execution] and [get_image], which are not part of this file,
    and unpacks [zip] of the results into four names; with no source there
    is nothing to unpack, which is a [ValueError]. The images themselves are
    left out. *)
Definition get_sources (sources : list nat) : result unit :=
  match sources with
  | [] => Raise ValueError
  | _ => Ok tt
  end.

(** The optional object prior is computed after the sources are loaded and
    does not change the selection; it is left out of the result. *)
Definition get_metadata (ds : dataset) (q : query) : M metadata :=
  p <- resolve_query ds q ;;
  let '(index, n_srcs) := p in
  let '(view_index, latent_index) := get_cameras (parent ds) index in
  let '(target_index, extra_index) :=
    selection_axes (closest_using_t ds) view_index latent_index in
  sampled <- select_sources ds target_index extra_index n_srcs ;;
  sel <- lift (as_index (negb (extra_src_pool ds =? 0)) sampled) ;;
  exts <- lift (index_pairs (src_exts ds) sel extra_index) ;;
  ixts <- lift (index_pairs (src_ixts ds) sel extra_index) ;;
  inds <- lift (gather (src_view_inds ds) sel) ;;
  _ <- lift (get_sources inds) ;;
  ret {| m_view_index := view_index;
         m_latent_index := latent_index;
         m_t_inds := extra_index;
         m_selection := sel;
         m_src_exts := exts;
         m_src_ixts := ixts;
         m_src_inds := inds |}.

(** The selection of a query, without the generator. *)
Definition selected (r : result (metadata * rng)) : result (list nat) :=
  match r with
  | Ok (m, _) => Ok (m_selection m)
  | Raise e => Raise e
  end.

(** *** [get_viewer_batch] *)

Record viewer_input : Type := {
  i_w2c : Mat;                (* [torch.cat([R, T], dim=-1)] *)
  i_t : F;
  i_bounds : bbox
}.

Record viewer_batch : Type := {
  b_latent_index : nat;
  b_t_inds : nat;
  b_sims : list F;            (* [src_sims] of line 279 *)
  b_selection : list nat;     (* [src_inds] of line 279 *)
  b_src_exts : list Mat;
  b_src_ixts : list Mat;
  b_src_inds : list nat;      (* [src_inds] after the gather of line 288 *)
  b_bounds : bbox
}.

Inductive viewer_result : Type :=
| BaseBatch                   (* left to the base class: [barebone] *)
| Batch (b : viewer_batch).

(** Line 275: the similarities of the query to the candidates. *)
Definition viewer_similarities (centers_source : list (vec3 F))
    (center_target : vec3 F) : list F :=
  map (fun c => f_div f_one (clip (norm (vsub c center_target)) f_eps))
    centers_source.

(** Lines 308 to 310. *)
Definition crop_bounds (own call : bbox) : bbox :=
  (vmaximum (fst own) (fst call), vminimum (snd own) (snd call)).

(** The rescaling and cropping of the intrinsics that follow the bounds
    belong to the base class and leave the bounds as they are. *)
Definition get_viewer_batch (ds : dataset) (i : viewer_input)
  : M viewer_result :=
  if barebone ds then ret BaseBatch
  else
    let c2w := affine_inverse (i_w2c i) in
    let frame_index := t_to_frame (parent ds) (i_t i) in
    let latent_index := frame_to_latent (parent ds) frame_index in
    let view_index := 0 in
    let '(target_index, extra_index) :=
      selection_axes (closest_using_t ds) view_index latent_index in
    let center_target := translation c2w in
    column <- lift (select_column (src_exts ds) extra_index) ;;
    let centers_source :=
      map (fun m => translation (affine_inverse m)) column in
    let sims := viewer_similarities centers_source center_target in
    let '(sorted_sims, sorted_inds) := sort_descending before sims in
    n_srcs <- lift (last_item (n_srcs_list ds)) ;;
    let sel_sims := firstn n_srcs sorted_sims in
    let sel := firstn n_srcs sorted_inds in
    exts <- lift (index_pairs (src_exts ds) sel extra_index) ;;
    ixts <- lift (index_pairs (src_ixts ds) sel extra_index) ;;
    inds <- lift (gather (src_view_inds ds) sel) ;;
    _ <- lift (get_sources inds) ;;
    let latent_index' :=
      if closest_using_t ds then ListArg inds else IntArg extra_index in
    ret (Batch {| b_latent_index := latent_index;
                  b_t_inds := extra_index;
                  b_sims := sel_sims;
                  b_selection := sel;
                  b_src_exts := exts;
                  b_src_ixts := ixts;
                  b_src_inds := inds;
                  b_bounds := crop_bounds
                                (get_bounds (parent ds) latent_index')
                                (i_bounds i) |}).

(** What a dataset that the constructor returned satisfies. *)
Definition coherent (ds : dataset) : Prop :=
  (exists sims0,
      shape sims0 = [num_targets ds; num_candidates ds; num_extra ds]
      /\ src_sims ds = fst (sort_dim1 before sims0)
      /\ src_inds ds = snd (sort_dim1 before sims0))
  /\ shape (src_exts ds) = [num_candidates ds; num_extra ds]
  /\ shape (src_ixts ds) = [num_candidates ds; num_extra ds].

(** The target index and the extra index of a query. *)
Definition query_axes (ds : dataset) (index : nat) : nat * nat :=
  selection_axes (closest_using_t ds)
    (fst (get_cameras (parent ds) index))
    (snd (get_cameras (parent ds) index)).

(** The secondary index of a viewer call. *)
Definition viewer_extra (ds : dataset) (i : viewer_input) : nat :=
  snd (selection_axes (closest_using_t ds) 0
         (frame_to_latent (parent ds) (t_to_frame (parent ds) (i_t i)))).

(** The similarities of the query to all candidates, in candidate order. *)
Definition viewer_all_similarities (ds : dataset) (i : viewer_input)
  : list F :=
  viewer_similarities
    (map (fun s => translation
                     (affine_inverse
                        (get (src_exts ds) [s; viewer_extra ds i])))
       (seq 0 (num_candidates ds)))
    (translation (affine_inverse (i_w2c i))).

(** The selection of a viewer call, without the generator. *)
Definition viewer_selected (r : result (viewer_result * rng))
  : result (list nat) :=
  match r with
  | Ok (Batch b, _) => Ok (b_selection b)
  | Ok (BaseBatch, _) => Ok []
  | Raise e => Raise e
  end.

End Dataset.
End ImageBasedDataset.

(** ** The no-op dataset *)

Module NoopDataset.
Section Dataset.

Context {F : Type} `{Scalar F}.

Definition bbox : Type := (vec3 F * vec3 F)%type.

(** A tensor of bounds has one element type. The default [bounds] of the
    constructor, [torch.as_tensor([[-5, -5, -5], [5, 5, 5]])], is an int64
    tensor; bounds written with a decimal point are a floating-point
    tensor. *)
Inductive box_tensor : Type :=
| LongBox (lo hi : vec3 Z)
| FloatBox (lo hi : vec3 F).

(** Tensors are objects: a [ref] names one, and the heap holds what each
    of them contains. *)
Definition ref : Type := nat.
Definition heap : Type := ref -> box_tensor.

Definition update (h : heap) (r : ref) (b : box_tensor) : heap :=
  fun r' => if r' =? r then b else h r'.

(** The methods borrowed from [VolumetricVideoDataset]; [get_bounds]
    returns a tensor, which may be one that the dataset keeps. *)
Record noop : Type := {
  t_to_frame : F -> nat;
  v_to_camera : F -> nat;
  frame_to_latent : nat -> nat;
  camera_to_view : nat -> nat;
  get_bounds : nat -> ref
}.

Record viewer_input : Type := { i_t : F; i_v : F; i_bounds : bbox }.

Record viewer_batch : Type := {
  b_view_index : nat;
  b_frame_index : nat;
  b_camera_index : nat;
  b_latent_index : nat;
  b_bounds : ref
}.

(** The conversions between an int64 row and a floating-point row. *)
Definition to_int64 (x : F) : option Z :=
  match f_trunc x with
  | Some z =>
      if ((- 2 ^ 63 <=? z) && (z <? 2 ^ 63))%Z then Some z else None
  | None => None
  end.

Definition of_long (v : vec3 Z) : vec3 F :=
  {| vx := f_of_int (vx v); vy := f_of_int (vy v); vz := f_of_int (vz v) |}.

Definition to_long (v : vec3 F) : option (vec3 Z) :=
  match to_int64 (vx v), to_int64 (vy v), to_int64 (vz v) with
  | Some x, Some y, Some z => Some {| vx := x; vy := y; vz := z |}
  | _, _, _ => None
  end.

(** Lines 91 and 92 on the tensor [own]. [torch.maximum] and
    [torch.minimum] of an int64 row and a floating-point row are computed
    in floating point; the assignment into a row of [own] converts the
    result to the element type of [own]. [None]: a value that has no int64,
    where the source does not determine what is stored. *)
Definition crop_in_place (own : box_tensor) (call : bbox)
  : option box_tensor :=
  match own with
  | FloatBox lo hi =>
      Some (FloatBox (vmaximum lo (fst call)) (vminimum hi (snd call)))
  | LongBox lo hi =>
      match to_long (vmaximum (of_long lo) (fst call)),
            to_long (vminimum (of_long hi) (snd call)) with
      | Some lo', Some hi' => Some (LongBox lo' hi')
      | _, _ => None
      end
  end.

(** [output.bounds] is the tensor that [get_bounds] returned, without a
    copy: the two assignments write into that tensor. *)
Definition get_viewer_batch (ds : noop) (i : viewer_input) (h : heap)
  : option (viewer_batch * heap) :=
  let frame_index := t_to_frame ds (i_t i) in
  let camera_index := v_to_camera ds (i_v i) in
  let latent_index := frame_to_latent ds frame_index in
  let view_index := camera_to_view ds camera_index in
  let own := get_bounds ds latent_index in
  match crop_in_place (h own) (i_bounds i) with
  | Some cropped =>
      Some ({| b_view_index := view_index;
               b_frame_index := frame_index;
               b_camera_index := camera_index;
               b_latent_index := latent_index;
               b_bounds := own |},
            update h own cropped)
  | None => None
  end.

End Dataset.
End NoopDataset.

(** ** A concrete volume

    Six cameras with identity rotation on one line, one frame. A camera matrix
    is then its translation column; inverting the matrix negates it. The
    first five cameras are the candidates of the ranking; the sixth, at
    [(0.5, 0, 0)], is the target. *)

Module Scenario.

Import ImageBasedDataset.

Definition Mat : Type := vec3 float.

Definition point (x y z : float) : Mat := {| vx := x; vy := y; vz := z |}.

Definition opposite (m : Mat) : Mat :=
  point (- vx m)%float (- vy m)%float (- vz m)%float.

Definition same (m : Mat) : Mat := m.

Definition centers : list Mat :=
  [point 0 0 0; point 1 0 0; point 2 0 0; point 5 0 0; point 10 0 0;
   point 0.5 0 0].

Definition cameras (f : Mat -> Mat) : tensor Mat :=
  {| shape := [6; 1];
     get := fun ix => f (nth (hd 0 ix) centers (point 0 0 0)) |}.

Definition box : bbox (F := float) := (point (-5) (-5) (-5), point 5 5 5).

Definition volume : base Mat := {|
  frame_sample := SliceSpec (Some 0%Z) None (Some 1%Z);
  view_sample := SliceSpec (Some 0%Z) None (Some 1%Z);
  cache_raw := false;
  use_smpls := false;
  use_vhulls := false;
  n_views := 6;
  view_inds := seq 0 6;
  frame_inds := [0];
  Ks := cameras same;
  w2cs := cameras opposite;
  c2ws := cameras same;
  get_cameras := fun index => (index, 0);
  t_to_frame := fun _ => 0;
  frame_to_latent := fun frame => frame;
  get_bounds := fun _ => box
|}.

(** The five candidates are selected by [src_view_sample = [0, 5, 1]]. *)
Definition config (counts : list nat) (probs : list float) (gt_prob : Q)
    (extra : nat) : args (F := float) := {|
  a_n_srcs_list := counts;
  a_n_srcs_prob := probs;
  a_append_gt_prob := gt_prob;
  a_extra_src_pool := extra;
  a_closest_using_t := false;
  a_use_object_prior := false;
  a_objects_bounds := None;
  a_supply_decoded := false;
  a_barebone := false;
  a_src_view_sample := SliceSpec (Some 0%Z) (Some 5%Z) (Some 1%Z);
  a_force_sparse_view := false
|}.

(** The kernels of the evaluation: the textbook norm, which is exact on the
    centers of the volume, all on one axis, and the sort that keeps equal
    entries in input order. *)
Definition norm_kernel : NormKernel float := naive_norm.
Definition sort_kernel : SortKernel float := stable_kernel float.

(** The kernel of a CPU build. *)
Definition introsort : SortKernel float :=
  introsort_kernel before 0%float.

Definition build_with (SK : SortKernel float) (a : args)
  : result (dataset Mat) :=
  init (NK := norm_kernel) (SK := SK) same opposite same a volume.

Definition build (a : args) : result (dataset Mat) :=
  init (NK := norm_kernel) (SK := sort_kernel) same opposite same a volume.

Definition blank : dataset Mat := {|
  parent := volume;
  closest_using_t := false;
  src_view_sample := IndexSpec [];
  src_view_inds := [];
  src_ixts := {| shape := []; get := fun _ => point 0 0 0 |};
  src_exts := {| shape := []; get := fun _ => point 0 0 0 |};
  src_sims := {| shape := []; get := fun _ => 0%float |};
  src_inds := {| shape := []; get := fun _ => 0 |};
  n_srcs_list := [];
  n_srcs_prob := [];
  extra_src_pool := 0;
  append_gt_prob := 0%Q;
  use_object_prior := false;
  objects_bounds := None;
  supply_decoded := false;
  barebone := false
|}.

(** The dataset that [build] returns. *)
Definition built (a : args) : dataset Mat :=
  match build a with Ok ds => ds | Raise _ => blank end.

Definition built_with (SK : SortKernel float) (a : args) : dataset Mat :=
  match build_with SK a with Ok ds => ds | Raise _ => blank end.

(** The default weights: the binary64 numbers 0.2, 0.6 and 0.2. *)
Definition weights : list float :=
  [0x1.999999999999ap-3; 0x1.3333333333333p-1; 0x1.999999999999ap-3]%float.

(** The defaults of the constructor. *)
Definition training : args :=
  config [2; 3; 4] weights (1 # 10)%Q 1.

(** No widened pool, and a ground-truth probability of zero. *)
Definition strict : args := config [2] [1%float] 0%Q 0.

(** As many sources as there are candidates, no widened pool. *)
Definition all_views : args := config [5] [1%float] (1 # 10)%Q 0.

(** One source more, with the pool, than there are candidates. *)
Definition oversized : args := config [5] [1%float] (1 # 10)%Q 1.

(** The count that stands for all views. *)
Definition whole : args := config [0] [1%float] (1 # 10)%Q 1.

(** The count that stands for all views, with the default weights. *)
Definition unweighted : args := config [0] weights (1 # 10)%Q 1.

(** Counts listed from the largest to the smallest. *)
Definition descending_counts : args :=
  config [4; 3; 2] weights (1 # 10)%Q 1.

(** A second volume, a dome: seventeen cameras on the sphere of radius 5
    around the origin, at points with whole coordinates, one frame. The
    eighteenth camera, at the origin, is the target: every candidate is at
    distance 5 of it. *)
Definition dome_centers : list Mat :=
  [point 5 0 0; point (-5) 0 0; point 0 5 0; point 0 (-5) 0; point 0 0 5;
   point 3 4 0; point (-3) 4 0; point 3 (-4) 0; point (-3) (-4) 0;
   point 4 3 0; point (-4) 3 0; point 4 (-3) 0; point (-4) (-3) 0;
   point 3 0 4; point (-3) 0 4; point 0 3 4; point 0 (-3) 4;
   point 0 0 0].

Definition dome_cameras (f : Mat -> Mat) : tensor Mat :=
  {| shape := [18; 1];
     get := fun ix => f (nth (hd 0 ix) dome_centers (point 0 0 0)) |}.

Definition dome : base Mat := {|
  frame_sample := SliceSpec (Some 0%Z) None (Some 1%Z);
  view_sample := SliceSpec (Some 0%Z) None (Some 1%Z);
  cache_raw := false;
  use_smpls := false;
  use_vhulls := false;
  n_views := 18;
  view_inds := seq 0 18;
  frame_inds := [0];
  Ks := dome_cameras same;
  w2cs := dome_cameras opposite;
  c2ws := dome_cameras same;
  get_cameras := fun index => (index, 0);
  t_to_frame := fun _ => 0;
  frame_to_latent := fun frame => frame;
  get_bounds := fun _ => box
|}.

(** The defaults of the constructor, with the seventeen candidates selected
    by [src_view_sample = [0, 17, 1]]. *)
Definition dome_args : args (F := float) := {|
  a_n_srcs_list := [2; 3; 4];
  a_n_srcs_prob := weights;
  a_append_gt_prob := (1 # 10)%Q;
  a_extra_src_pool := 1;
  a_closest_using_t := false;
  a_use_object_prior := false;
  a_objects_bounds := None;
  a_supply_decoded := false;
  a_barebone := false;
  a_src_view_sample := SliceSpec (Some 0%Z) (Some 17%Z) (Some 1%Z);
  a_force_sparse_view := false
|}.

Definition build_dome (SK : SortKernel float) : result (dataset Mat) :=
  init (NK := norm_kernel) (SK := SK) same opposite same dome_args dome.

Definition built_dome (SK : SortKernel float) : dataset Mat :=
  match build_dome SK with Ok ds => ds | Raise _ => blank end.

(** The raw draw for which [random.random()] is 0.5. *)
Definition half : N := 4503599627370496.

(** A generator whose first draws are the given ones (then zeros). *)
Definition draws (l : list N) : rng :=
  {| tape := fun i => nth i l 0%N; pos := 0 |}.

(** The result of a computation, without the generator. *)
Definition value {A} (r : result (A * rng)) : result A :=
  match r with Ok (a, _) => Ok a | Raise e => Raise e end.

(** A viewer pose at the second candidate, [(1, 0, 0)]. *)
Definition pose : viewer_input Mat :=
  {| i_w2c := point (-1) 0 0; i_t := 0%float; i_bounds := box |}.





(** The viewer at [pose], with the kernels of the evaluation. *)
Definition similarities_at (ds : dataset Mat) : list float :=
  viewer_all_similarities (NK := norm_kernel) opposite same ds pose.

Definition sorted (sims : list float) : list float * list nat :=
  sort_descending (kernel := sort_kernel) before sims.

Definition viewer (ds : dataset Mat) : M (viewer_result Mat) :=
  get_viewer_batch (NK := norm_kernel) (SK := sort_kernel) opposite same ds
    pose.

End Scenario.

(** ** Further parts of the two classes *)

Module Further.

Import ImageBasedDataset.

(** The position of a camera in [Ks], [w2cs] and [c2ws]: the candidate axis
    is the view axis, or the frame axis when the closest views are searched
    in time. *)
Definition camera_at (by_time : bool) (candidate extra : nat) : list nat :=
  if by_time then [extra; candidate] else [candidate; extra].

(** The index that a query carries. *)
Definition query_index (q : query) : nat :=
  match q with
  | Resolved index _ => index
  | Plain index => index
  end.

(** [len(self.src_view_sample) == 3]: the sample is read as the three parts
    of a slice. *)
Definition reads_as_slice (s : sample_spec) : bool :=
  match s with
  | SliceSpec _ _ _ => true
  | IndexSpec [_; _; _] => true
  | IndexSpec _ => false
  end.

Section Checks.

Context {F : Type} `{Scalar F}.
Variable Mat : Type.

(** The four assertions of [__init__]. *)
Definition init_checks (a : @args F) (b : @base F Mat) : bool :=
  (negb (a_closest_using_t a) || is_default_sample (frame_sample b)
   || a_force_sparse_view a)
  && (is_default_sample (view_sample b) || a_force_sparse_view a)
  && negb (cache_raw b && negb (a_supply_decoded a))
  && negb (a_use_object_prior a
           && match a_objects_bounds a with None => true | Some _ => false end
           && negb (use_smpls b) && negb (use_vhulls b)).

(** The axis that [src_view_sample] selects from. *)
Definition candidate_axis (a : @args F) (b : @base F Mat) : nat :=
  length (if a_closest_using_t a then frame_inds b else view_inds b).

End Checks.

End Further.

(** ** The constructor of the no-op dataset *)

Module NoopInit.

(** The exceptions of the arithmetic on the entries of a sample. *)
Inductive error : Type := TypeError | ZeroDivisionError | IndexError.

Inductive outcome (A : Type) : Type :=
| Done (a : A)
| Fail (e : error).

Arguments Done {A} a.
Arguments Fail {A} e.

Definition obind {A B} (r : outcome A) (f : A -> outcome B) : outcome B :=
  match r with Done a => f a | Fail e => Fail e end.

(** [sample[i]] of a list whose entries are integers or [None]. *)
Definition entry (sample : list (option Z)) (i : nat)
  : outcome (option Z) :=
  match nth_error sample i with
  | Some v => Done v
  | None => Fail IndexError
  end.

(** [a - b] *)
Definition py_sub (a b : option Z) : outcome Z :=
  match a, b with
  | Some x, Some y => Done (x - y)%Z
  | _, _ => Fail TypeError
  end.

(** [a // b] for an integer [a]: the quotient is rounded down. *)
Definition py_floordiv (a : Z) (b : option Z) : outcome Z :=
  match b with
  | None => Fail TypeError
  | Some y => if (y =? 0)%Z then Fail ZeroDivisionError else Done (a / y)%Z
  end.

(** [(sample[1] - sample[0]) // sample[2]], evaluated from left to right. *)
Definition count (sample : list (option Z)) : outcome Z :=
  obind (entry sample 1) (fun stop =>
  obind (entry sample 0) (fun start =>
  obind (py_sub stop start) (fun extent =>
  obind (entry sample 2) (fun step =>
  py_floordiv extent step)))).

(** The counts that [__init__] stores. *)
Record counts : Type := {
  n_views : Z;
  n_latents : Z;
  n_frame_total : Z;
  n_view_total : Z
}.

Definition init (frame_sample view_sample : list (option Z))
  : outcome counts :=
  obind (count view_sample) (fun views =>
  obind (count frame_sample) (fun latents =>
  Done {| n_views := views;
          n_latents := latents;
          n_frame_total := latents;
          n_view_total := views |})).

(** [__len__] *)
Definition len (c : counts) : Z := (n_latents c * n_views c)%Z.

(** The number of positions [start, start + step, ...] below [stop]:
    [len(range(start, stop, step))]. *)
Definition range_length (start stop step : Z) : Z :=
  Z.of_nat (length (stride (Z.to_nat (stop - start)) start stop step)).

End NoopInit.

(** * Properties *)

(** ** Lists *)

Lemma map_nth_seq {A} (l : list A) :
  forall d : nat -> A, map (fun r => nth r l (d r)) (seq 0 (length l)) = l.
Proof.
  induction l as [|a l IH]; intros d; simpl; [reflexivity|].
  f_equal. rewrite <- seq_shift, map_map. apply (IH (fun r => d (S r))).
Qed.

Lemma nth_error_map_seq {A} (f : nat -> A) (n i : nat) :
  i < n -> nth_error (map f (seq 0 n)) i = Some (f i).
Proof.
  intros Hi. rewrite nth_error_map, nth_error_seq.
  apply Nat.ltb_lt in Hi. rewrite Hi. reflexivity.
Qed.

Lemma slice_length {A} (a b : nat) (l : list A) :
  length (slice a b l) = Nat.min (b - a) (length l - a).
Proof. unfold slice. rewrite length_firstn, length_skipn. reflexivity. Qed.

Lemma slice_incl {A} (a b : nat) (l : list A) : incl (slice a b l) l.
Proof.
  unfold slice. intros x Hx.
  rewrite <- (firstn_skipn a l). apply in_or_app. right.
  rewrite <- (firstn_skipn (b - a) (skipn a l)). apply in_or_app.
  left. exact Hx.
Qed.

Lemma NoDup_firstn {A} (n : nat) (l : list A) : NoDup l -> NoDup (firstn n l).
Proof.
  intros Hl. rewrite <- (firstn_skipn n l) in Hl.
  apply NoDup_app_remove_r in Hl. exact Hl.
Qed.

Lemma NoDup_skipn {A} (n : nat) (l : list A) : NoDup l -> NoDup (skipn n l).
Proof.
  intros Hl. rewrite <- (firstn_skipn n l) in Hl.
  apply NoDup_app_remove_l in Hl. exact Hl.
Qed.

Lemma slice_NoDup {A} (a b : nat) (l : list A) : NoDup l -> NoDup (slice a b l).
Proof. intros Hl. unfold slice. apply NoDup_firstn, NoDup_skipn, Hl. Qed.

Lemma StronglySorted_nth {A} (R : A -> A -> Prop) (l : list A) (d : A) :
  StronglySorted R l ->
  forall p q, p < q -> q < length l -> R (nth p l d) (nth q l d).
Proof.
  induction 1 as [|a l Hs IH Hall]; intros p q Hpq Hq; simpl in Hq; [lia|].
  destruct q as [|q]; [lia|].
  destruct p as [|p]; simpl.
  - rewrite Forall_forall in Hall. apply Hall, nth_In. lia.
  - apply IH; lia.
Qed.

Lemma in_range_spec (d : nat) (inds : list nat) :
  in_range d inds = true <-> Forall (fun i => i < d) inds.
Proof.
  unfold in_range. rewrite forallb_forall, Forall_forall.
  split; intros Hall i Hi; specialize (Hall i Hi); apply Nat.ltb_lt; exact Hall.
Qed.

(** ** The descending sort *)

Section SortFacts.

Context {K : Type} {kernel : SortKernel K}.
Variable before : K -> K -> bool.

Lemma insert_perm (input : list K) (x : nat * K) (l : list (nat * K)) :
  Permutation (insert before input x l) (x :: l).
Proof.
  induction l as [|y r IH]; simpl; [reflexivity|].
  destruct (in_front before input y x); [|reflexivity].
  rewrite IH. apply perm_swap.
Qed.

Lemma sort_pairs_perm (l : list K) :
  Permutation (sort_pairs before l) (enumerate l).
Proof.
  unfold sort_pairs. generalize l at 1. intros input.
  induction (enumerate l) as [|x r IH]; simpl.
  - reflexivity.
  - rewrite insert_perm. constructor. exact IH.
Qed.

Lemma enumerate_fst (l : list K) : map fst (enumerate l) = seq 0 (length l).
Proof.
  unfold enumerate.
  assert (G : forall (a : list nat) (b : list K),
             length a = length b -> map fst (combine a b) = a).
  { induction a as [|x a IH]; intros [|y b] Hlen; simpl in *;
      try reflexivity; try discriminate.
    f_equal. apply IH. lia. }
  apply G. apply length_seq.
Qed.

Lemma sort_indices_perm (l : list K) :
  Permutation (snd (sort_descending before l)) (seq 0 (length l)).
Proof.
  simpl. rewrite <- enumerate_fst.
  apply Permutation_map, sort_pairs_perm.
Qed.

Lemma sort_pairs_length (l : list K) :
  length (sort_pairs before l) = length l.
Proof.
  rewrite (Permutation_length (sort_pairs_perm l)).
  unfold enumerate. rewrite length_combine, length_seq. lia.
Qed.

Lemma sort_indices_length (l : list K) :
  length (snd (sort_descending before l)) = length l.
Proof. simpl. rewrite length_map. apply sort_pairs_length. Qed.

Lemma sort_values_length (l : list K) :
  length (fst (sort_descending before l)) = length l.
Proof. simpl. rewrite length_map. apply sort_pairs_length. Qed.

Lemma sort_indices_NoDup (l : list K) :
  NoDup (snd (sort_descending before l)).
Proof.
  apply (Permutation_NoDup (Permutation_sym (sort_indices_perm l))).
  apply seq_NoDup.
Qed.

Lemma sort_indices_bound (l : list K) (i : nat) :
  In i (snd (sort_descending before l)) -> i < length l.
Proof.
  intros Hi.
  apply (Permutation_in _ (sort_indices_perm l)) in Hi.
  apply in_seq in Hi. lia.
Qed.

(** Every sorted entry is an entry of the input, at the position that goes
    with it. *)
Lemma enumerate_lookup (l : list K) (i : nat) (k : K) :
  In (i, k) (enumerate l) -> nth_error l i = Some k.
Proof.
  unfold enumerate.
  assert (G : forall (b : list K) s,
             In (i, k) (combine (seq s (length b)) b) ->
             s <= i /\ nth_error b (i - s) = Some k).
  { induction b as [|y b IH]; intros s Hin; simpl in Hin; [contradiction|].
    destruct Hin as [Heq | Hin].
    - inversion Heq; subst. rewrite Nat.sub_diag. split; [lia|reflexivity].
    - apply IH in Hin. destruct Hin as [Hle Hnth]. split; [lia|].
      replace (i - s) with (S (i - S s)) by lia. exact Hnth. }
  intros Hin. apply G in Hin. rewrite Nat.sub_0_r in Hin. apply Hin.
Qed.

Lemma sort_pairs_lookup (l : list K) (r : nat) (d : nat * K) :
  r < length l ->
  nth_error l (fst (nth r (sort_pairs before l) d))
  = Some (snd (nth r (sort_pairs before l) d)).
Proof.
  intros Hr. apply enumerate_lookup.
  apply (Permutation_in _ (sort_pairs_perm l)).
  rewrite <- surjective_pairing.
  apply nth_In. rewrite sort_pairs_length. exact Hr.
Qed.

Hypothesis before_asym :
  forall a b, before a b = true -> before b a = false.
Hypothesis before_ntrans :
  forall a b c, before a b = false -> before b c = false ->
                before a c = false.

(** Whatever the kernel does with equal entries, the result descends. *)
Lemma insert_descending (input : list K) (x : nat * K)
    (l : list (nat * K)) :
  StronglySorted (descending before) l ->
  StronglySorted (descending before) (insert before input x l).
Proof.
  induction l as [|y r IH]; intros Hs; simpl.
  - repeat constructor.
  - inversion Hs as [|? ? Hsr Hall]; subst.
    unfold in_front.
    destruct (before (snd y) (snd x)) eqn:E; simpl.
    + constructor; [apply IH; exact Hsr|].
      apply (Permutation_Forall (Permutation_sym (insert_perm input x r))).
      constructor; [|exact Hall].
      unfold descending. apply before_asym. exact E.
    + destruct (before (snd x) (snd y)) eqn:E'; simpl.
      * constructor; [exact Hs|].
        constructor; [exact E|].
        rewrite Forall_forall in Hall |- *.
        intros z Hz. unfold descending in *.
        apply before_ntrans with (b := snd y); [apply Hall, Hz|exact E].
      * destruct (tie input (fst y) (fst x)).
        -- constructor; [apply IH; exact Hsr|].
           apply (Permutation_Forall
                    (Permutation_sym (insert_perm input x r))).
           constructor; [exact E'|exact Hall].
        -- constructor; [exact Hs|].
           constructor; [exact E|].
           rewrite Forall_forall in Hall |- *.
           intros z Hz. unfold descending in *.
           apply before_ntrans with (b := snd y); [apply Hall, Hz|exact E].
Qed.

Lemma sort_pairs_descending (l : list K) :
  StronglySorted (descending before) (sort_pairs before l).
Proof.
  unfold sort_pairs. generalize l at 1. intros input.
  induction (enumerate l) as [|x r IH]; simpl.
  - constructor.
  - apply insert_descending, IH.
Qed.

(** Of two ranks [p < q] the later value never comes strictly before the
    earlier one. *)
Lemma sort_descending_ranked (l : list K) (p q : nat) (dv : K) :
  p < q -> q < length l ->
  let vals := fst (sort_descending before l) in
  before (nth q vals dv) (nth p vals dv) = false.
Proof.
  intros Hpq Hq. simpl.
  pose proof (@StronglySorted_nth _ (descending before) _ (0, dv)
                (sort_pairs_descending l) p q Hpq) as Hr.
  rewrite sort_pairs_length in Hr. specialize (Hr Hq).
  rewrite !(map_nth snd _ (0, dv)). exact Hr.
Qed.

(** A kernel that keeps equal entries in input order gives the stable
    sort: when neither of two values comes before the other, the input
    positions ascend. *)
Hypothesis kernel_stable : forall l i j, tie l i j = (i <? j).

Lemma insert_sorted (input : list K) (x : nat * K) (l : list (nat * K)) :
  Forall (fun y => fst x < fst y) l ->
  StronglySorted (ranked before) l ->
  StronglySorted (ranked before) (insert before input x l).
Proof.
  induction l as [|y r IH]; intros Hlt Hs; simpl.
  - repeat constructor.
  - inversion Hlt as [|? ? Hy Hr]; subst.
    inversion Hs as [|? ? Hsr Hall]; subst.
    unfold in_front. rewrite kernel_stable.
    replace (fst y <? fst x) with false
      by (symmetry; apply Nat.ltb_ge; lia).
    rewrite andb_false_r, orb_false_r.
    destruct (before (snd y) (snd x)) eqn:E.
    + constructor; [apply IH; assumption|].
      apply (Permutation_Forall (Permutation_sym (insert_perm input x r))).
      constructor; [|exact Hall].
      split; [apply before_asym; exact E|].
      intros Hc. rewrite Hc in E. discriminate.
    + constructor; [exact Hs|].
      constructor; [split; [exact E|intros _; exact Hy]|].
      rewrite Forall_forall in Hall, Hr |- *.
      intros z Hz. destruct (Hall z Hz) as [Hzy _].
      split; [apply before_ntrans with (b := snd y); assumption|].
      intros _. apply Hr, Hz.
Qed.

Lemma sort_pairs_sorted (l : list K) :
  StronglySorted (ranked before) (sort_pairs before l).
Proof.
  unfold sort_pairs, enumerate. generalize l at 1. intros input.
  assert (G : forall (b : list K) s,
             let ps := fold_right (insert before input) []
                         (combine (seq s (length b)) b) in
             StronglySorted (ranked before) ps
             /\ Forall (fun y => s <= fst y) ps).
  { induction b as [|y b IH]; intros s; simpl.
    - split; constructor.
    - destruct (IH (S s)) as [Hs Hall]. split.
      + apply insert_sorted; [|exact Hs].
        simpl. revert Hall. apply Forall_impl. intros; lia.
      + apply (Permutation_Forall (Permutation_sym (insert_perm _ _ _))).
        constructor; [simpl; lia|].
        revert Hall. apply Forall_impl. intros; lia. }
  apply G.
Qed.

Lemma sort_stable_ranked (l : list K) (p q : nat) (dv : K) (di : nat) :
  p < q -> q < length l ->
  let vals := fst (sort_descending before l) in
  let inds := snd (sort_descending before l) in
  before (nth q vals dv) (nth p vals dv) = false
  /\ (before (nth p vals dv) (nth q vals dv) = false ->
      nth p inds di < nth q inds di).
Proof.
  intros Hpq Hq. simpl.
  pose proof (@StronglySorted_nth _ (ranked before) _ (di, dv)
                (sort_pairs_sorted l) p q Hpq) as Hr.
  rewrite sort_pairs_length in Hr. specialize (Hr Hq).
  assert (Hv : forall r, nth r (map snd (sort_pairs before l)) dv
                         = snd (nth r (sort_pairs before l) (di, dv)))
    by (intros r; apply (map_nth snd _ (di, dv))).
  assert (Hi : forall r, nth r (map fst (sort_pairs before l)) di
                         = fst (nth r (sort_pairs before l) (di, dv)))
    by (intros r; apply (map_nth fst _ (di, dv))).
  rewrite !Hv, !Hi. exact Hr.
Qed.

End SortFacts.

(** ** Sampling without replacement *)

Lemma swap_remove_perm (pool : list nat) (j : nat) :
  j < length pool ->
  Permutation pool
    (nth j pool 0 :: removelast (list_set j (last pool 0) pool)).
Proof.
  intros Hj.
  destruct (nth_split pool 0 Hj) as (a & b & Hsplit & Hlen).
  set (x := nth j pool 0) in *. clearbody x.
  unfold list_set. rewrite Hsplit at 2 3 4. subst j.
  rewrite firstn_app, firstn_all, Nat.sub_diag, firstn_O, app_nil_r.
  replace (skipn (S (length a)) (a ++ x :: b)) with b
    by (rewrite skipn_app, skipn_all2 by lia;
        replace (S (length a) - length a) with 1 by lia; reflexivity).
  rewrite Hsplit at 1.
  destruct (exists_last (l := x :: b)) as (b' & z & Hb); [discriminate|].
  destruct b as [|y b].
  - replace (a ++ [x]) with (a ++ x :: nil) by reflexivity.
    rewrite last_last, removelast_last.
    symmetry. apply Permutation_cons_append.
  - destruct b' as [|x' b'']; [destruct b; discriminate|].
    simpl in Hb. inversion Hb as [[Hx Hyb]]. subst x'.
    rewrite Hyb.
    replace (last (a ++ x :: b'' ++ [z]) 0) with z
      by (change (a ++ x :: b'' ++ [z]) with (a ++ (x :: b'') ++ [z]);
          rewrite app_assoc, last_last; reflexivity).
    change (a ++ z :: b'' ++ [z]) with (a ++ (z :: b'') ++ [z]).
    rewrite app_assoc, removelast_last.
    rewrite <- Permutation_middle. constructor.
    apply Permutation_app_head.
    symmetry. apply Permutation_cons_append.
Qed.

Lemma randbelow_spec (n : nat) (g : rng) :
  0 < n -> exists j, randbelow n g = Ok (j, snd (next g)) /\ j < n.
Proof.
  intros Hn. unfold randbelow, next. simpl.
  eexists. split; [reflexivity|].
  assert (Hlt : (tape g (pos g) mod N.of_nat n < N.of_nat n)%N)
    by (apply N.mod_lt; lia).
  lia.
Qed.

Lemma sample_loop_spec (k : nat) :
  forall (pool : list nat) (g : rng),
    k <= length pool ->
    exists l g', sample_loop pool k g = Ok (l, g')
                 /\ length l = k
                 /\ exists rest, Permutation pool (l ++ rest).
Proof.
  induction k as [|k IH]; intros pool g Hk; simpl.
  - exists [], g. repeat split. exists pool. reflexivity.
  - destruct (@randbelow_spec (length pool) g) as (j & Hj & Hlt); [lia|].
    pose proof (swap_remove_perm pool Hlt) as Hperm.
    set (pool' := removelast (list_set j (last pool 0) pool)) in *.
    assert (Hlen : length pool' = length pool - 1).
    { apply Permutation_length in Hperm. simpl in Hperm. lia. }
    destruct (IH pool' (snd (next g))) as (l & g' & Hrun & Hl & rest & Hrest);
      [lia|].
    exists (nth j pool 0 :: l), g'.
    split; [|split].
    + unfold bind. rewrite Hj. fold pool'. rewrite Hrun. reflexivity.
    + simpl. lia.
    + exists rest. simpl.
      apply (Permutation_trans Hperm). constructor. exact Hrest.
Qed.

Lemma sample_ok (population : list nat) (k : nat) (g : rng) :
  k <= length population ->
  exists l g', sample population k g = Ok (l, g')
               /\ length l = k
               /\ incl l population
               /\ (NoDup population -> NoDup l).
Proof.
  intros Hk. unfold sample.
  replace (length population <? k) with false
    by (symmetry; apply Nat.ltb_ge; exact Hk).
  destruct (@sample_loop_spec k population g Hk)
    as (l & g' & Hrun & Hl & rest & Hperm).
  exists l, g'. repeat split; try assumption.
  - intros x Hx. apply (Permutation_in _ (Permutation_sym Hperm)).
    apply in_or_app. left. exact Hx.
  - intros Hnd. apply (Permutation_NoDup Hperm) in Hnd.
    apply NoDup_app_remove_r in Hnd. exact Hnd.
Qed.

Lemma sample_raises (population : list nat) (k : nat) (g : rng) :
  length population < k -> sample population k g = Raise ValueError.
Proof.
  intros Hk. unfold sample.
  replace (length population <? k) with true
    by (symmetry; apply Nat.ltb_lt; exact Hk).
  reflexivity.
Qed.

(** ** The constructor *)

Ltac inv_result :=
  repeat match goal with
    | H : Ok _ = Ok _ |- _ => inversion H; subst; clear H
    | H : Raise _ = Ok _ |- _ => discriminate H
    | H : (_, _) = (_, _) |- _ => inversion H; subst; clear H
    | H : rbind ?r _ = Ok _ |- _ =>
        let E := fresh "E" in destruct r eqn:E; simpl in H
    | H : (if ?c then Raise _ else _) = Ok _ |- _ =>
        let E := fresh "E" in destruct c eqn:E
    | H : (if ?c then _ else Raise _) = Ok _ |- _ =>
        let E := fresh "E" in destruct c eqn:E
    end.

Lemma list_eq_nat_eq (a b : list nat) : list_eq_nat a b = true -> a = b.
Proof.
  revert b. induction a as [|x a IH]; intros [|y b] Hab; simpl in Hab;
    try reflexivity; try discriminate.
  apply andb_prop in Hab. destruct Hab as [Hxy Hab].
  apply Nat.eqb_eq in Hxy. subst. f_equal. apply IH, Hab.
Qed.

Section TensorFacts.

Variable A : Type.

Lemma index_tensor_shape (x y : tensor A) (inds : list nat) d rest :
  shape x = d :: rest ->
  index_tensor x inds = Ok y ->
  shape y = length inds :: rest.
Proof.
  unfold index_tensor. intros Hs Hy. rewrite Hs in Hy.
  inv_result. reflexivity.
Qed.

Lemma index_tensor_dim1_shape (x y : tensor A) (inds : list nat) d0 d1 :
  shape x = [d0; d1] ->
  index_tensor_dim1 x inds = Ok y ->
  shape y = [d0; length inds].
Proof.
  unfold index_tensor_dim1. intros Hs Hy. rewrite Hs in Hy.
  inv_result. reflexivity.
Qed.

Lemma index_list_single_shape (x y : tensor A) (inds : list nat) d rest :
  shape x = d :: rest ->
  index_list x [inds] = Ok y ->
  shape y = length inds :: rest.
Proof.
  unfold index_list. intros Hs Hy. rewrite Hs in Hy. simpl in Hy.
  inv_result. reflexivity.
Qed.

Lemma permute_1_0_shape (x y : tensor A) d0 d1 :
  shape x = [d0; d1] -> permute_1_0 x = Ok y -> shape y = [d1; d0].
Proof.
  unfold permute_1_0. intros Hs Hy. rewrite Hs in Hy.
  inv_result. reflexivity.
Qed.

End TensorFacts.

Section InitFacts.

Import ImageBasedDataset.

Context {F : Type} `{Scalar F} {NK : NormKernel F} {SK : SortKernel F}.
Variable Mat : Type.
Variable affine_padding : Mat -> Mat.
Variable affine_inverse : Mat -> Mat.
Variable translation : Mat -> vec3 F.

Local Abbreviation Base := (@base F Mat).
Local Abbreviation Args := (@args F).
Local Abbreviation Dataset := (@dataset F Mat).

Lemma base_wf_shapes (b : Base) :
  base_wf b = true ->
  let dims := [length (view_inds b); length (frame_inds b)] in
  shape (Ks b) = dims /\ shape (w2cs b) = dims /\ shape (c2ws b) = dims.
Proof.
  unfold base_wf. intros Hwf.
  apply andb_prop in Hwf. destruct Hwf as [Hwf H3].
  apply andb_prop in Hwf. destruct Hwf as [H1 H2].
  repeat split; apply list_eq_nat_eq; assumption.
Qed.

Lemma index_dim0_shape (x y : tensor Mat) (vi : list nat) d0 d1 :
  shape x = [d0; d1] ->
  index_dim0 x (guard_single vi) = Ok y ->
  shape y = [length vi; d1].
Proof.
  unfold guard_single, index_dim0. intros Hs Hy.
  destruct (length vi =? 1).
  - eapply index_list_single_shape; eassumption.
  - eapply index_tensor_shape; eassumption.
Qed.

Lemma index_dim1_shape (x y : tensor Mat) (vi : list nat) d0 d1 :
  shape x = [d0; d1] ->
  index_dim1 x (guard_single vi) = Ok y ->
  shape y = [d0; length vi].
Proof.
  unfold guard_single, index_dim1. intros Hs Hy.
  destruct (length vi =? 1) eqn:E.
  - unfold index_list_dim1 in Hy.
    destruct vi as [|v [|v' vi]]; simpl in E; try discriminate E.
    simpl in Hy. eapply index_tensor_dim1_shape; eassumption.
  - eapply index_tensor_dim1_shape; eassumption.
Qed.

(** The candidate axis leads [src_ixts] and [src_exts]; the other axis of
    the loaded cameras follows. *)
Lemma load_source_params_shape (by_time : bool) (s : sample_spec)
    (b : Base) vi ixts exts :
  base_wf b = true ->
  load_source_params affine_padding by_time s b = Ok (vi, ixts, exts) ->
  let e := if by_time then length (view_inds b)
           else length (frame_inds b) in
  shape ixts = [length vi; e] /\ shape exts = [length vi; e].
Proof.
  intros Hwf Hload.
  destruct (base_wf_shapes b Hwf) as (HK & Hw & _).
  unfold load_source_params in Hload.
  destruct by_time; inv_result; simpl.
  - split.
    + eapply permute_1_0_shape; [|eassumption].
      eapply index_dim1_shape; [|eassumption]. eassumption.
    + eapply permute_1_0_shape; [|eassumption].
      simpl. eapply index_dim1_shape; [|eassumption]. eassumption.
  - split; (eapply index_dim0_shape; [|eassumption]); eassumption.
Qed.

Lemma load_source_indices_spec (by_time : bool) (b : Base)
    (exts : tensor Mat) sims inds n :
  base_wf b = true ->
  shape exts = [n; if by_time then length (view_inds b)
                   else length (frame_inds b)] ->
  load_source_indices affine_inverse translation by_time b exts
  = Ok (sims, inds) ->
  exists sims0,
    shape sims0 = [if by_time then length (frame_inds b)
                   else length (view_inds b);
                   n;
                   if by_time then length (view_inds b)
                   else length (frame_inds b)]
    /\ sims = fst (sort_dim1 before sims0)
    /\ inds = snd (sort_dim1 before sims0).
Proof.
  intros Hwf Hexts Hload.
  destruct (base_wf_shapes b Hwf) as (_ & _ & Hc).
  unfold load_source_indices in Hload.
  assert (Hsim : forall tar : tensor Mat,
             shape tar = [if by_time then length (frame_inds b)
                          else length (view_inds b);
                          if by_time then length (view_inds b)
                          else length (frame_inds b)] ->
             rbind (similarities (tmap translation (tmap affine_inverse exts))
                      (tmap translation tar))
               (fun sims1 => Ok (sort_dim1 before sims1)) = Ok (sims, inds) ->
             exists sims0,
               shape sims0 = [if by_time then length (frame_inds b)
                              else length (view_inds b);
                              n;
                              if by_time then length (view_inds b)
                              else length (frame_inds b)]
               /\ sims = fst (sort_dim1 before sims0)
               /\ inds = snd (sort_dim1 before sims0)).
  { intros tar Htar Hrun.
    unfold similarities in Hrun. simpl in Hrun.
    rewrite Hexts, Htar in Hrun.
    unfold broadcast_dim in Hrun. rewrite Nat.eqb_refl in Hrun.
    simpl in Hrun. inv_result.
    eexists. split; [|split; reflexivity]. reflexivity. }
  destruct by_time; simpl in Hload.
  - destruct (permute_1_0 (c2ws b)) as [tar|] eqn:E; [|discriminate].
    simpl in Hload. apply (Hsim tar); [|exact Hload].
    eapply permute_1_0_shape; eassumption.
  - apply (Hsim (c2ws b)); assumption.
Qed.

Lemma init_fields (a : Args) (b : Base) (ds : Dataset) :
  init affine_padding affine_inverse translation a b = Ok ds ->
  parent ds = b
  /\ closest_using_t ds = a_closest_using_t a
  /\ n_srcs_prob ds = a_n_srcs_prob a
  /\ extra_src_pool ds = a_extra_src_pool a
  /\ append_gt_prob ds = a_append_gt_prob a
  /\ barebone ds = a_barebone a
  /\ n_srcs_list ds
     = (if negb (length (a_n_srcs_list a) =? 1)
           || negb (nth 0 (a_n_srcs_list a) 0 =? 0)
        then a_n_srcs_list a else [n_views b]).
Proof.
  unfold init. intros Hinit.
  inv_result. destruct a0 as [[vi ixts] exts]. inv_result.
  destruct a0 as [sims inds]. inv_result.
  simpl. repeat split; reflexivity.
Qed.

Lemma init_coherent (a : Args) (b : Base) (ds : Dataset) :
  base_wf b = true ->
  init affine_padding affine_inverse translation a b = Ok ds ->
  coherent ds.
Proof.
  unfold init. intros Hwf Hinit.
  inv_result. destruct a0 as [[vi ixts] exts]. inv_result.
  destruct a0 as [sims inds]. inv_result.
  destruct (load_source_params_shape _ _ _ Hwf E2) as [Hi He].
  destruct (load_source_indices_spec _ _ _ Hwf He E3)
    as (sims0 & Hs & Hsims & Hinds).
  unfold coherent, num_targets, num_candidates, num_extra. simpl.
  split; [|split; assumption].
  exists sims0. repeat split; assumption.
Qed.

End InitFacts.

(** ** Queries *)

Section QueryFacts.

Import ImageBasedDataset.

Context {F : Type} `{Scalar F} {NK : NormKernel F} {SK : SortKernel F}.
Variable Mat : Type.

Local Abbreviation Dataset := (@dataset F Mat).

Lemma ranking_sorted (ds : Dataset) (t l : nat) :
  coherent ds ->
  exists column,
    length column = num_candidates ds
    /\ ranking ds t l = snd (sort_descending before column)
    /\ lane (src_sims ds) t l = fst (sort_descending before column).
Proof.
  intros ((sims0 & Hshape & Hsims & Hinds) & _).
  exists (lane sims0 t l).
  assert (Hlen : length (lane sims0 t l) = num_candidates ds).
  { unfold lane, dim. rewrite length_map, length_seq, Hshape. reflexivity. }
  split; [exact Hlen|].
  unfold ranking. rewrite Hsims, Hinds.
  unfold lane at 1 3. unfold dim. simpl shape. simpl get.
  rewrite Hshape. simpl nth.
  split.
  - rewrite <- Hlen.
    rewrite <- (sort_indices_length before (lane sims0 t l)).
    apply (map_nth_seq _ (fun _ => 0)).
  - rewrite <- Hlen.
    rewrite <- (sort_values_length before (lane sims0 t l)).
    apply (map_nth_seq _ (fun r => get sims0 [t; r; l])).
Qed.

Lemma ranking_perm (ds : Dataset) (t l : nat) :
  coherent ds ->
  Permutation (ranking ds t l) (seq 0 (num_candidates ds)).
Proof.
  intros Hds. destruct (ranking_sorted t l Hds) as (column & Hlen & Hr & _).
  rewrite Hr, <- Hlen. apply sort_indices_perm.
Qed.

Lemma ranking_length (ds : Dataset) (t l : nat) :
  coherent ds -> length (ranking ds t l) = num_candidates ds.
Proof.
  intros Hds. rewrite (Permutation_length (ranking_perm t l Hds)).
  apply length_seq.
Qed.

Lemma ranking_NoDup (ds : Dataset) (t l : nat) :
  coherent ds -> NoDup (ranking ds t l).
Proof.
  intros Hds.
  apply (Permutation_NoDup (Permutation_sym (ranking_perm t l Hds))).
  apply seq_NoDup.
Qed.

Lemma ranking_bound (ds : Dataset) (t l i : nat) :
  coherent ds -> In i (ranking ds t l) -> i < num_candidates ds.
Proof.
  intros Hds Hi. apply (Permutation_in _ (ranking_perm t l Hds)) in Hi.
  apply in_seq in Hi. lia.
Qed.

Lemma select_lane_ranking (ds : Dataset) (t a b l : nat) :
  coherent ds -> t < num_targets ds -> l < num_extra ds ->
  select_lane (src_inds ds) t a b l = Ok (slice a b (ranking ds t l)).
Proof.
  intros Hds Ht Hl.
  destruct Hds as ((sims0 & Hshape & _ & Hinds) & _).
  assert (Hs : shape (src_inds ds)
               = [num_targets ds; num_candidates ds; num_extra ds])
    by (rewrite Hinds; exact Hshape).
  unfold select_lane, ranking, lane, dim. rewrite Hs. simpl nth.
  apply Nat.ltb_lt in Ht, Hl. rewrite Ht, Hl. reflexivity.
Qed.

(** The selection of lines 190 to 193 in terms of the stored ranking. *)
Lemma select_sources_unfold (ds : Dataset) (t l n : nat) (g : rng) :
  coherent ds -> t < num_targets ds -> l < num_extra ds ->
  let skip := remove_gt_of (append_gt_prob ds) (peek_random g) in
  let pool := slice skip (skip + n + extra_src_pool ds) (ranking ds t l) in
  select_sources ds t l n g
  = if negb (extra_src_pool ds =? 0) then sample pool n (snd (next g))
    else Ok (pool, snd (next g)).
Proof.
  intros Hds Ht Hl. simpl.
  unfold select_sources, bind, random, lift.
  rewrite select_lane_ranking by assumption.
  destruct (negb (extra_src_pool ds =? 0)); reflexivity.
Qed.

Lemma select_sources_ok (ds : Dataset) (t l n : nat) (g : rng) :
  coherent ds -> t < num_targets ds -> l < num_extra ds ->
  remove_gt_of (append_gt_prob ds) (peek_random g) + n
  <= num_candidates ds ->
  exists sel g',
    select_sources ds t l n g = Ok (sel, g')
    /\ length sel = n
    /\ NoDup sel
    /\ incl sel
         (slice (remove_gt_of (append_gt_prob ds) (peek_random g))
            (remove_gt_of (append_gt_prob ds) (peek_random g) + n
             + extra_src_pool ds)
            (ranking ds t l)).
Proof.
  intros Hds Ht Hl Hn.
  rewrite select_sources_unfold by assumption.
  set (skip := remove_gt_of (append_gt_prob ds) (peek_random g)) in *.
  set (pool := slice skip (skip + n + extra_src_pool ds) (ranking ds t l)).
  assert (Hpool : n <= length pool).
  { unfold pool. rewrite slice_length, ranking_length by assumption. lia. }
  assert (Hnd : NoDup pool) by (apply slice_NoDup, ranking_NoDup, Hds).
  destruct (extra_src_pool ds =? 0) eqn:E; simpl.
  - apply Nat.eqb_eq in E. exists pool, (snd (next g)).
    repeat split; try assumption; try apply incl_refl.
    unfold pool. rewrite slice_length, ranking_length by assumption. lia.
  - destruct (@sample_ok pool n (snd (next g)) Hpool)
      as (sel & g' & Hrun & Hlen & Hin & Hnd').
    exists sel, g'. repeat split; auto.
Qed.

End QueryFacts.

(** ** The comparison of the sort on binary64 numbers

    The descending comparison of the sort kernel is a strict weak order on
    the binary64 numbers, NaN included: it is asymmetric, and so is its
    complement transitive. *)

Section FloatOrder.

Lemma SFltb_key (x y : spec_float) :
  sf_is_nan x = false -> sf_is_nan y = false ->
  (SFltb x y = true <-> lex_lt (sf_key x) (sf_key y)).
Proof.
  unfold SFltb, lex_lt.
  destruct x as [sx|sx| |sx mx ex], y as [sy|sy| |sy my ey];
    simpl; intros Hx Hy; try discriminate;
    try (destruct sx); try (destruct sy); simpl;
    try (split; [discriminate|lia]);
    try (split; [reflexivity|lia]);
    try (split; [intros _; lia|reflexivity]).
  - destruct (Z.compare_spec ex ey) as [He|He|He]; simpl.
    + subst. rewrite Pos.compare_cont_spec. simpl.
      destruct (Pos.compare_spec mx my) as [Hm|Hm|Hm]; simpl;
        (split; [try discriminate; intros _|try reflexivity]); lia.
    + split; [discriminate|lia].
    + split; [intros _; lia|reflexivity].
  - destruct (Z.compare_spec ex ey) as [He|He|He]; simpl.
    + subst. rewrite Pos.compare_cont_spec. simpl.
      destruct (Pos.compare_spec mx my) as [Hm|Hm|Hm]; simpl;
        (split; [try discriminate; intros _|try reflexivity]); lia.
    + split; [intros _; lia|reflexivity].
    + split; [discriminate|lia].
Qed.

Lemma SFleb_key (x y : spec_float) :
  sf_is_nan x = false -> sf_is_nan y = false ->
  (SFleb x y = true <-> ~ lex_lt (sf_key y) (sf_key x)).
Proof.
  unfold SFleb, lex_lt.
  destruct x as [sx|sx| |sx mx ex], y as [sy|sy| |sy my ey];
    simpl; intros Hx Hy; try discriminate;
    try (destruct sx); try (destruct sy); simpl;
    try (destruct (Z.compare_spec ex ey) as [He|He|He]; simpl;
         [subst; rewrite Pos.compare_cont_spec; simpl;
          destruct (Pos.compare_spec mx my) as [Hm|Hm|Hm]; simpl| |]);
    first [ split; [discriminate|intros Hn; exfalso; apply Hn; lia]
          | split; [intros _; lia|reflexivity] ].
Qed.

Lemma SFltb_nan_l (x y : spec_float) :
  sf_is_nan x = true -> SFltb x y = false.
Proof. destruct x; try discriminate. reflexivity. Qed.

Lemma SFltb_nan_r (x y : spec_float) :
  sf_is_nan y = true -> SFltb x y = false.
Proof. destruct y; try discriminate. destruct x; reflexivity. Qed.

Lemma is_nan_spec (x : float) : PrimFloat.is_nan x = sf_is_nan (Prim2SF x).
Proof.
  unfold PrimFloat.is_nan. rewrite eqb_spec. unfold SFeqb.
  destruct (Prim2SF x) as [s|s| |s m e]; simpl; try reflexivity.
  - destruct s; reflexivity.
  - destruct s; rewrite Z.compare_refl, Pos.compare_cont_refl; reflexivity.
Qed.

Lemma float_before_spec (a b : float) :
  before a b = sf_before (Prim2SF a) (Prim2SF b).
Proof.
  unfold before, sf_before. simpl.
  rewrite !is_nan_spec, ltb_spec. reflexivity.
Qed.

Lemma sf_before_key (a b : spec_float) :
  sf_before a b = true
  <-> (sf_is_nan a = true /\ sf_is_nan b = false)
      \/ (sf_is_nan a = false /\ sf_is_nan b = false
          /\ lex_lt (sf_key b) (sf_key a)).
Proof.
  unfold sf_before.
  destruct (sf_is_nan a) eqn:Ea, (sf_is_nan b) eqn:Eb; simpl.
  - rewrite SFltb_nan_l by assumption.
    split; [discriminate|intros [[_ Hc]|[Hc _]]; discriminate].
  - split; [intros _; left; split; reflexivity|reflexivity].
  - rewrite SFltb_nan_l by assumption.
    split; [discriminate|intros [[Hc _]|(_ & Hc & _)]; discriminate].
  - rewrite SFltb_key by assumption.
    split; [intros Hlt; right; repeat split; exact Hlt|].
    intros [[Hc _]|(_ & _ & Hlt)]; [discriminate|exact Hlt].
Qed.

(** Of two numbers, the one that does not come strictly before the other in
    the descending order is at most the other. *)
Lemma float_not_before_leb (a b : float) :
  PrimFloat.is_nan a = false -> PrimFloat.is_nan b = false ->
  before a b = false -> (a <=? b)%float = true.
Proof.
  rewrite float_before_spec, !is_nan_spec, leb_spec.
  intros Ha Hb Hab. apply SFleb_key; try assumption.
  intros Hlt. apply not_true_iff_false in Hab. apply Hab.
  apply sf_before_key. right. repeat split; assumption.
Qed.

Lemma float_before_asym (a b : float) :
  before a b = true -> before b a = false.
Proof.
  rewrite !float_before_spec.
  intros Hab. apply not_true_is_false. intros Hba.
  apply sf_before_key in Hab, Hba. unfold lex_lt in *.
  destruct Hab as [[Ha Hb]|(Ha & Hb & Hab)],
           Hba as [[Hb' Ha']|(Hb' & Ha' & Hba)];
    try congruence; lia.
Qed.

Lemma float_before_ntrans (a b c : float) :
  before a b = false -> before b c = false -> before a c = false.
Proof.
  rewrite !float_before_spec.
  intros Hab Hbc. apply not_true_is_false. intros Hac.
  apply not_true_iff_false in Hab, Hbc.
  rewrite sf_before_key in Hab, Hbc, Hac. unfold lex_lt in *.
  destruct (sf_is_nan (Prim2SF a)), (sf_is_nan (Prim2SF b)),
    (sf_is_nan (Prim2SF c));
    destruct Hac as [[? ?]|(? & ? & Hac)]; try discriminate;
    try (exfalso; apply Hab; left; split; reflexivity);
    try (exfalso; apply Hbc; left; split; reflexivity).
  - destruct (sf_key (Prim2SF a)) as [[a1 a2] a3],
             (sf_key (Prim2SF b)) as [[b1 b2] b3],
             (sf_key (Prim2SF c)) as [[c1 c2] c3]; simpl in *.
    assert (Hab' : ~ (b1 < a1 \/ b1 = a1 /\ (b2 < a2 \/ b2 = a2 /\ b3 < a3))%Z)
      by (intros Hc; apply Hab; right; repeat split; exact Hc).
    assert (Hbc' : ~ (c1 < b1 \/ c1 = b1 /\ (c2 < b2 \/ c2 = b2 /\ c3 < b3))%Z)
      by (intros Hc; apply Hbc; right; repeat split; exact Hc).
    lia.
Qed.

End FloatOrder.

(** ** The inverse of a clipped distance on binary64 numbers *)

Section FloatDivision.

Local Open Scope Z_scope.

Lemma digits2_pos_size (p : positive) : digits2_pos p = Pos.size p.
Proof. induction p; simpl; congruence. Qed.

Lemma Zdigits2_nonneg (m : Z) : 0 <= Zdigits2 m.
Proof. destruct m; simpl; lia. Qed.

(** A number below [2^n] has at most [n] binary digits. *)
Lemma Zdigits2_le (m n : Z) : 0 <= n -> 0 <= m < 2 ^ n -> Zdigits2 m <= n.
Proof.
  intros Hn [Hm Hlt]. destruct m as [|p|p]; simpl; [lia| |lia].
  rewrite digits2_pos_size.
  pose proof (Pos.size_le p) as Hs.
  assert (H2 : 2 ^ Zpos (Pos.size p) <= 2 * Zpos p).
  { apply Pos2Z.pos_le_pos in Hs. rewrite Pos2Z.inj_pow in Hs.
    rewrite Pos2Z.inj_xO in Hs. exact Hs. }
  destruct (Z_lt_le_dec n (Zpos (Pos.size p))) as [Hgt|Hle]; [|exact Hle].
  exfalso.
  assert (2 ^ (n + 1) <= 2 ^ Zpos (Pos.size p))
    by (apply Z.pow_le_mono_r; lia).
  rewrite Z.pow_add_r in H by lia. lia.
Qed.

Lemma shr_1_bound (mrs : shr_record) (B : Z) :
  0 <= shr_m mrs <= B -> 0 <= shr_m (shr_1 mrs) <= B.
Proof.
  destruct mrs as [m r s]. simpl.
  destruct m as [|[p|p|]|[p|p|]]; simpl; lia.
Qed.

Lemma iter_shr_1_bound (p : positive) (B : Z) :
  forall mrs, 0 <= shr_m mrs <= B -> 0 <= shr_m (iter_pos shr_1 p mrs) <= B.
Proof.
  induction p as [p IH|p IH|]; intros mrs Hm; simpl.
  - apply IH, IH, shr_1_bound, Hm.
  - apply IH, IH, Hm.
  - apply shr_1_bound, Hm.
Qed.

Lemma shr_record_of_loc_m (m : Z) (l : location) :
  shr_m (shr_record_of_loc m l) = m.
Proof. destruct l as [|[| |]]; reflexivity. Qed.

(** One step of [shr_fexp]: the mantissa does not grow, and the exponent is
    the larger of the given one and the exponent of the format. *)
Lemma shr_fexp_bound (m e : Z) (l : location) (n E : Z) :
  0 <= n -> 0 <= m < 2 ^ n -> e <= E -> n + e - prec <= E -> emin <= E ->
  let '(mrs, e') := shr_fexp prec emax m e l in
  0 <= shr_m mrs <= m /\ e' <= E.
Proof.
  intros Hn Hm He Hf Hmin. unfold shr_fexp, shr.
  pose proof (Zdigits2_le Hn Hm) as Hd.
  assert (Hfe : fexp prec emax (Zdigits2 m + e) <= E)
    by (unfold fexp; lia).
  destruct (fexp prec emax (Zdigits2 m + e) - e) as [|p|p] eqn:En.
  - rewrite shr_record_of_loc_m. lia.
  - split; [|lia].
    apply iter_shr_1_bound. rewrite shr_record_of_loc_m. lia.
  - rewrite shr_record_of_loc_m. lia.
Qed.

Lemma round_nearest_even_bound (m : Z) (l : location) :
  0 <= m -> 0 <= round_nearest_even m l <= m + 1.
Proof.
  intros Hm. destruct l as [|[| |]]; simpl; try lia.
  destruct (Z.even m); lia.
Qed.

(** Rounding a mantissa that is not negative and an exponent far below the
    largest one gives zero or a finite number of the given sign. *)
Lemma binary_round_aux_finite (s : bool) (m e : Z) (l : location) (n : Z) :
  0 <= n -> 0 <= m < 2 ^ n -> e <= 100 -> n <= 200 ->
  match binary_round_aux prec emax s m e l with
  | S754_zero s' => s' = s
  | S754_finite s' _ _ => s' = s
  | _ => False
  end.
Proof.
  intros Hn Hm He Hn'. unfold binary_round_aux.
  assert (Hmin : forall E, 0 <= E -> emin <= E)
    by (intros E HE; unfold SpecFloat.emin, prec, emax; lia).
  pose proof (@shr_fexp_bound m e l n 300 Hn Hm ltac:(lia)
                ltac:(unfold prec; lia) (Hmin 300 ltac:(lia))) as H1.
  destruct (shr_fexp prec emax m e l) as [mrs' e'].
  destruct H1 as [Hm' He'].
  pose proof (round_nearest_even_bound (loc_of_shr_record mrs') (proj1 Hm'))
    as Hr.
  assert (Hp : 2 ^ n + 1 <= 2 ^ (n + 1))
    by (rewrite Z.pow_add_r by lia;
        pose proof (Z.pow_pos_nonneg 2 n ltac:(lia) Hn); lia).
  pose proof (@shr_fexp_bound
                (round_nearest_even (shr_m mrs') (loc_of_shr_record mrs'))
                e' loc_Exact (n + 1) 500 ltac:(lia) ltac:(lia) ltac:(lia)
                ltac:(unfold prec; lia) (Hmin 500 ltac:(lia)))
    as H2.
  destruct (shr_fexp prec emax _ e' loc_Exact) as [mrs'' e''].
  destruct H2 as [Hm'' He''].
  destruct (shr_m mrs'') as [|p|p]; [reflexivity| |lia].
  replace (e'' <=? emax - prec) with true
    by (symmetry; apply Z.leb_le; unfold emax, prec; lia).
  reflexivity.
Qed.

Lemma bounded_digits (m : positive) (e : Z) :
  bounded prec emax m e = true -> 1 <= Zdigits2 (Zpos m) <= 53.
Proof.
  unfold bounded, canonical_mantissa, fexp, SpecFloat.emin, prec, emax.
  intros Hb. apply andb_true_iff in Hb. destruct Hb as [Hc _].
  apply Z.eqb_eq in Hc. simpl. lia.
Qed.

(** The quotient of one by a positive number whose exponent is at least
    that of 1e-10 is zero or a positive finite number. *)
Lemma SFdiv_one_finite (m : positive) (e : Z) :
  bounded prec emax m e = true -> -86 <= e ->
  match SFdiv prec emax (S754_finite false 4503599627370496 (-52))
          (S754_finite false m e) with
  | S754_zero s' => s' = false
  | S754_finite s' _ _ => s' = false
  | _ => False
  end.
Proof.
  intros Hb He. pose proof (bounded_digits _ _ Hb) as Hd.
  unfold SFdiv, SFdiv_core_binary.
  change (Zdigits2 4503599627370496) with 53.
  set (d2 := Zdigits2 (Zpos m)) in *.
  set (e' := Z.min (fexp prec emax (53 + -52 - (d2 + e))) (-52 - e)).
  assert (He' : -52 - d2 - e <= e' <= -52 - e)
    by (unfold e', fexp, SpecFloat.emin, prec, emax; lia).
  set (s := -52 - e - e').
  set (m' := match s with
             | 0 => 4503599627370496
             | Zpos _ => Z.shiftl 4503599627370496 s
             | Zneg _ => 0
             end).
  assert (Hm' : 0 <= m' < 2 ^ 106).
  { assert (Hs : 0 <= s <= 53) by (unfold s; lia).
    unfold m'. destruct s as [|p|p] eqn:Es; [lia| |lia].
    rewrite Z.shiftl_mul_pow2 by lia.
    change 4503599627370496 with (2 ^ 52).
    rewrite <- Z.pow_add_r by lia.
    split; [apply Z.pow_nonneg; lia|].
    apply Z.pow_lt_mono_r; lia. }
  pose proof (Z_div_mod m' (Zpos m) ltac:(lia)) as Hdiv.
  destruct (Z.div_eucl m' (Zpos m)) as [q r].
  destruct Hdiv as [Hq Hr].
  assert (Hqb : 0 <= q < 2 ^ 106) by nia.
  apply (@binary_round_aux_finite (xorb false false) q e'
           (new_location (Zpos m) r) 106); lia.
Qed.

Local Close Scope Z_scope.

Lemma is_finite_spec (x : float) :
  PrimFloat.is_finite x
  = match Prim2SF x with
    | S754_zero _ | S754_finite _ _ _ => true
    | _ => false
    end.
Proof.
  unfold PrimFloat.is_finite, PrimFloat.is_nan, PrimFloat.is_infinity.
  rewrite !eqb_spec, abs_spec.
  change (Prim2SF infinity) with (S754_infinity false).
  unfold SFeqb.
  destruct (Prim2SF x) as [s|s| |s m e]; simpl; try reflexivity.
  - destruct s; reflexivity.
  - rewrite Z.compare_refl, Pos.compare_cont_refl. destruct s; reflexivity.
Qed.

(** What lies at or above the clipping bound: a positive number whose
    exponent is at least that of the bound, or the positive infinity. *)
Lemma float_above_eps (c : float) :
  ((f_eps : float) <=? c)%float = true ->
  Prim2SF c = S754_infinity false
  \/ exists m e, Prim2SF c = S754_finite false m e /\ (-86 <= e)%Z.
Proof.
  rewrite leb_spec.
  change (Prim2SF f_eps) with (S754_finite false 7737125245533627 (-86)).
  unfold SFleb, SFcompare.
  destruct (Prim2SF c) as [s|s| |s m e]; try discriminate.
  - destruct s; [discriminate|]. intros _. left. reflexivity.
  - destruct s; [discriminate|]. intros Hle. right. exists m, e.
    split; [reflexivity|].
    revert Hle.
    destruct (Z.compare_spec (-86) e) as [He|He|He];
      [intros _; lia|intros _; lia|discriminate].
Qed.

(** The inverse of a number at or above the clipping bound is finite and
    not negative. *)
Lemma float_div_one_finite (c : float) :
  ((f_eps : float) <=? c)%float = true ->
  PrimFloat.is_finite (1 / c) = true /\ (0 <=? 1 / c)%float = true.
Proof.
  intros Hle. rewrite is_finite_spec, leb_spec, div_spec.
  change (Prim2SF 0) with (S754_zero false).
  change (Prim2SF 1) with (S754_finite false 4503599627370496 (-52)).
  unfold SF64div.
  pose proof (Prim2SF_valid c) as Hvalid.
  destruct (float_above_eps Hle) as [Hc|(m & e & Hc & He)];
    rewrite Hc in *.
  - split; reflexivity.
  - pose proof (SFdiv_one_finite m Hvalid He) as Hdiv.
    destruct (SFdiv prec emax _ _) as [s|s| |s m' e'];
      try contradiction; subst s; split; reflexivity.
Qed.

Lemma float_div_one_nan (d : float) :
  PrimFloat.is_nan d = true -> PrimFloat.is_nan (1 / d) = true.
Proof.
  rewrite !is_nan_spec, div_spec.
  change (Prim2SF 1) with (S754_finite false 4503599627370496 (-52)).
  destruct (Prim2SF d); try discriminate. reflexivity.
Qed.

(** A number that is not below the clipping bound is at or above it. *)
Lemma float_not_below_eps (d : float) :
  PrimFloat.is_nan d = false ->
  (d <? f_eps)%float = false -> ((f_eps : float) <=? d)%float = true.
Proof.
  rewrite is_nan_spec, ltb_spec, leb_spec. intros Hn Hlt.
  assert (He : sf_is_nan (Prim2SF (f_eps : float)) = false)
    by (vm_compute; reflexivity).
  apply SFleb_key; [exact He|exact Hn|].
  intros Hc. apply (SFltb_key _ _ Hn He) in Hc.
  rewrite Hc in Hlt. discriminate Hlt.
Qed.

End FloatDivision.

(** ** The ranking that the constructor stores *)

Section RankingFacts.

Import ImageBasedDataset.

Context {F : Type} `{Scalar F} {NK : NormKernel F} {SK : SortKernel F}.
Variable Mat : Type.
Variable affine_inverse : Mat -> Mat.
Variable translation : Mat -> vec3 F.

Local Abbreviation Base := (@base F Mat).

Hypothesis before_asym :
  forall x y : F, before x y = true -> before y x = false.
Hypothesis before_ntrans :
  forall x y z : F,
    before x y = false -> before y z = false -> before x z = false.

(** A lane of the sorted tensors is the sorted lane. *)
Lemma sort_dim1_lane (x : tensor F) (t l : nat) :
  lane (snd (sort_dim1 before x)) t l
  = snd (sort_descending before (lane x t l))
  /\ lane (fst (sort_dim1 before x)) t l
     = fst (sort_descending before (lane x t l)).
Proof.
  assert (Hlen : length (lane x t l) = dim x 1)
    by (unfold lane; rewrite length_map, length_seq; reflexivity).
  unfold lane at 1 3. unfold dim. simpl shape. simpl get.
  fold (dim x 1). rewrite <- Hlen. split.
  - rewrite <- (sort_indices_length before (lane x t l)).
    apply (map_nth_seq _ (fun _ => 0)).
  - rewrite <- (sort_values_length before (lane x t l)).
    apply (map_nth_seq _ (fun r => get x [t; r; l])).
Qed.

(** The value at a rank is the input's value at the position at that rank. *)
Lemma sort_dim1_lookup (x : tensor F) (t l r : nat) :
  r < dim x 1 ->
  get (snd (sort_dim1 before x)) [t; r; l] < dim x 1
  /\ get (fst (sort_dim1 before x)) [t; r; l]
     = get x [t; get (snd (sort_dim1 before x)) [t; r; l]; l].
Proof.
  intros Hr. simpl.
  assert (Hlen : length (lane x t l) = dim x 1)
    by (unfold lane; rewrite length_map, length_seq; reflexivity).
  set (d := (0, get x [t; r; l])).
  assert (Hv : nth r (map snd (sort_pairs before (lane x t l)))
                 (get x [t; r; l])
               = snd (nth r (sort_pairs before (lane x t l)) d))
    by (apply (map_nth snd _ d)).
  assert (Hi : nth r (map fst (sort_pairs before (lane x t l))) 0
               = fst (nth r (sort_pairs before (lane x t l)) d))
    by (apply (map_nth fst _ d)).
  rewrite Hv, Hi.
  pose proof (@sort_pairs_lookup F SK before (lane x t l) r d) as Hlook.
  rewrite Hlen in Hlook. specialize (Hlook Hr).
  unfold lane in Hlook at 1.
  rewrite nth_error_map, nth_error_seq in Hlook.
  destruct (fst (nth r (sort_pairs before (lane x t l)) d) <? dim x 1)
    eqn:E; simpl in Hlook; [|discriminate].
  apply Nat.ltb_lt in E. split; [exact E|].
  symmetry. congruence.
Qed.

Lemma sort_dim1_ranked (x : tensor F) (t l p q : nat) :
  p < q -> q < dim x 1 ->
  let sims := fst (sort_dim1 before x) in
  before (get sims [t; q; l]) (get sims [t; p; l]) = false.
Proof.
  intros Hpq Hq. simpl.
  assert (Hlen : length (lane x t l) = dim x 1)
    by (unfold lane; rewrite length_map, length_seq; reflexivity).
  set (dv := get x [t; q; l]).
  rewrite (nth_indep _ (get x [t; p; l]) dv)
    by (rewrite length_map, sort_pairs_length; lia).
  apply (@sort_descending_ranked F SK before before_asym before_ntrans
           (lane x t l) p q dv Hpq).
  lia.
Qed.

(** With a kernel that keeps equal entries in input order, ties ascend by
    candidate. *)
Lemma sort_dim1_stable (x : tensor F) (t l p q : nat) :
  (forall lane i j, tie lane i j = (i <? j)) ->
  p < q -> q < dim x 1 ->
  let sims := fst (sort_dim1 before x) in
  let inds := snd (sort_dim1 before x) in
  before (get sims [t; p; l]) (get sims [t; q; l]) = false ->
  get inds [t; p; l] < get inds [t; q; l].
Proof.
  intros Hstable Hpq Hq. simpl.
  assert (Hlen : length (lane x t l) = dim x 1)
    by (unfold lane; rewrite length_map, length_seq; reflexivity).
  set (dv := get x [t; q; l]).
  rewrite (nth_indep _ (get x [t; p; l]) dv)
    by (rewrite length_map, sort_pairs_length; lia).
  apply (@sort_stable_ranked F SK before before_asym before_ntrans Hstable
           (lane x t l) p q dv 0 Hpq).
  lia.
Qed.

(** The stored ranking lists every candidate once, and the stored
    similarity of a rank is the similarity of the candidate at that rank. *)
Lemma load_source_indices_lookup (by_time : bool) (b : Base)
    (exts : tensor Mat) (sims : tensor F) (inds : tensor nat) :
  load_source_indices affine_inverse translation by_time b exts
  = Ok (sims, inds) ->
  exists tar unsorted,
    target_c2ws by_time b = Ok tar
    /\ similarities (tmap translation (tmap affine_inverse exts))
         (tmap translation tar) = Ok unsorted
    /\ shape sims = shape unsorted
    /\ shape inds = shape unsorted
    /\ forall t l,
        Permutation (lane inds t l) (seq 0 (dim inds 1))
        /\ forall r, r < dim inds 1 ->
                     get sims [t; r; l]
                     = get unsorted [t; get inds [t; r; l]; l].
Proof.
  unfold load_source_indices. intros Hload.
  destruct (target_c2ws by_time b) as [tar|] eqn:Etar; [|discriminate].
  simpl in Hload.
  destruct (similarities (tmap translation (tmap affine_inverse exts))
              (tmap translation tar)) as [unsorted|] eqn:Esim;
    [|discriminate].
  simpl in Hload.
  assert (Hpair : sort_dim1 before unsorted = (sims, inds)) by congruence.
  assert (Hsims : sims = fst (sort_dim1 before unsorted))
    by (rewrite Hpair; reflexivity).
  assert (Hinds : inds = snd (sort_dim1 before unsorted))
    by (rewrite Hpair; reflexivity).
  clear Hload Hpair. subst sims inds.
  exists tar, unsorted.
  split; [reflexivity|]. split; [exact Esim|].
  do 2 (split; [reflexivity|]).
  intros t l. split.
  - rewrite (proj1 (sort_dim1_lane unsorted t l)).
    replace (dim (snd (sort_dim1 before unsorted)) 1)
      with (length (lane unsorted t l))
      by (unfold lane; rewrite length_map, length_seq; reflexivity).
    apply sort_indices_perm.
  - intros r Hr. apply sort_dim1_lookup. exact Hr.
Qed.

Lemma load_source_indices_ranked (by_time : bool) (b : Base)
    (exts : tensor Mat) (sims : tensor F) (inds : tensor nat) :
  load_source_indices affine_inverse translation by_time b exts
  = Ok (sims, inds) ->
  forall t l p q,
    p < q -> q < dim inds 1 ->
    before (get sims [t; q; l]) (get sims [t; p; l]) = false.
Proof.
  unfold load_source_indices. intros Hload t l p q Hpq Hq.
  inv_result. apply sort_dim1_ranked; assumption.
Qed.

Lemma load_source_indices_stable (by_time : bool) (b : Base)
    (exts : tensor Mat) (sims : tensor F) (inds : tensor nat) :
  (forall lane i j, tie lane i j = (i <? j)) ->
  load_source_indices affine_inverse translation by_time b exts
  = Ok (sims, inds) ->
  forall t l p q,
    p < q -> q < dim inds 1 ->
    before (get sims [t; p; l]) (get sims [t; q; l]) = false ->
    get inds [t; p; l] < get inds [t; q; l].
Proof.
  unfold load_source_indices. intros Hstable Hload t l p q Hpq Hq.
  inv_result. apply sort_dim1_stable; assumption.
Qed.

End RankingFacts.

(** ** [get_metadata] in terms of the selection *)

Section MetadataFacts.

Import ImageBasedDataset.

Context {F : Type} `{Scalar F} {NK : NormKernel F} {SK : SortKernel F}.
Variable Mat : Type.

Local Abbreviation Dataset := (@dataset F Mat).

Lemma query_axes_valid (ds : Dataset) (index : nat) :
  camera_ok (parent ds) index = true ->
  fst (query_axes ds index) < num_targets ds
  /\ snd (query_axes ds index) < num_extra ds.
Proof.
  unfold camera_ok, query_axes, selection_axes, num_targets, num_extra.
  intros Hok. apply andb_prop in Hok. destruct Hok as [Hv Hl].
  apply Nat.ltb_lt in Hv, Hl.
  destruct (closest_using_t ds); simpl; split; assumption.
Qed.

Lemma index_pairs_ok {A} (x : tensor A) (inds : list nat) (l d0 d1 : nat) :
  shape x = [d0; d1] -> Forall (fun i => i < d0) inds -> l < d1 ->
  index_pairs x inds l = Ok (map (fun s => get x [s; l]) inds).
Proof.
  intros Hs Hin Hl. unfold index_pairs. rewrite Hs.
  apply in_range_spec in Hin. apply Nat.ltb_lt in Hl.
  rewrite Hin, Hl. reflexivity.
Qed.

(** Once the selection has succeeded with one candidate at least, the
    rest of [get_metadata] does. A selection without candidates is refused
    as an index when it was sampled, and by [get_sources] otherwise. An
    exception of the selection is the exception of [get_metadata]. *)
Lemma get_metadata_resolved (ds : Dataset) (index n : nat) (g : rng) :
  coherent ds ->
  camera_ok (parent ds) index = true ->
  let t := fst (query_axes ds index) in
  let e := snd (query_axes ds index) in
  match select_sources ds t e n g with
  | Ok (sel, g') =>
      incl sel (ranking ds t e) ->
      match sel with
      | [] =>
          get_metadata ds (Resolved index n) g
          = Raise (if extra_src_pool ds =? 0 then ValueError
                   else IndexError)
      | _ :: _ =>
          exists m, get_metadata ds (Resolved index n) g = Ok (m, g')
                    /\ m_selection m = sel
      end
  | Raise err => get_metadata ds (Resolved index n) g = Raise err
  end.
Proof.
  intros Hds Hok t e.
  destruct (query_axes_valid ds index Hok) as [Ht He].
  fold t in Ht. fold e in He.
  unfold get_metadata, resolve_query, bind, ret. simpl.
  unfold t, e, query_axes.
  destruct (get_cameras (parent ds) index) as [v l] eqn:Ecam. simpl.
  destruct (selection_axes (closest_using_t ds) v l) as [t' e'] eqn:Eax.
  simpl.
  assert (Ht' : t' = t)
    by (unfold t, query_axes; rewrite Ecam; simpl; rewrite Eax; reflexivity).
  assert (He' : e' = e)
    by (unfold e, query_axes; rewrite Ecam; simpl; rewrite Eax; reflexivity).
  subst t' e'.
  destruct (select_sources ds t e n g) as [[sel g']|err]; [|reflexivity].
  intros Hincl.
  assert (Hbound : Forall (fun i => i < num_candidates ds) sel).
  { apply Forall_forall. intros i Hi.
    apply (ranking_bound t e i Hds), Hincl, Hi. }
  destruct Hds as (_ & Hexts & Hixts).
  unfold lift.
  destruct sel as [|c sel].
  - cbn [as_index]. destruct (extra_src_pool ds =? 0); simpl;
      [|reflexivity].
    unfold index_pairs. rewrite Hexts, Hixts.
    apply Nat.ltb_lt in He. rewrite He. reflexivity.
  - cbn [as_index].
    rewrite (index_pairs_ok _ Hexts Hbound He).
    rewrite (index_pairs_ok _ Hixts Hbound He).
    unfold gather.
    replace (in_range (length (src_view_inds ds)) (c :: sel)) with true
      by (symmetry; apply in_range_spec; exact Hbound).
    eexists. split; reflexivity.
Qed.

(** A query behaves as the resolved query of its index and count, run from
    the generator state that the draw of the count has left. *)
Lemma get_metadata_after_resolve (ds : Dataset) (q : query) (index n : nat)
    (g g1 : rng) :
  resolve_query ds q g = Ok ((index, n), g1) ->
  get_metadata ds q g = get_metadata ds (Resolved index n) g1.
Proof.
  intros Hq. unfold get_metadata, bind at 1. rewrite Hq. reflexivity.
Qed.

Lemma remove_gt_le_1 (p u : Q) : remove_gt_of p u <= 1.
Proof. unfold remove_gt_of. destruct (negb (Qle_bool u p)); lia. Qed.

End MetadataFacts.

Section SelectionFacts.

Import ImageBasedDataset.

Context {F : Type} `{Scalar F} {NK : NormKernel F} {SK : SortKernel F}.
Variable Mat : Type.
Variable affine_padding : Mat -> Mat.
Variable affine_inverse : Mat -> Mat.
Variable translation : Mat -> vec3 F.

Local Abbreviation Base := (@base F Mat).
Local Abbreviation Args := (@args F).
Local Abbreviation Dataset := (@dataset F Mat).

(** A query for one source at least whose count fits behind the skipped
    entries of the ranking gets that many distinct candidates, from the
    window of the stored ranking that the count and the pool span. *)
Lemma get_metadata_selection (a : Args) (b : Base) (ds : Dataset)
    (q : query) (index n : nat) (g0 g : rng) :
  base_wf b = true ->
  init affine_padding affine_inverse translation a b = Ok ds ->
  resolve_query ds q g0 = Ok ((index, n), g) ->
  camera_ok b index = true ->
  1 <= n ->
  remove_gt_of (append_gt_prob ds) (peek_random g) + n
  <= num_candidates ds ->
  exists m g',
    get_metadata ds q g0 = Ok (m, g')
    /\ length (m_selection m) = n
    /\ NoDup (m_selection m)
    /\ Forall (fun i => i < num_candidates ds) (m_selection m)
    /\ incl (m_selection m)
         (slice (remove_gt_of (append_gt_prob ds) (peek_random g))
            (remove_gt_of (append_gt_prob ds) (peek_random g) + n
             + extra_src_pool ds)
            (ranking ds (fst (query_axes ds index))
               (snd (query_axes ds index)))).
Proof.
  intros Hwf Hinit Hq Hcam Hone Hn.
  rewrite (get_metadata_after_resolve ds q g0 Hq).
  pose proof (init_coherent _ _ _ _ _ Hwf Hinit) as Hds.
  destruct (init_fields _ _ _ _ _ Hinit) as (Hparent & _).
  rewrite <- Hparent in Hcam.
  destruct (query_axes_valid ds index Hcam) as [Ht He].
  destruct (select_sources_ok n g Hds Ht He Hn)
    as (sel & g' & Hsel & Hlen & Hnd & Hincl).
  pose proof (get_metadata_resolved index n g Hds Hcam) as Hrun.
  simpl in Hrun. rewrite Hsel in Hrun.
  assert (Hranked : incl sel (ranking ds (fst (query_axes ds index))
                                (snd (query_axes ds index))))
    by (intros c Hc; apply Hincl in Hc; eapply slice_incl, Hc).
  specialize (Hrun Hranked).
  destruct sel as [|c sel]; [simpl in Hlen; lia|].
  destruct Hrun as (m & Hm & Hms).
  exists m, g'. rewrite Hms. repeat split; try assumption.
  apply Forall_forall. intros i Hi.
  eapply ranking_bound; [exact Hds|]. apply Hranked, Hi.
Qed.

(** A pool that the query cannot fill is met by the sampling. *)
Lemma get_metadata_small_pool (a : Args) (b : Base) (ds : Dataset)
    (q : query) (index n : nat) (g0 g : rng) :
  base_wf b = true ->
  init affine_padding affine_inverse translation a b = Ok ds ->
  resolve_query ds q g0 = Ok ((index, n), g) ->
  camera_ok b index = true ->
  0 < extra_src_pool ds ->
  num_candidates ds - remove_gt_of (append_gt_prob ds) (peek_random g) < n ->
  get_metadata ds q g0 = Raise ValueError.
Proof.
  intros Hwf Hinit Hq Hcam Hpool Hn.
  rewrite (get_metadata_after_resolve ds q g0 Hq).
  pose proof (init_coherent _ _ _ _ _ Hwf Hinit) as Hds.
  destruct (init_fields _ _ _ _ _ Hinit) as (Hparent & _).
  rewrite <- Hparent in Hcam.
  destruct (query_axes_valid ds index Hcam) as [Ht He].
  pose proof (get_metadata_resolved index n g Hds Hcam) as Hrun.
  simpl in Hrun.
  rewrite (select_sources_unfold n g Hds Ht He) in Hrun.
  replace (negb (extra_src_pool ds =? 0)) with true in Hrun
    by (symmetry; apply negb_true_iff, Nat.eqb_neq; lia).
  rewrite sample_raises in Hrun; [exact Hrun|].
  rewrite slice_length, ranking_length by assumption. lia.
Qed.

(** The constructor does not look at the sampling policy. *)
Lemma init_ignores_sampling (a : Args) (b : Base) (counts : list nat)
    (probs : list float) (gt_prob : Q) (extra : nat) :
  is_ok (init affine_padding affine_inverse translation
           (set_sampling a counts probs gt_prob extra) b)
  = is_ok (init affine_padding affine_inverse translation a b).
Proof.
  unfold init. simpl.
  repeat match goal with
    | |- context [if ?c then _ else _] => destruct c; simpl; try reflexivity
    | |- context [rbind ?r _] => destruct r as [[[? ?] ?]|?]; simpl;
                                   try reflexivity
    | |- context [rbind ?r _] => destruct r as [[? ?]|?]; simpl;
                                   try reflexivity
    end.
Qed.

(** Without a widened pool the selection is the ranking behind the skipped
    entries, in rank order. *)
Lemma select_sources_in_order (ds : Dataset) (t e n : nat) (g : rng) :
  coherent ds -> t < num_targets ds -> e < num_extra ds ->
  extra_src_pool ds = 0 ->
  let skip := remove_gt_of (append_gt_prob ds) (peek_random g) in
  select_sources ds t e n g
  = Ok (slice skip (skip + n) (ranking ds t e), snd (next g)).
Proof.
  intros Hds Ht He Hpool. simpl.
  rewrite select_sources_unfold by assumption.
  rewrite Hpool, Nat.add_0_r. reflexivity.
Qed.

(** [bisect_right] answers a position between its two bounds. *)
Lemma bisect_range (a : list float) (x : float) (fuel : nat) :
  forall lo hi, lo <= hi -> lo <= bisect fuel a x lo hi <= hi.
Proof.
  induction fuel as [|fuel IH]; intros lo hi Hle; cbn [bisect]; [lia|].
  destruct (lo <? hi) eqn:E; [|lia].
  apply Nat.ltb_lt in E.
  assert (Hmid : lo <= (lo + hi) / 2 < hi).
  { split.
    - apply Nat.div_le_lower_bound; lia.
    - apply Nat.Div0.div_lt_upper_bound; lia. }
  destruct (x <? nth ((lo + hi) / 2) a 0)%float.
  - specialize (IH lo ((lo + hi) / 2)). lia.
  - specialize (IH (S ((lo + hi) / 2)) hi). lia.
Qed.

Lemma accumulate_length (w : list float) :
  length (accumulate w) = length w.
Proof.
  assert (Hfrom : forall r acc, length (accumulate_from acc r) = length r)
    by (induction r as [|x r IH]; intros acc; simpl;
        [reflexivity|rewrite IH; reflexivity]).
  destruct w as [|x r]; simpl; [reflexivity|]. rewrite Hfrom. reflexivity.
Qed.

(** [random.choices] on a population and its weights: the total is the last
    running sum, as the float [last + 0.0]. *)
Lemma choices_outcome (population : list nat) (weights : list float)
    (g : rng) :
  match choices population weights g with
  | Ok (v, g') =>
      In v population /\ g' = snd (next g)
      /\ length weights = length population
      /\ exists last, last_item (accumulate weights) = Ok last
                      /\ (last + 0 <=? 0)%float = false
                      /\ PrimFloat.is_finite (last + 0)%float = true
  | Raise e =>
      (e = ValueError
       /\ (length weights <> length population
           \/ exists last, last_item (accumulate weights) = Ok last
                           /\ ((last + 0 <=? 0)%float = true
                               \/ PrimFloat.is_finite (last + 0)%float
                                  = false)))
      \/ (e = IndexError /\ population = [] /\ weights = [])
  end.
Proof.
  unfold choices, bind, lift, raise, random_float.
  rewrite accumulate_length.
  destruct (length weights =? length population) eqn:El; simpl.
  - apply Nat.eqb_eq in El.
    destruct (last_item (accumulate weights)) as [total|e] eqn:Elast.
    + destruct (total + 0 <=? 0)%float eqn:Et.
      * left. split; [reflexivity|]. right. exists total.
        split; [reflexivity|]. left. exact Et.
      * destruct (PrimFloat.is_finite (total + 0)%float) eqn:Ef; simpl.
        2:{ left. split; [reflexivity|]. right. exists total.
            split; [reflexivity|]. right. exact Ef. }
        assert (Hpop : population <> []).
        { intros Hp. subst population. destruct weights; [|discriminate El].
          discriminate Elast. }
        set (u := (peek_float g * (total + 0))%float).
        pose proof (@bisect_range (accumulate weights) u (length population)
                      0 (length population - 1) ltac:(lia)) as Hb.
        assert (Hlen : 0 < length population)
          by (destruct population; [contradiction|simpl; lia]).
        unfold item.
        destruct (nth_error population
                    (bisect (length population) (accumulate weights) u 0
                       (length population - 1))) as [v|] eqn:Ev.
        -- split; [eapply nth_error_In, Ev|]. split; [reflexivity|].
           split; [exact El|]. exists total. split; [reflexivity|].
           split; [exact Et|exact Ef].
        -- apply nth_error_None in Ev. lia.
    + right. unfold last_item in Elast.
      destruct (rev (accumulate weights)) as [|x r] eqn:Er;
        [|discriminate Elast].
      inversion Elast. subst e.
      assert (Hw : length weights = 0).
      { rewrite <- accumulate_length, <- length_rev, Er. reflexivity. }
      split; [reflexivity|]. split.
      * destruct population; [reflexivity|]. simpl in El. lia.
      * destruct weights; [reflexivity|]. discriminate Hw.
  - apply Nat.eqb_neq in El. left. split; [reflexivity|]. left. exact El.
Qed.

(** One count and one weight: the draw is that count exactly when the
    weight, as the total [w + 0.0], is positive and finite. *)
Lemma choices_single (v : nat) (w : float) (g : rng) :
  choices [v] [w] g
  = if ((w + 0 <=? 0)%float || negb (PrimFloat.is_finite (w + 0)%float))
    then Raise ValueError
    else Ok (v, snd (next g)).
Proof.
  unfold choices, bind, lift, raise, random_float. simpl.
  destruct (w + 0 <=? 0)%float; [reflexivity|].
  destruct (PrimFloat.is_finite (w + 0)%float); reflexivity.
Qed.

Lemma choices_single_value (v : nat) (ws : list float) (g g' : rng)
    (k : nat) :
  choices [v] ws g = Ok (k, g') -> k = v.
Proof.
  unfold choices, bind, lift, raise. simpl.
  destruct (negb (length (accumulate ws) =? 1)); [discriminate|].
  destruct (last_item (accumulate ws)) as [total|]; [|discriminate].
  destruct (total + 0 <=? 0)%float; [discriminate|].
  destruct (negb (PrimFloat.is_finite (total + 0)%float)); [discriminate|].
  unfold random_float. simpl. intros Hk. inversion Hk. reflexivity.
Qed.

End SelectionFacts.

Import ImageBasedDataset.

(** ** The box of the object prior *)

Lemma ceil32_bounds (v : Z) :
  (v <= ceil_div v 32 * 32 < v + 32)%Z.
Proof. unfold ceil_div. Z.div_mod_to_equations. lia. Qed.

Lemma floor32_bounds (v : Z) :
  (v - 32 < floor_div v 32 * 32 <= v)%Z.
Proof. unfold floor_div. Z.div_mod_to_equations. lia. Qed.

Lemma np_clip_bounds (v lo hi : Z) :
  (lo <= hi)%Z -> (lo <= np_clip v lo hi <= hi)%Z.
Proof. unfold np_clip. lia. Qed.

(** ** The viewer over the real numbers *)

Lemma Rltb_true (a b : R) : Rltb a b = true <-> (a < b)%R.
Proof.
  unfold Rltb. destruct (Rlt_dec a b); split; intros; try assumption;
    try reflexivity; try discriminate; contradiction.
Qed.

Lemma Rltb_false (a b : R) : Rltb a b = false <-> (b <= a)%R.
Proof.
  unfold Rltb. destruct (Rlt_dec a b); split; intros; try discriminate;
    try reflexivity; lra.
Qed.

Lemma real_clip_eps (x : R) :
  (1e-10 <= clip x f_eps)%R /\ (clip x f_eps = Rmax x 1e-10)%R.
Proof.
  unfold clip. simpl.
  destruct (Rltb x 1e-10) eqn:E.
  - apply Rltb_true in E. split; [lra|]. rewrite Rmax_right; lra.
  - apply Rltb_false in E. split; [lra|]. rewrite Rmax_left; lra.
Qed.





(** ** [get_viewer_batch] in terms of the sorted similarities *)

Section ViewerFacts.

Context {F : Type} `{Scalar F} {NK : NormKernel F} {SK : SortKernel F}.
Variable Mat : Type.
Variable affine_inverse : Mat -> Mat.
Variable translation : Mat -> vec3 F.

Local Abbreviation Dataset := (@dataset F Mat).

Lemma viewer_all_similarities_length (ds : Dataset) (i : viewer_input Mat) :
  length (viewer_all_similarities affine_inverse translation ds i) = num_candidates ds.
Proof.
  unfold viewer_all_similarities, viewer_similarities.
  rewrite !length_map, length_seq. reflexivity.
Qed.

Lemma viewer_all_similarities_nth (ds : Dataset) (i : viewer_input Mat)
    (c : nat) (d : F) :
  c < num_candidates ds ->
  nth c (viewer_all_similarities affine_inverse translation ds i) d
  = f_div f_one
      (clip (norm (vsub (translation
                           (affine_inverse
                              (get (src_exts ds) [c; viewer_extra ds i])))
                     (translation (affine_inverse (i_w2c i))))) f_eps).
Proof.
  intros Hc. unfold viewer_all_similarities, viewer_similarities.
  rewrite map_map.
  apply nth_error_nth. rewrite nth_error_map_seq by exact Hc.
  reflexivity.
Qed.

Lemma firstn_sorted_bound (sims : list F) (k : nat) :
  Forall (fun j => j < length sims)
    (firstn k (snd (sort_descending before sims))).
Proof.
  apply Forall_forall. intros j Hj.
  apply (@sort_indices_bound F SK before sims).
  rewrite <- (firstn_skipn k (snd (sort_descending before sims))).
  apply in_or_app. left. exact Hj.
Qed.

(** What the viewer does up to [get_sources]: the first [k] entries of the
    sorted similarities are the selection. *)
Lemma get_viewer_batch_unfold (ds : Dataset) (i : viewer_input Mat)
    (k : nat) (g : rng) :
  coherent ds ->
  barebone ds = false ->
  last_item (n_srcs_list ds) = Ok k ->
  viewer_extra ds i < num_extra ds ->
  let sims := viewer_all_similarities affine_inverse translation ds i in
  let sel := firstn k (snd (sort_descending before sims)) in
  match sel with
  | [] =>
      get_viewer_batch affine_inverse translation ds i g = Raise ValueError
  | _ :: _ =>
      exists b,
        get_viewer_batch affine_inverse translation ds i g = Ok (Batch b, g)
        /\ b_selection b = sel
        /\ b_sims b = firstn k (fst (sort_descending before sims))
        /\ b_t_inds b = viewer_extra ds i
        /\ b_src_inds b = map (fun j => nth j (src_view_inds ds) 0)
                            (b_selection b)
  end.
Proof.
  intros Hds Hbare Hk He sims sel.
  destruct Hds as (_ & Hexts & Hixts).
  unfold get_viewer_batch. rewrite Hbare.
  unfold viewer_extra in He.
  unfold sel, sims, viewer_all_similarities, viewer_extra.
  destruct (selection_axes (closest_using_t ds) 0
              (frame_to_latent (parent ds) (t_to_frame (parent ds) (i_t i))))
    as [t e] eqn:Eax.
  simpl in He. simpl snd.
  unfold bind, lift, ret.
  unfold select_column. rewrite Hexts.
  replace (e <? num_extra ds) with true
    by (symmetry; apply Nat.ltb_lt; exact He).
  rewrite map_map.
  set (all := viewer_similarities _ _).
  assert (Hlen : length all = num_candidates ds)
    by (unfold all, viewer_similarities; rewrite !length_map, length_seq;
        reflexivity).
  unfold sort_descending. cbn [fst snd]. rewrite Hk.
  pose proof (firstn_sorted_bound all k) as Hbound. rewrite Hlen in Hbound.
  simpl snd in Hbound.
  rewrite (index_pairs_ok _ Hexts Hbound He).
  rewrite (index_pairs_ok _ Hixts Hbound He).
  unfold gather.
  replace (in_range (length (src_view_inds ds))
             (firstn k (map fst (sort_pairs before all)))) with true
    by (symmetry; apply in_range_spec; exact Hbound).
  destruct (firstn k (map fst (sort_pairs before all))) as [|c rest];
    [reflexivity|].
  eexists. split; [reflexivity|].
  simpl. repeat split; reflexivity.
Qed.

Lemma get_viewer_batch_spec (ds : Dataset) (i : viewer_input Mat) (k : nat)
    (g : rng) :
  coherent ds ->
  barebone ds = false ->
  last_item (n_srcs_list ds) = Ok k ->
  viewer_extra ds i < num_extra ds ->
  1 <= k ->
  1 <= num_candidates ds ->
  let sims := viewer_all_similarities affine_inverse translation ds i in
  exists b,
    get_viewer_batch affine_inverse translation ds i g = Ok (Batch b, g)
    /\ b_selection b = firstn k (snd (sort_descending before sims))
    /\ b_sims b = firstn k (fst (sort_descending before sims))
    /\ b_t_inds b = viewer_extra ds i
    /\ b_src_inds b = map (fun j => nth j (src_view_inds ds) 0)
                        (b_selection b).
Proof.
  intros Hds Hbare Hk He Hone Hsome sims.
  pose proof (get_viewer_batch_unfold i g Hds Hbare Hk He) as Hrun.
  cbv zeta in Hrun. fold sims in Hrun.
  assert (Hlen : length (firstn k (snd (sort_descending before sims)))
                 = Nat.min k (num_candidates ds)).
  { rewrite length_firstn, sort_indices_length.
    unfold sims. rewrite viewer_all_similarities_length. reflexivity. }
  destruct (firstn k (snd (sort_descending before sims))) as [|c rest];
    [simpl in Hlen; lia|].
  exact Hrun.
Qed.

(** With no source to take, [get_sources] raises. *)
Lemma get_viewer_batch_empty (ds : Dataset) (i : viewer_input Mat) (k : nat)
    (g : rng) :
  coherent ds ->
  barebone ds = false ->
  last_item (n_srcs_list ds) = Ok k ->
  viewer_extra ds i < num_extra ds ->
  k = 0 \/ num_candidates ds = 0 ->
  get_viewer_batch affine_inverse translation ds i g = Raise ValueError.
Proof.
  intros Hds Hbare Hk He Hnone.
  pose proof (get_viewer_batch_unfold i g Hds Hbare Hk He) as Hrun.
  cbv zeta in Hrun.
  set (sims := viewer_all_similarities affine_inverse translation ds i) in *.
  assert (Hlen : length (firstn k (snd (sort_descending before sims)))
                 = Nat.min k (num_candidates ds)).
  { rewrite length_firstn, sort_indices_length.
    unfold sims. rewrite viewer_all_similarities_length. reflexivity. }
  destruct (firstn k (snd (sort_descending before sims))) as [|c rest];
    [exact Hrun|].
  simpl in Hlen. lia.
Qed.

(** The viewer does not read the generator and leaves it as it is. *)
Lemma get_viewer_batch_ignores_generator (ds : Dataset)
    (i : viewer_input Mat) (g1 g2 : rng) :
  get_viewer_batch affine_inverse translation ds i g1
  = match get_viewer_batch affine_inverse translation ds i g2 with
    | Ok (r, _) => Ok (r, g1)
    | Raise e => Raise e
    end.
Proof.
  unfold get_viewer_batch, bind, lift, ret.
  destruct (barebone ds); [reflexivity|].
  destruct (selection_axes _ _ _) as [t e].
  destruct (select_column (src_exts ds) e); [|reflexivity].
  destruct (sort_descending _ _) as [vals inds].
  destruct (last_item (n_srcs_list ds)); [|reflexivity].
  destruct (index_pairs (src_exts ds) _ e); [|reflexivity].
  destruct (index_pairs (src_ixts ds) _ e); [|reflexivity].
  destruct (gather _ _) as [inds'|]; [|reflexivity].
  destruct (get_sources inds'); reflexivity.
Qed.


End ViewerFacts.

(** ** The selection of the candidate views *)

Lemma stride_bound (n fuel : nat) :
  forall i stop step : Z,
    (0 <= i)%Z -> (0 < step)%Z -> (stop <= Z.of_nat n)%Z ->
    Forall (fun p => p < n) (stride fuel i stop step).
Proof.
  induction fuel as [|fuel IH]; intros i stop step Hi Hstep Hstop; simpl.
  - constructor.
  - destruct (i <? stop)%Z eqn:E; [|constructor].
    apply Z.ltb_lt in E. constructor; [lia|].
    apply IH; lia.
Qed.

Lemma slice_positions_bound (n : nat) (start stop step : option Z)
    (l : list nat) :
  slice_positions n start stop step = Ok l -> Forall (fun p => p < n) l.
Proof.
  unfold slice_positions. intros Hl.
  destruct (match step with Some s => s | None => 1%Z end <=? 0)%Z eqn:E;
    [discriminate|].
  apply Z.leb_gt in E. inversion Hl; subst; clear Hl.
  apply stride_bound; [| exact E |].
  - unfold clamp_bound. destruct start as [v|]; [|lia].
    destruct (v <? 0)%Z eqn:Ev; [lia|]. apply Z.ltb_ge in Ev. lia.
  - unfold clamp_bound. destruct stop as [v|]; [|lia].
    destruct (v <? 0)%Z eqn:Ev; [|lia]. apply Z.ltb_lt in Ev. lia.
Qed.

Lemma wrap_positions_bound (n : nat) (positions : list Z) :
  forall l, mapM (wrap_position n) positions = Ok l ->
            Forall (fun p => p < n) l.
Proof.
  induction positions as [|z positions IH]; intros l Hl; simpl in Hl.
  - inversion Hl. constructor.
  - destruct (wrap_position n z) as [p|] eqn:Ep; simpl in Hl; [|discriminate].
    destruct (mapM (wrap_position n) positions) as [ps|]; simpl in Hl;
      [|discriminate].
    inversion Hl; subst; clear Hl.
    constructor; [|apply IH; reflexivity].
    unfold wrap_position in Ep.
    destruct ((0 <=? (if (z <? 0)%Z then (z + Z.of_nat n)%Z else z))%Z
              && ((if (z <? 0)%Z then (z + Z.of_nat n)%Z else z)
                  <? Z.of_nat n)%Z) eqn:E; [|discriminate].
    inversion Ep; subst; clear Ep.
    apply andb_prop in E. destruct E as [E1 E2].
    apply Z.leb_le in E1. apply Z.ltb_lt in E2. lia.
Qed.

Lemma select_views_bound (n : nat) (s : sample_spec) (l : list nat) :
  select_views n s = Ok l -> Forall (fun p => p < n) l.
Proof.
  unfold select_views.
  destruct s as [start stop step|positions].
  - apply slice_positions_bound.
  - destruct positions as [|b [|e [|st [|x positions]]]];
      try apply wrap_positions_bound.
    apply slice_positions_bound.
Qed.

(** * The claims *)

(** C1. A query of a dataset that the constructor returned, for a loaded
    camera, whose count of sources is given or drawn and is one at least,
    gets exactly that many source indices, pairwise distinct and all below
    the number of candidates. Each of them is read from the stored ranking of
    the query's target and secondary index, at a rank behind the skipped
    entries and inside the pool: nothing is ranked anew. This holds provided
    the count and the number of skipped top entries (one when the draw is
    above [append_gt_prob], else none) together do not exceed the number of
    candidates. With a widened pool of at least one entry this follows from
    the count and the pool together not exceeding the number of
    candidates. *)
Theorem C1_selection_distinct_in_range :
  forall (F : Type) (S : Scalar F) (NK : NormKernel F) (SK : SortKernel F)
         (Mat : Type) (pad inv : Mat -> Mat)
         (tr : Mat -> vec3 F) (a : @args F) (b : @base F Mat)
         (ds : @dataset F Mat) (q : query) (index n : nat) (g0 g : rng),
    base_wf b = true ->
    init pad inv tr a b = Ok ds ->
    resolve_query ds q g0 = Ok ((index, n), g) ->
    camera_ok b index = true ->
    1 <= n ->
    remove_gt_of (append_gt_prob ds) (peek_random g) + n
    <= num_candidates ds
    \/ (1 <= extra_src_pool ds
        /\ n + extra_src_pool ds <= num_candidates ds) ->
    let skip := remove_gt_of (append_gt_prob ds) (peek_random g) in
    exists m g',
      get_metadata ds q g0 = Ok (m, g')
      /\ length (m_selection m) = n
      /\ NoDup (m_selection m)
      /\ Forall (fun i => i < num_candidates ds) (m_selection m)
      /\ incl (m_selection m)
           (slice skip (skip + n + extra_src_pool ds)
              (ranking ds (fst (query_axes ds index))
                 (snd (query_axes ds index)))).
Proof.
  intros F S NK SK Mat pad inv tr a b ds q index n g0 g Hwf Hinit Hq Hcam
         Hone Hn skip.
  eapply get_metadata_selection; try eassumption.
  destruct Hn as [Hn|[Hpool Hn]]; [exact Hn|].
  pose proof (remove_gt_le_1 (append_gt_prob ds) (peek_random g)). lia.
Qed.

Lemma C1_selection_distinct_in_range_witness :
  let ds := Scenario.built Scenario.training in
  let g0 := Scenario.draws [Scenario.half; Scenario.half; 3%N; 1%N] in
  resolve_query ds (Plain 5) g0 = Ok ((5, 3), snd (next g0))
  /\ exists m g',
      get_metadata ds (Plain 5) g0 = Ok (m, g')
      /\ length (m_selection m) = 3
      /\ NoDup (m_selection m)
      /\ Forall (fun i => i < num_candidates ds) (m_selection m)
      /\ incl (m_selection m)
           (slice 1 5
              (ranking ds (fst (query_axes ds 5)) (snd (query_axes ds 5)))).
Proof.
  intros ds g0.
  assert (Hq : resolve_query ds (Plain 5) g0 = Ok ((5, 3), snd (next g0)))
    by (vm_compute; reflexivity).
  split; [exact Hq|].
  apply (@C1_selection_distinct_in_range float float_scalar
           Scenario.norm_kernel Scenario.sort_kernel Scenario.Mat
           Scenario.same Scenario.opposite Scenario.same
           Scenario.training Scenario.volume ds (Plain 5) 5 3 g0
           (snd (next g0))).
  - reflexivity.
  - vm_compute. reflexivity.
  - exact Hq.
  - reflexivity.
  - lia.
  - left. vm_compute. lia.
Defined.

(** C1, as it is stated, fails in two ways. With as many sources requested
    as there are candidates and no widened pool, the count and the pool
    together do not exceed the number of candidates, yet a query that skips
    the top entry gets one index less than it asked for. And a query for no
    source, whose count and pool do not exceed the number of candidates
    either, returns nothing: it raises, at the indexing of the cameras when
    the pool is widened and in [get_sources] when it is not. *)
Lemma C1_counterexample :
  let ds := Scenario.built Scenario.all_views in
  let g := Scenario.draws [Scenario.half] in
  (Scenario.build Scenario.all_views = Ok ds
   /\ 5 + extra_src_pool ds <= num_candidates ds
   /\ selected (get_metadata ds (Resolved 5 5) g) = Ok [1; 2; 3; 4]
   /\ ~ (exists m g',
            get_metadata ds (Resolved 5 5) g = Ok (m, g')
            /\ length (m_selection m) = 5))
  /\ (0 + extra_src_pool ds <= num_candidates ds
      /\ get_metadata ds (Resolved 5 0) g = Raise ValueError)
  /\ (let dt := Scenario.built Scenario.training in
      Scenario.build Scenario.training = Ok dt
      /\ 0 + extra_src_pool dt <= num_candidates dt
      /\ get_metadata dt (Resolved 5 0) g = Raise IndexError).
Proof.
  intros ds g.
  assert (Hsel : selected (get_metadata ds (Resolved 5 5) g)
                 = Ok [1; 2; 3; 4]) by (vm_compute; reflexivity).
  split; [|split].
  - split; [vm_compute; reflexivity|].
    split; [vm_compute; lia|].
    split; [exact Hsel|].
    intros (m & g' & Hrun & Hlen).
    rewrite Hrun in Hsel. simpl in Hsel.
    inversion Hsel as [Hm]. rewrite Hm in Hlen. discriminate Hlen.
  - split; [vm_compute; lia|vm_compute; reflexivity].
  - split; [vm_compute; reflexivity|].
    split; [vm_compute; lia|vm_compute; reflexivity].
Qed.

(** C2. With [barebone] off, a last count of one at least and one candidate
    at least, the viewer computes the similarity of the query center to
    every candidate center as the inverse of their clipped distance, sorts
    the candidates by descending similarity and takes the first
    [n_srcs_list[-1]] of them, from rank zero on: no entry is skipped. Among
    candidates of equal similarity the order is the one the sort kernel
    leaves. It consumes no randomness: for every state of the generator the
    same batch is returned, and the generator is left as it was. With a last
    count of zero, or without a candidate, there is no source to load and the
    call raises. *)
Theorem C2_viewer_takes_last_count :
  forall (F : Type) (S : Scalar F) (NK : NormKernel F) (SK : SortKernel F)
         (Mat : Type) (pad inv : Mat -> Mat)
         (tr : Mat -> vec3 F) (a : @args F) (b : @base F Mat)
         (ds : @dataset F Mat) (i : viewer_input Mat) (k : nat),
    base_wf b = true ->
    init pad inv tr a b = Ok ds ->
    barebone ds = false ->
    last_item (n_srcs_list ds) = Ok k ->
    viewer_extra ds i < num_extra ds ->
    let sims := viewer_all_similarities inv tr ds i in
    (forall c d,
        c < num_candidates ds ->
        nth c sims d
        = f_div f_one
            (clip (norm (vsub (tr (inv (get (src_exts ds)
                                          [c; viewer_extra ds i])))
                           (tr (inv (i_w2c i))))) f_eps))
    /\ (1 <= k -> 1 <= num_candidates ds ->
        exists bt,
          (forall g : rng,
              get_viewer_batch inv tr ds i g = Ok (Batch bt, g))
          /\ b_selection bt = firstn k (snd (sort_descending before sims))
          /\ b_sims bt = firstn k (fst (sort_descending before sims))
          /\ length (b_selection bt) = Nat.min k (num_candidates ds)
          /\ NoDup (b_selection bt))
    /\ (k = 0 \/ num_candidates ds = 0 ->
        forall g : rng, get_viewer_batch inv tr ds i g = Raise ValueError).
Proof.
  intros F S NK SK Mat pad inv tr a b ds i k Hwf Hinit Hbare Hk He sims.
  pose proof (init_coherent _ _ _ _ _ Hwf Hinit) as Hds.
  split; [|split].
  - intros c d Hc. apply viewer_all_similarities_nth. exact Hc.
  - intros Hone Hsome.
    set (g0 := {| tape := fun _ => 0%N; pos := 0 |}).
    destruct (get_viewer_batch_spec inv tr i g0 Hds Hbare Hk He Hone Hsome)
      as (bt & Hrun & Hsel & Hsims & _).
    exists bt. split; [|split; [exact Hsel|split; [exact Hsims|split]]].
    + intros g.
      rewrite (get_viewer_batch_ignores_generator inv tr ds i g g0).
      rewrite Hrun. reflexivity.
    + rewrite Hsel, length_firstn, sort_indices_length.
      fold sims. unfold sims. rewrite viewer_all_similarities_length.
      reflexivity.
    + rewrite Hsel. apply NoDup_firstn, sort_indices_NoDup.
  - intros Hnone g.
    apply (get_viewer_batch_empty inv tr i g Hds Hbare Hk He Hnone).
Qed.

Lemma C2_viewer_takes_last_count_witness :
  let ds := Scenario.built Scenario.training in
  let sims := Scenario.similarities_at ds in
  exists bt,
    (forall g : rng, Scenario.viewer ds g = Ok (Batch bt, g))
    /\ b_selection bt = firstn 4 (snd (Scenario.sorted sims))
    /\ b_sims bt = firstn 4 (fst (Scenario.sorted sims))
    /\ length (b_selection bt) = Nat.min 4 (num_candidates ds)
    /\ NoDup (b_selection bt).
Proof.
  intros ds.
  apply (@C2_viewer_takes_last_count float float_scalar
           Scenario.norm_kernel Scenario.sort_kernel Scenario.Mat
           Scenario.same Scenario.opposite Scenario.same
           Scenario.training Scenario.volume ds Scenario.pose 4).
  - reflexivity.
  - vm_compute. reflexivity.
  - reflexivity.
  - reflexivity.
  - vm_compute. lia.
  - lia.
  - vm_compute. lia.
Defined.

(** C2, as it is stated, fails: with the counts 4, 3 and 2 the viewer takes
    the two candidates that the last count asks for, not the four of the
    largest count. *)
Lemma C2_counterexample :
  let ds := Scenario.built Scenario.descending_counts in
  let sims := Scenario.similarities_at ds in
  let run := Scenario.viewer ds (Scenario.draws []) in
  Scenario.build Scenario.descending_counts = Ok ds
  /\ list_max (n_srcs_list ds) = 4
  /\ firstn 4 (snd (Scenario.sorted sims)) = [1; 0; 2; 3]
  /\ viewer_selected run = Ok [1; 0]
  /\ viewer_selected run
     <> Ok (firstn (list_max (n_srcs_list ds))
              (snd (Scenario.sorted sims))).
Proof.
  intros ds sims run. unfold ds, sims, run.
  split; [vm_compute; reflexivity|].
  split; [vm_compute; reflexivity|].
  split; [vm_compute; reflexivity|].
  split; [vm_compute; reflexivity|].
  vm_compute. discriminate.
Qed.

(** C3. With no widened pool and a ground-truth probability of zero the
    selection should be the ranking behind its top entry, in rank order, for
    every query. It is so for every draw of [random.random()] but one: the
    draw 0.0 is not above the probability, the top entry is kept, and on the
    five-camera ranking a request for two sources gets 0 and 1 where the
    claim has 1 and 2. *)
Theorem C3_zero_draw_keeps_top_entry :
  let ds := Scenario.built Scenario.strict in
  Scenario.build Scenario.strict = Ok ds
  /\ extra_src_pool ds = 0
  /\ append_gt_prob ds = 0%Q
  /\ ranking ds 5 0 = [0; 1; 2; 3; 4]
  /\ peek_random (Scenario.draws [0%N]) = (0 # two53)%Q
  /\ selected (get_metadata ds (Resolved 5 2) (Scenario.draws [0%N]))
     = Ok [0; 1]
  /\ selected (get_metadata ds (Resolved 5 2) (Scenario.draws [1%N]))
     = Ok [1; 2].
Proof.
  intros ds. unfold ds.
  repeat split; vm_compute; reflexivity.
Qed.

(** C4. The constructor does not compare the pool with the number of
    candidates: whether it succeeds does not depend on the sampling policy.
    A pool that is too small is met by the query: with a widened pool, a
    query for more sources than there are candidates behind the skipped
    entries raises the [ValueError] of the sampling. *)
Theorem C4_small_pool_raises_at_query :
  (forall (F : Type) (S : Scalar F) (NK : NormKernel F) (SK : SortKernel F)
         (Mat : Type) (pad inv : Mat -> Mat)
          (tr : Mat -> vec3 F) (a : @args F) (b : @base F Mat)
          (counts : list nat) (probs : list float) (gt_prob : Q)
          (extra : nat),
      is_ok (init pad inv tr (set_sampling a counts probs gt_prob extra) b)
      = is_ok (init pad inv tr a b))
  /\ (forall (F : Type) (S : Scalar F) (NK : NormKernel F) (SK : SortKernel F)
         (Mat : Type) (pad inv : Mat -> Mat)
             (tr : Mat -> vec3 F) (a : @args F) (b : @base F Mat)
             (ds : @dataset F Mat) (q : query) (index n : nat) (g0 g : rng),
        base_wf b = true ->
        init pad inv tr a b = Ok ds ->
        resolve_query ds q g0 = Ok ((index, n), g) ->
        camera_ok b index = true ->
        0 < extra_src_pool ds ->
        num_candidates ds
        - remove_gt_of (append_gt_prob ds) (peek_random g) < n ->
        get_metadata ds q g0 = Raise ValueError).
Proof.
  split.
  - intros. apply init_ignores_sampling.
  - intros F S NK SK Mat pad inv tr a b ds q index n g0 g.
    apply get_metadata_small_pool.
Qed.

Lemma C4_small_pool_raises_at_query_witness :
  let ds := Scenario.built Scenario.oversized in
  let g0 := Scenario.draws [0%N; Scenario.half] in
  resolve_query ds (Plain 5) g0 = Ok ((5, 5), snd (next g0))
  /\ get_metadata ds (Plain 5) g0 = Raise ValueError.
Proof.
  intros ds g0.
  assert (Hq : resolve_query ds (Plain 5) g0 = Ok ((5, 5), snd (next g0)))
    by (vm_compute; reflexivity).
  split; [exact Hq|].
  apply (proj2 C4_small_pool_raises_at_query float float_scalar Scenario.norm_kernel
           Scenario.sort_kernel Scenario.Mat
           Scenario.same Scenario.opposite Scenario.same
           Scenario.oversized Scenario.volume ds (Plain 5) 5 5 g0
           (snd (next g0))).
  - reflexivity.
  - vm_compute. reflexivity.
  - exact Hq.
  - reflexivity.
  - vm_compute. lia.
  - vm_compute. lia.
Defined.

(** C4, as it is stated, fails: the constructor accepts a count and a pool
    that together exceed the five candidates, and the plain query that draws
    this count is the first to raise. *)
Lemma C4_counterexample :
  let ds := Scenario.built Scenario.oversized in
  let g := Scenario.draws [0%N; Scenario.half] in
  Scenario.build Scenario.oversized = Ok ds
  /\ n_srcs_list ds = [5]
  /\ num_candidates ds < 5 + extra_src_pool ds
  /\ selected (get_metadata ds (Plain 5) g) = Raise ValueError.
Proof.
  intros ds g. unfold ds, g.
  split; [vm_compute; reflexivity|].
  split; [vm_compute; reflexivity|].
  split; [vm_compute; lia|].
  vm_compute. reflexivity.
Qed.

(** C5. The ranking that the constructor stores lists, for every target and
    secondary index, every candidate once, sorted by descending similarity:
    the similarity stored at a rank is the similarity of the candidate stored
    at that rank, and of two ranks [p < q] the similarity at [q] does not
    come strictly before the one at [p] in the descending order (on binary64
    numbers that are not NaN: it is at most the one at [p]). This holds for
    every element type whose comparison is a strict weak order, for the
    binary64 numbers in particular, and for every sort kernel. The order of
    candidates of equal similarity is the kernel's: they ascend by index
    when the kernel keeps equal entries in input order. On the five cameras
    at 0, 1, 2, 5 and 10 of the x axis the similarities to the target at 0.5
    are 2, 2, 1/1.5, 1/4.5 and 1/9.5; the first two candidates tie, and the
    ranking is 0, 1, 2, 3, 4 or 1, 0, 2, 3, 4, the first with a kernel that
    keeps the input order and with the kernel of a CPU build, which on this
    volume rank alike for every target. For the target at 5 it starts
    3, 2, 1. *)
Theorem C5_ranking_sorted_descending :
  (forall (F : Type) (S : Scalar F) (NK : NormKernel F) (SK : SortKernel F)
          (Mat : Type)
          (inv : Mat -> Mat) (tr : Mat -> vec3 F) (by_time : bool)
          (b : @base F Mat) (exts : tensor Mat)
          (sims : tensor F) (inds : tensor nat),
      (forall x y : F, before x y = true -> before y x = false) ->
      (forall x y z : F,
          before x y = false -> before y z = false -> before x z = false) ->
      load_source_indices inv tr by_time b exts = Ok (sims, inds) ->
      (exists tar unsorted,
          target_c2ws by_time b = Ok tar
          /\ similarities (tmap tr (tmap inv exts)) (tmap tr tar)
             = Ok unsorted
          /\ forall t l r,
              r < dim inds 1 ->
              get sims [t; r; l] = get unsorted [t; get inds [t; r; l]; l])
      /\ forall t l,
          Permutation (lane inds t l) (seq 0 (dim inds 1))
          /\ forall p q,
              p < q -> q < dim inds 1 ->
              before (get sims [t; q; l]) (get sims [t; p; l]) = false
              /\ ((forall input i j, tie input i j = (i <? j)) ->
                  before (get sims [t; p; l]) (get sims [t; q; l]) = false ->
                  get inds [t; p; l] < get inds [t; q; l]))
  /\ (forall (NK : NormKernel float) (SK : SortKernel float)
             (Mat : Type) (inv : Mat -> Mat) (tr : Mat -> vec3 float)
             (by_time : bool) (b : @base float Mat) (exts : tensor Mat)
             (sims : tensor float) (inds : tensor nat),
        load_source_indices inv tr by_time b exts = Ok (sims, inds) ->
        forall t l,
          Permutation (lane inds t l) (seq 0 (dim inds 1))
          /\ forall p q,
              p < q -> q < dim inds 1 ->
              before (get sims [t; q; l]) (get sims [t; p; l]) = false
              /\ (PrimFloat.is_nan (get sims [t; p; l]) = false ->
                  PrimFloat.is_nan (get sims [t; q; l]) = false ->
                  (get sims [t; q; l] <=? get sims [t; p; l])%float = true)
              /\ ((forall input i j, tie input i j = (i <? j)) ->
                  before (get sims [t; p; l]) (get sims [t; q; l]) = false ->
                  get inds [t; p; l] < get inds [t; q; l]))
  /\ (forall SK : SortKernel float,
        let ds := Scenario.built_with SK Scenario.training in
        Scenario.build_with SK Scenario.training = Ok ds
        /\ map (fun r => get (src_sims ds) [5; r; 0]) (seq 0 5)
           = [2; 2; 1 / 1.5; 1 / 4.5; 1 / 9.5]%float
        /\ (ranking ds 5 0 = [0; 1; 2; 3; 4]
            \/ ranking ds 5 0 = [1; 0; 2; 3; 4])
        /\ (ranking ds 3 0 = [3; 2; 1; 0; 4]
            \/ ranking ds 3 0 = [3; 2; 1; 4; 0])
        /\ ((forall input i j, tie input i j = (i <? j)) ->
            ranking ds 5 0 = [0; 1; 2; 3; 4]
            /\ ranking ds 3 0 = [3; 2; 1; 0; 4]))
  /\ map (fun v => get (c2ws Scenario.volume) [v; 0]) (seq 0 6)
     = [Scenario.point 0 0 0; Scenario.point 1 0 0; Scenario.point 2 0 0;
        Scenario.point 5 0 0; Scenario.point 10 0 0; Scenario.point 0.5 0 0]
  /\ map (fun t =>
            ranking (Scenario.built_with Scenario.introsort
                       Scenario.training) t 0) (seq 0 6)
     = map (fun t => ranking (Scenario.built Scenario.training) t 0)
         (seq 0 6)
  /\ ranking (Scenario.built_with Scenario.introsort Scenario.training) 5 0
     = [0; 1; 2; 3; 4].
Proof.
  split; [|split; [|split; [|repeat split; vm_compute; reflexivity]]].
  - intros F S NK SK Mat inv tr by_time b exts sims inds Hasym Hntrans Hload.
    destruct (load_source_indices_lookup _ _ _ _ _ Hload)
      as (tar & unsorted & Htar & Hsim & _ & _ & Hlanes).
    split.
    + exists tar, unsorted. split; [exact Htar|]. split; [exact Hsim|].
      intros t l r Hr. apply (proj2 (Hlanes t l)), Hr.
    + intros t l. split; [apply (Hlanes t l)|].
      intros p q Hpq Hq. split.
      * eapply load_source_indices_ranked; eassumption.
      * intros Hstable. eapply load_source_indices_stable; eassumption.
  - intros NK SK Mat inv tr by_time b exts sims inds Hload t l.
    destruct (load_source_indices_lookup _ _ _ _ _ Hload)
      as (tar & unsorted & _ & _ & _ & _ & Hlanes).
    split; [apply (Hlanes t l)|].
    intros p q Hpq Hq.
    pose proof (@load_source_indices_ranked float float_scalar NK SK Mat
                  inv tr float_before_asym float_before_ntrans by_time b
                  exts sims inds Hload t l p q Hpq Hq) as Hdesc.
    split; [exact Hdesc|]. split.
    + intros Hp Hnq. apply float_not_before_leb; assumption.
    + intros Hstable.
      apply (@load_source_indices_stable float float_scalar NK SK Mat
               inv tr float_before_asym float_before_ntrans by_time b
               exts sims inds Hstable Hload t l p q Hpq Hq).
  - intros [tie0]. cbv zeta.
    split; [vm_compute; reflexivity|].
    split; [vm_compute; destruct (tie0 _ 1 0); reflexivity|].
    split; [|split].
    + vm_compute. destruct (tie0 _ 1 0); [right|left]; reflexivity.
    + vm_compute. destruct (tie0 _ 4 0); [right|left]; reflexivity.
    + intros Hstable. simpl tie in Hstable. split.
      * vm_compute. rewrite Hstable. reflexivity.
      * vm_compute. rewrite Hstable. reflexivity.
Qed.

Lemma C5_ranking_sorted_descending_witness :
  let ds := Scenario.built Scenario.training in
  load_source_indices (NK := Scenario.norm_kernel)
    (SK := Scenario.sort_kernel) Scenario.opposite Scenario.same false
    Scenario.volume (src_exts ds) = Ok (src_sims ds, src_inds ds)
  /\ Permutation (lane (src_inds ds) 5 0) (seq 0 (dim (src_inds ds) 1))
  /\ before (get (src_sims ds) [5; 1; 0]) (get (src_sims ds) [5; 0; 0])
     = false
  /\ (before (get (src_sims ds) [5; 0; 0]) (get (src_sims ds) [5; 1; 0])
      = false ->
      get (src_inds ds) [5; 0; 0] < get (src_inds ds) [5; 1; 0]).
Proof.
  intros ds.
  assert (Hload : load_source_indices (NK := Scenario.norm_kernel)
                    (SK := Scenario.sort_kernel) Scenario.opposite
                    Scenario.same false Scenario.volume (src_exts ds)
                  = Ok (src_sims ds, src_inds ds))
    by (vm_compute; reflexivity).
  assert (Hq : 1 < dim (src_inds ds) 1) by (vm_compute; lia).
  split; [exact Hload|].
  destruct (proj1 C5_ranking_sorted_descending float float_scalar
              Scenario.norm_kernel Scenario.sort_kernel
              Scenario.Mat Scenario.opposite Scenario.same false
              Scenario.volume (src_exts ds) (src_sims ds)
              (src_inds ds) float_before_asym float_before_ntrans
              Hload) as [_ Hlanes].
  destruct (Hlanes 5 0) as [Hperm Hranked].
  split; [exact Hperm|].
  destruct (Hranked 0 1 Nat.lt_0_1 Hq) as [Hdesc Htie].
  split; [exact Hdesc|].
  apply Htie. intros input i j. reflexivity.
Defined.

(** C5, as it is stated, fails: on the dome the seventeen candidates have
    the same similarity to the target, one fifth, and the kernel of a CPU
    build ranks them 8, 16, 15 and so on: the candidate at rank 1 has a
    larger index than the one at rank 2, although neither similarity comes
    before the other. *)
Lemma C5_counterexample :
  let ds := Scenario.built_dome Scenario.introsort in
  is_ok (Scenario.build_dome Scenario.introsort) = true
  /\ map (fun v => get (c2ws Scenario.dome) [v; 0]) (seq 0 18)
     = Scenario.dome_centers
  /\ num_candidates ds = 17
  /\ map (fun r => get (src_sims ds) [17; r; 0]) (seq 0 17)
     = repeat (1 / 5)%float 17
  /\ ranking ds 17 0
     = [8; 16; 15; 14; 13; 12; 11; 10; 9; 0; 7; 6; 5; 4; 3; 2; 1]
  /\ before (get (src_sims ds) [17; 1; 0]) (get (src_sims ds) [17; 2; 0])
     = false
  /\ ~ (get (src_inds ds) [17; 1; 0] < get (src_inds ds) [17; 2; 0]).
Proof.
  intros ds. unfold ds.
  split; [vm_compute; reflexivity|].
  split; [vm_compute; reflexivity|].
  split; [vm_compute; reflexivity|].
  split; [vm_compute; reflexivity|].
  split; [vm_compute; reflexivity|].
  split; [vm_compute; reflexivity|].
  vm_compute. lia.
Qed.

(** C6. The stored box has a width and a height that are multiples of 32:
    both are rounded up to the next multiple of 32, or, when one of the two
    rounded values exceeds the image, both are rounded down; the corner is
    moved by half of the growth and clipped. For a projected box that is a
    box of the image, no wider and no higher than it, the stored width and
    height are at most the image's and the stored box lies inside the image.
    The box (100, 100, 50, 40) of a 640 by 480 image becomes (93, 88, 64,
    64). *)
Theorem C6_objects_box_aligned_inside :
  (forall x y w_orig h_orig H W : Z,
      match objects_xywh x y w_orig h_orig H W with
      | (x', y', w, h) =>
          ((32 | w) /\ (32 | h))%Z
          /\ (((w, h) = (ceil_div w_orig 32 * 32, ceil_div h_orig 32 * 32)
               /\ w <= W /\ h <= H
               /\ w_orig <= w < w_orig + 32 /\ h_orig <= h < h_orig + 32)
              \/ ((w, h)
                  = (floor_div w_orig 32 * 32, floor_div h_orig 32 * 32)
                  /\ (W < ceil_div w_orig 32 * 32
                      \/ H < ceil_div h_orig 32 * 32)
                  /\ w_orig - 32 < w <= w_orig
                  /\ h_orig - 32 < h <= h_orig))%Z
          /\ x' = np_clip (x - (w - w_orig) / 2)%Z 0%Z (W - w)%Z
          /\ y' = np_clip (y - (h - h_orig) / 2)%Z 0%Z (H - h)%Z
      end)
  /\ (forall x y w_orig h_orig H W : Z,
        (w_orig <= W)%Z -> (h_orig <= H)%Z ->
        match objects_xywh x y w_orig h_orig H W with
        | (x', y', w, h) =>
            (w <= W /\ h <= H
             /\ 0 <= x' /\ 0 <= y' /\ x' + w <= W /\ y' + h <= H)%Z
        end)
  /\ objects_xywh 100 100 50 40 480 640 = (93, 88, 64, 64)%Z.
Proof.
  assert (Hcases : forall x y w_orig h_orig H W : Z,
             let cw := (ceil_div w_orig 32 * 32)%Z in
             let ch := (ceil_div h_orig 32 * 32)%Z in
             let fw := (floor_div w_orig 32 * 32)%Z in
             let fh := (floor_div h_orig 32 * 32)%Z in
             (objects_xywh x y w_orig h_orig H W
              = (np_clip (x - (cw - w_orig) / 2) 0 (W - cw),
                 np_clip (y - (ch - h_orig) / 2) 0 (H - ch), cw, ch)
              /\ cw <= W /\ ch <= H)%Z
             \/ (objects_xywh x y w_orig h_orig H W
                 = (np_clip (x - (fw - w_orig) / 2) 0 (W - fw),
                    np_clip (y - (fh - h_orig) / 2) 0 (H - fh), fw, fh)
                 /\ (W < cw \/ H < ch))%Z).
  { intros x y w_orig h_orig H W cw ch fw fh. unfold objects_xywh.
    fold cw ch fw fh.
    destruct ((cw >? W)%Z || (ch >? H)%Z) eqn:E.
    - right. split; [reflexivity|].
      apply orb_true_iff in E.
      destruct E as [E|E]; apply Z.gtb_lt in E; [left|right]; exact E.
    - left. split; [reflexivity|].
      apply orb_false_iff in E. destruct E as [Ew Eh].
      rewrite Z.gtb_ltb in Ew, Eh. apply Z.ltb_ge in Ew, Eh.
      split; assumption. }
  split; [|split; [|reflexivity]].
  - intros x y w_orig h_orig H W.
    pose proof (ceil32_bounds w_orig) as Hcw.
    pose proof (ceil32_bounds h_orig) as Hch.
    pose proof (floor32_bounds w_orig) as Hfw.
    pose proof (floor32_bounds h_orig) as Hfh.
    destruct (Hcases x y w_orig h_orig H W) as [(Heq & Hw' & Hh')|(Heq & Ho)];
      rewrite Heq.
    + split; [split; apply Z.divide_factor_r|].
      split; [left; repeat split; lia|].
      split; reflexivity.
    + split; [split; apply Z.divide_factor_r|].
      split; [right; repeat split; lia|].
      split; reflexivity.
  - intros x y w_orig h_orig H W Hw Hh.
    pose proof (floor32_bounds w_orig) as Hfw.
    pose proof (floor32_bounds h_orig) as Hfh.
    destruct (Hcases x y w_orig h_orig H W) as [(Heq & Hw' & Hh')|(Heq & Ho)];
      rewrite Heq.
    + pose proof (@np_clip_bounds
                    (x - (ceil_div w_orig 32 * 32 - w_orig) / 2) 0
                    (W - ceil_div w_orig 32 * 32)) as Hx.
      pose proof (@np_clip_bounds
                    (y - (ceil_div h_orig 32 * 32 - h_orig) / 2) 0
                    (H - ceil_div h_orig 32 * 32)) as Hy.
      repeat split; lia.
    + pose proof (@np_clip_bounds
                    (x - (floor_div w_orig 32 * 32 - w_orig) / 2) 0
                    (W - floor_div w_orig 32 * 32)) as Hx.
      pose proof (@np_clip_bounds
                    (y - (floor_div h_orig 32 * 32 - h_orig) / 2) 0
                    (H - floor_div h_orig 32 * 32)) as Hy.
      repeat split; lia.
Qed.

Lemma C6_objects_box_aligned_inside_witness :
  match objects_xywh 100 100 50 40 480 640 with
  | (x', y', w, h) =>
      (w <= 640 /\ h <= 480
       /\ 0 <= x' /\ 0 <= y' /\ x' + w <= 640 /\ y' + h <= 480)%Z
  end.
Proof.
  exact (proj1 (proj2 C6_objects_box_aligned_inside) 100 100 50 40 480 640
           ltac:(lia) ltac:(lia))%Z.
Defined.

(** C7. The viewer inverts, for every candidate, the distance of its center
    to the query center after clipping it from below at 1e-10. On binary64
    numbers, whatever the norm kernel answers: a distance below the bound is
    replaced by the bound and gives the similarity 1e10; a distance that is
    not below the bound is inverted as it is; when the distance is a number,
    the divisor is at least the bound, so the division is not by zero, and
    the similarity is finite and not negative; when the distance is NaN, so
    is the similarity. Over the real numbers the divisor is at least 1e-10,
    it is the distance itself when that is at least 1e-10, and the similarity
    lies between zero and 1e10, which it is when the two centers coincide;
    on binary64 numbers a coinciding center evaluates to 1e10 as well. *)
Theorem C7_viewer_distance_clamped :
  (forall (NK : NormKernel float) (cs : list (vec3 float)) (t : vec3 float),
      viewer_similarities cs t
      = map (fun c => (1 / clip (norm (vsub c t)) f_eps)%float) cs
      /\ (Forall (fun c => PrimFloat.is_nan (norm (vsub c t)) = false) cs ->
          Forall (fun s => PrimFloat.is_finite s = true
                           /\ (0 <=? s)%float = true)
            (viewer_similarities cs t)))
  /\ (forall d : float,
        ((d <? f_eps)%float = true ->
         clip d f_eps = f_eps
         /\ (1 / clip d f_eps)%float = 10000000000%float)
        /\ ((d <? f_eps)%float = false -> clip d f_eps = d)
        /\ (PrimFloat.is_nan d = false ->
            ((f_eps : float) <=? clip d f_eps)%float = true
            /\ PrimFloat.is_finite (1 / clip d f_eps) = true
            /\ (0 <=? 1 / clip d f_eps)%float = true)
        /\ (PrimFloat.is_nan d = true ->
            PrimFloat.is_nan (1 / clip d f_eps) = true))
  /\ (forall c t : vec3 R,
        let d := clip (norm (vsub c t)) f_eps in
        viewer_similarities [c] t = [(1 / d)%R]
        /\ (1e-10 <= d)%R
        /\ (0 < 1 / d <= 1e10)%R
        /\ ((1e-10 <= norm (vsub c t))%R -> d = norm (vsub c t)))
  /\ (forall (cs : list (vec3 R)) (t : vec3 R),
        Forall (fun s => (0 < s <= 1e10)%R) (viewer_similarities cs t))
  /\ (forall c : vec3 R, viewer_similarities [c] c = [1e10%R])
  /\ viewer_similarities (NK := Scenario.norm_kernel)
       [Scenario.point 1 0 0] (Scenario.point 1 0 0)
     = [10000000000%float].
Proof.
  assert (Hfloat : forall d : float,
             ((d <? f_eps)%float = true ->
              clip d f_eps = f_eps
              /\ (1 / clip d f_eps)%float = 10000000000%float)
             /\ ((d <? f_eps)%float = false -> clip d f_eps = d)
             /\ (PrimFloat.is_nan d = false ->
                 ((f_eps : float) <=? clip d f_eps)%float = true
                 /\ PrimFloat.is_finite (1 / clip d f_eps) = true
                 /\ (0 <=? 1 / clip d f_eps)%float = true)
             /\ (PrimFloat.is_nan d = true ->
                 PrimFloat.is_nan (1 / clip d f_eps) = true)).
  { intros d.
    assert (Hclip : clip d f_eps = if (d <? f_eps)%float then f_eps else d)
      by reflexivity.
    split; [|split; [|split]].
    - intros Hlt. rewrite Hclip, Hlt.
      split; [reflexivity|vm_compute; reflexivity].
    - intros Hlt. rewrite Hclip, Hlt. reflexivity.
    - intros Hn.
      assert (Hle : ((f_eps : float) <=? clip d f_eps)%float = true).
      { rewrite Hclip. destruct (d <? f_eps)%float eqn:Hlt.
        - vm_compute. reflexivity.
        - apply float_not_below_eps; assumption. }
      split; [exact Hle|]. apply float_div_one_finite, Hle.
    - intros Hn. rewrite Hclip.
      replace (d <? f_eps)%float with false.
      + apply float_div_one_nan, Hn.
      + symmetry. rewrite ltb_spec. apply SFltb_nan_l.
        rewrite <- is_nan_spec. exact Hn. }
  assert (Hone : forall c t : vec3 R,
             let d := clip (norm (vsub c t)) f_eps in
             (1e-10 <= d)%R /\ (0 < 1 / d <= 1e10)%R).
  { intros c t d.
    destruct (real_clip_eps (norm (vsub c t))) as [Hd _]. fold d in Hd.
    split; [exact Hd|].
    assert (Hpos : (0 < d)%R) by lra.
    split.
    - apply Rdiv_lt_0_compat; lra.
    - apply (Rmult_le_reg_r d); [exact Hpos|].
      unfold Rdiv. rewrite Rmult_assoc, Rinv_l by lra. lra. }
  split; [|split; [exact Hfloat|split; [|split; [|split]]]].
  - intros NK cs t. split; [reflexivity|].
    intros Hn. unfold viewer_similarities. apply Forall_map.
    apply (Forall_impl _ (P := fun c =>
             PrimFloat.is_nan (norm (vsub c t)) = false)); [|exact Hn].
    intros c Hc.
    destruct (Hfloat (norm (vsub c t))) as (_ & _ & Hnum & _).
    exact (proj2 (Hnum Hc)).
  - intros c t d. split; [reflexivity|].
    destruct (Hone c t) as [Hd Hs]. fold d in Hd, Hs.
    split; [exact Hd|]. split; [exact Hs|].
    intros Hfar. unfold d, clip.
    assert (E : f_ltb (norm (vsub c t)) f_eps = false)
      by (apply Rltb_false; exact Hfar).
    rewrite E. reflexivity.
  - intros cs t. unfold viewer_similarities. apply Forall_forall.
    intros s Hs. apply in_map_iff in Hs. destruct Hs as (c & Hc & _).
    subst s. apply (Hone c t).
  - intros c. unfold viewer_similarities, norm, vsub. simpl.
    replace ((vx c - vx c) * (vx c - vx c) + (vy c - vy c) * (vy c - vy c)
             + (vz c - vz c) * (vz c - vz c))%R with 0%R by lra.
    rewrite sqrt_0. unfold clip. simpl.
    destruct (Rltb 0 1e-10) eqn:E.
    + f_equal. lra.
    + apply Rltb_false in E. lra.
  - vm_compute. reflexivity.
Qed.

Lemma C7_viewer_distance_clamped_witness :
  (clip 0%float f_eps = f_eps
   /\ (1 / clip 0%float f_eps)%float = 10000000000%float)
  /\ clip 2%float f_eps = 2%float
  /\ PrimFloat.is_finite (1 / clip 2%float f_eps) = true
  /\ PrimFloat.is_nan (1 / clip nan f_eps) = true.
Proof.
  destruct (proj1 (proj2 C7_viewer_distance_clamped) 0%float)
    as (Hbelow & _).
  destruct (proj1 (proj2 C7_viewer_distance_clamped) 2%float)
    as (_ & Hsame & Hnum & _).
  destruct (proj1 (proj2 C7_viewer_distance_clamped) nan)
    as (_ & _ & _ & Hnan).
  split; [apply Hbelow; reflexivity|].
  split; [apply Hsame; reflexivity|].
  split; [apply Hnum; reflexivity|].
  apply Hnan. reflexivity.
Defined.

(** C7, as it is stated, fails for a pose that is not a number: the
    distance is NaN, which the clipping leaves as it is, and the similarity
    of every candidate is NaN, not a finite value. *)
Lemma C7_counterexample :
  let lost := Scenario.point nan 0 0 in
  viewer_similarities (NK := Scenario.norm_kernel)
    [Scenario.point 0 0 0; Scenario.point 1 0 0] lost
  = [nan; nan]
  /\ PrimFloat.is_finite nan = false
  /\ match Scenario.value
             (get_viewer_batch (NK := Scenario.norm_kernel)
                (SK := Scenario.sort_kernel) Scenario.opposite Scenario.same
                (Scenario.built Scenario.training)
                {| i_w2c := lost; i_t := 0%float;
                   i_bounds := Scenario.box |}
                (Scenario.draws [])) with
     | Ok (Batch bt) => b_sims bt = [nan; nan; nan; nan]
     | _ => False
     end.
Proof.
  intros lost. split; [vm_compute; reflexivity|].
  split; [reflexivity|].
  vm_compute. reflexivity.
Qed.




(** C9. When [src_view_sample] selects one candidate [k], what
    [load_source_params] indexes the camera tensors with is a Python list of
    length one that holds the selection, not the integer [k]; the constructor
    step succeeds, and [src_ixts] and [src_exts] keep both axes, the
    candidate axis leading with size one and holding the cameras of [k].
    Indexing with the integer instead would drop the axis. *)
Theorem C9_single_candidate_keeps_axis :
  forall (F : Type) (S : Scalar F) (Mat : Type) (pad : Mat -> Mat)
         (by_time : bool) (sample : sample_spec) (b : @base F Mat) (k : nat),
    base_wf b = true ->
    select_views (length (if by_time then frame_inds b else view_inds b))
      sample = Ok [k] ->
    let e := if by_time then length (view_inds b)
             else length (frame_inds b) in
    guard_single [k] = AsList [[k]]
    /\ (exists ixts exts,
          load_source_params pad by_time sample b = Ok ([k], ixts, exts)
          /\ shape ixts = [1; e]
          /\ shape exts = [1; e]
          /\ (forall j, get ixts [0; j]
                        = get (Ks b) (if by_time then [j; k] else [k; j]))
          /\ (forall j, get exts [0; j]
                        = pad (get (w2cs b)
                                 (if by_time then [j; k] else [k; j]))))
    /\ (forall y, index_int (Ks b) k = Ok y -> length (shape y) = 1).
Proof.
  intros F S Mat pad by_time sample b k Hwf Hsel e.
  destruct (base_wf_shapes b Hwf) as (HK & Hw & _).
  apply select_views_bound in Hsel as Hk.
  inversion Hk as [|? ? Hlt _]; subst.
  split; [reflexivity|]. split.
  - unfold load_source_params. rewrite Hsel. simpl rbind.
    change (guard_single [k]) with (AsList [[k]]).
    destruct by_time; simpl.
    + unfold index_list_dim1, index_tensor_dim1. simpl.
      rewrite HK, Hw. unfold in_range. simpl.
      apply Nat.ltb_lt in Hlt. rewrite Hlt. simpl.
      unfold permute_1_0. simpl.
      eexists. eexists. split; [reflexivity|].
      simpl. repeat split; reflexivity.
    + unfold index_list. simpl. rewrite HK, Hw. unfold in_range. simpl.
      apply Nat.ltb_lt in Hlt. rewrite Hlt. simpl.
      eexists. eexists. split; [reflexivity|].
      simpl. repeat split; reflexivity.
  - intros y Hy. unfold index_int in Hy. rewrite HK in Hy.
    destruct (k <? length (view_inds b)); [|discriminate].
    inversion Hy. reflexivity.
Qed.

Lemma C9_single_candidate_keeps_axis_witness :
  let sample := SliceSpec (Some 2%Z) (Some 3%Z) (Some 1%Z) in
  guard_single [2] = AsList [[2]]
  /\ (exists ixts exts,
        load_source_params Scenario.same false sample Scenario.volume
        = Ok ([2], ixts, exts)
        /\ shape ixts = [1; 1]
        /\ shape exts = [1; 1]
        /\ (forall j, get ixts [0; j] = get (Ks Scenario.volume) [2; j])
        /\ (forall j, get exts [0; j]
                      = Scenario.same (get (w2cs Scenario.volume) [2; j])))
  /\ (forall y, index_int (Ks Scenario.volume) 2 = Ok y ->
                length (shape y) = 1).
Proof.
  intros sample.
  apply (@C9_single_candidate_keeps_axis float float_scalar Scenario.Mat
           Scenario.same false sample Scenario.volume 2).
  - reflexivity.
  - reflexivity.
Defined.

(** C10. The constructor stores [[n_views]] when it is given the count list
    [[0]], and the given list in every other case. With [[n_views]] stored, a
    plain query can only draw the count [n_views]; it does draw it when
    [n_srcs_prob] is one weight whose total is positive and finite, and with
    any other number of weights the draw raises [ValueError]. A query that
    comes with its count keeps that count. *)
Theorem C10_zero_count_means_all_views :
  forall (F : Type) (S : Scalar F) (NK : NormKernel F) (SK : SortKernel F)
         (Mat : Type) (pad inv : Mat -> Mat)
         (tr : Mat -> vec3 F) (a : @args F) (b : @base F Mat)
         (ds : @dataset F Mat),
    init pad inv tr a b = Ok ds ->
    (a_n_srcs_list a = [0] ->
     n_srcs_list ds = [n_views b]
     /\ (forall index g p g',
            resolve_query ds (Plain index) g = Ok (p, g') ->
            p = (index, n_views b))
     /\ (forall index g w,
            n_srcs_prob ds = [w] ->
            (w + 0 <=? 0)%float = false ->
            PrimFloat.is_finite (w + 0)%float = true ->
            resolve_query ds (Plain index) g
            = Ok ((index, n_views b), snd (next g)))
     /\ (forall index g,
            length (n_srcs_prob ds) <> 1 ->
            resolve_query ds (Plain index) g = Raise ValueError))
    /\ (forall index n g,
          resolve_query ds (Resolved index n) g = Ok ((index, n), g))
    /\ (a_n_srcs_list a <> [0] -> n_srcs_list ds = a_n_srcs_list a).
Proof.
  intros F S NK SK Mat pad inv tr a b ds Hinit.
  destruct (init_fields _ _ _ _ _ Hinit) as (_ & _ & _ & _ & _ & _ & Hlist).
  split; [|split].
  - intros Hzero. rewrite Hzero in Hlist. simpl in Hlist.
    split; [exact Hlist|]. split; [|split].
    + intros index g p g' Hrun.
      unfold resolve_query, bind, ret in Hrun. rewrite Hlist in Hrun.
      destruct (choices [n_views b] (n_srcs_prob ds) g) as [[k g1]|] eqn:E;
        [|discriminate].
      apply choices_single_value in E. subst k.
      inversion Hrun. reflexivity.
    + intros index g w Hw Hpos Hfin.
      unfold resolve_query, bind, ret. rewrite Hlist, Hw.
      rewrite choices_single, Hpos, Hfin. reflexivity.
    + intros index g Hlen.
      unfold resolve_query, bind, ret. rewrite Hlist.
      unfold choices. rewrite accumulate_length.
      change (length [n_views b]) with 1.
      apply Nat.eqb_neq in Hlen. rewrite Hlen. reflexivity.
  - intros index n g. reflexivity.
  - intros Hother. rewrite Hlist.
    destruct (a_n_srcs_list a) as [|x [|y l]]; try reflexivity.
    destruct x as [|x]; [contradiction Hother; reflexivity|reflexivity].
Qed.

Lemma C10_zero_count_means_all_views_witness :
  let ds := Scenario.built Scenario.whole in
  (n_srcs_list ds = [6]
   /\ (forall index g,
          resolve_query ds (Plain index) g = Ok ((index, 6), snd (next g))))
  /\ n_srcs_list (Scenario.built Scenario.training) = [2; 3; 4].
Proof.
  intros ds. split.
  - destruct (proj1 (@C10_zero_count_means_all_views float float_scalar
                       Scenario.norm_kernel Scenario.sort_kernel
                       Scenario.Mat Scenario.same Scenario.opposite
                       Scenario.same Scenario.whole Scenario.volume ds
                       ltac:(vm_compute; reflexivity)) eq_refl)
      as (Hlist & _ & Hdraw & _).
    split; [exact Hlist|].
    intros index g. apply (Hdraw index g 1%float); reflexivity.
  - apply (proj2 (proj2 (@C10_zero_count_means_all_views float float_scalar
                    Scenario.norm_kernel Scenario.sort_kernel
                    Scenario.Mat Scenario.same Scenario.opposite
                    Scenario.same Scenario.training Scenario.volume
                    (Scenario.built Scenario.training)
                    ltac:(vm_compute; reflexivity)))).
    discriminate.
Defined.

(** C10, as it is stated, fails: with the count list [[0]] and the three
    weights that the constructor has by default, [[n_views]] is stored, but
    no plain query draws a count, for the draw raises; and a query that
    comes with the count 2 gets two sources, not [n_views]. *)
Lemma C10_counterexample :
  let ds := Scenario.built Scenario.unweighted in
  Scenario.build Scenario.unweighted = Ok ds
  /\ a_n_srcs_list Scenario.unweighted = [0]
  /\ a_n_srcs_prob Scenario.unweighted = a_n_srcs_prob (@default_args float)
  /\ n_srcs_list ds = [6]
  /\ (forall index g, resolve_query ds (Plain index) g = Raise ValueError)
  /\ (forall index g, get_metadata ds (Plain index) g = Raise ValueError)
  /\ selected (get_metadata ds (Resolved 5 2)
                 (Scenario.draws [Scenario.half; 0%N; 0%N]))
     = Ok [1; 3].
Proof.
  intros ds.
  split; [vm_compute; reflexivity|].
  split; [reflexivity|].
  split; [reflexivity|].
  split; [vm_compute; reflexivity|].
  assert (Hdraw : forall index g,
             resolve_query ds (Plain index) g = Raise ValueError)
    by (intros index g; reflexivity).
  split; [exact Hdraw|].
  split.
  - intros index g. unfold get_metadata, bind. rewrite Hdraw. reflexivity.
  - vm_compute. reflexivity.
Qed.

(** * Further properties *)

Import Further.

(** ** Slices of the candidate axis *)

(** The number of positions of [range(i, stop, step)]. *)
Lemma stride_spec (fuel : nat) :
  forall i stop step : Z,
    (0 < step)%Z -> (stop - i <= Z.of_nat fuel)%Z ->
    stride fuel i stop step
    = map (fun k => Z.to_nat (i + Z.of_nat k * step))
        (seq 0 (Z.to_nat ((stop - i + step - 1) / step))).
Proof.
  induction fuel as [|fuel IH]; intros i stop step Hstep Hfuel; simpl.
  - replace (Z.to_nat ((stop - i + step - 1) / step)) with 0; [reflexivity|].
    assert (Hq : ((stop - i + step - 1) / step < 1)%Z)
      by (apply Z.div_lt_upper_bound; lia).
    lia.
  - destruct (i <? stop)%Z eqn:E.
    + apply Z.ltb_lt in E.
      replace ((stop - i + step - 1) / step)%Z
        with (1 + (stop - (i + step) + step - 1) / step)%Z
        by (rewrite <- Z.div_add_l by lia; f_equal; lia).
      assert (Hq : (0 <= (stop - (i + step) + step - 1) / step)%Z)
        by (apply Z.div_pos; lia).
      rewrite Z2Nat.inj_add by lia. simpl Z.to_nat.
      replace (Pos.to_nat 1) with 1 by reflexivity.
      simpl seq. simpl map. f_equal; [f_equal; lia|].
      rewrite <- seq_shift, map_map.
      rewrite (IH (i + step)%Z stop step) by lia.
      apply map_ext. intros k. f_equal. lia.
    + apply Z.ltb_ge in E.
      replace (Z.to_nat ((stop - i + step - 1) / step)) with 0;
        [reflexivity|].
      assert (Hq : ((stop - i + step - 1) / step < 1)%Z)
        by (apply Z.div_lt_upper_bound; lia).
      lia.
Qed.

Lemma progression_sorted (lo st : Z) (c : nat) :
  (0 <= lo)%Z -> (0 < st)%Z ->
  forall a,
    StronglySorted lt
      (map (fun k => Z.to_nat (lo + Z.of_nat k * st)) (seq a c)).
Proof.
  intros Hlo Hst. induction c as [|c IH]; intros a; simpl.
  - constructor.
  - constructor; [apply IH|].
    apply Forall_forall. intros p Hp.
    apply in_map_iff in Hp. destruct Hp as (k & Hk & Hin).
    apply in_seq in Hin. subst p. nia.
Qed.

Lemma clamp_bound_range (n : nat) (bound : option Z) (dflt : Z) :
  (0 <= dflt <= Z.of_nat n)%Z ->
  (0 <= clamp_bound (Z.of_nat n) bound dflt <= Z.of_nat n)%Z.
Proof.
  intros Hd. unfold clamp_bound. destruct bound as [v|]; [|exact Hd].
  destruct (v <? 0)%Z eqn:E.
  - apply Z.ltb_lt in E. lia.
  - apply Z.ltb_ge in E. lia.
Qed.

Lemma slice_positions_spec (n : nat) (start stop step : option Z) :
  let st := match step with Some s => s | None => 1%Z end in
  let lo := clamp_bound (Z.of_nat n) start 0%Z in
  let hi := clamp_bound (Z.of_nat n) stop (Z.of_nat n) in
  slice_positions n start stop step
  = if (st <=? 0)%Z then Raise ValueError
    else Ok (map (fun k => Z.to_nat (lo + Z.of_nat k * st))
               (seq 0 (Z.to_nat ((hi - lo + st - 1) / st)))).
Proof.
  intros st lo hi. unfold slice_positions. fold st lo hi.
  destruct (st <=? 0)%Z eqn:E; [reflexivity|].
  apply Z.leb_gt in E. f_equal.
  apply stride_spec; [exact E|].
  pose proof (@clamp_bound_range n start 0%Z ltac:(lia)).
  pose proof (@clamp_bound_range n stop (Z.of_nat n) ltac:(lia)).
  fold lo in H. fold hi in H0. lia.
Qed.

(** X1. A slice [[start, stop, step]] of an axis of [n] entries selects the
    positions [lo + k * step] below [hi], where [lo] and [hi] are the bounds
    as Python clamps them: they ascend strictly and lie below [n]. A step
    that is not positive is refused, and the default [[0, None, 1]] selects
    every position. *)
Theorem X1_slice_selects_progression :
  (forall (n : nat) (start stop step : option Z) (l : list nat),
      select_views n (SliceSpec start stop step) = Ok l ->
      let st := match step with Some s => s | None => 1%Z end in
      let lo := clamp_bound (Z.of_nat n) start 0%Z in
      let hi := clamp_bound (Z.of_nat n) stop (Z.of_nat n) in
      (0 < st)%Z
      /\ l = map (fun k => Z.to_nat (lo + Z.of_nat k * st))
               (seq 0 (Z.to_nat ((hi - lo + st - 1) / st)))
      /\ StronglySorted lt l
      /\ Forall (fun p => p < n) l)
  /\ (forall (n : nat) (start stop : option Z) (s : Z),
        (s <= 0)%Z ->
        select_views n (SliceSpec start stop (Some s)) = Raise ValueError)
  /\ (forall n : nat,
        select_views n (SliceSpec (Some 0%Z) None (Some 1%Z))
        = Ok (seq 0 n)).
Proof.
  split; [|split].
  - intros n start stop step l Hl st lo hi.
    pose proof (select_views_bound _ _ Hl) as Hbound.
    simpl in Hl. rewrite slice_positions_spec in Hl. fold st lo hi in Hl.
    destruct (st <=? 0)%Z eqn:E; [discriminate|].
    apply Z.leb_gt in E. inversion Hl as [Heq].
    split; [exact E|]. split; [reflexivity|]. split; [|rewrite Heq; exact Hbound].
    apply progression_sorted; [|exact E].
    apply (@clamp_bound_range n start 0%Z). lia.
  - intros n start stop s Hs. simpl. unfold slice_positions.
    apply Z.leb_le in Hs. rewrite Hs. reflexivity.
  - intros n. simpl. rewrite slice_positions_spec. simpl.
    f_equal. rewrite Z.min_l by lia.
    rewrite Z.add_simpl_r, Z.sub_0_r, Z.div_1_r, Nat2Z.id.
    rewrite <- (map_id (seq 0 n)) at 2.
    apply map_ext. intros k. lia.
Qed.

Lemma X1_slice_selects_progression_witness :
  select_views 6 (SliceSpec (Some 1%Z) (Some (-1)%Z) (Some 2%Z)) = Ok [1; 3]
  /\ StronglySorted lt [1; 3]
  /\ Forall (fun p => p < 6) [1; 3].
Proof.
  assert (Hl : select_views 6 (SliceSpec (Some 1%Z) (Some (-1)%Z) (Some 2%Z))
               = Ok [1; 3]) by reflexivity.
  split; [exact Hl|].
  exact (proj2 (proj2 (proj1 X1_slice_selects_progression 6 _ _ _ _ Hl))).
Defined.

(** ** The constructor on well-shaped cameras *)

Section ConstructorFacts.

Context {F : Type} `{Scalar F} {NK : NormKernel F} {SK : SortKernel F}.
Variable Mat : Type.
Variable affine_padding : Mat -> Mat.
Variable affine_inverse : Mat -> Mat.
Variable translation : Mat -> vec3 F.

Local Abbreviation Base := (@base F Mat).
Local Abbreviation Args := (@args F).
Local Abbreviation Dataset := (@dataset F Mat).

Lemma in_range_true (d : nat) (inds : list nat) :
  Forall (fun i => i < d) inds -> in_range d inds = true.
Proof. apply in_range_spec. Qed.

(** Once the sample is a valid selection, the cameras of the candidates are
    read without an error, and entry [c] of the result is the camera of the
    [c]-th selected position. *)
Lemma load_source_params_ok (by_time : bool) (s : sample_spec) (b : Base)
    (vi : list nat) :
  base_wf b = true ->
  select_views (length (if by_time then frame_inds b else view_inds b)) s
  = Ok vi ->
  exists ixts exts,
    load_source_params affine_padding by_time s b = Ok (vi, ixts, exts)
    /\ (forall c l, get ixts [c; l]
                    = get (Ks b) (camera_at by_time (nth c vi 0) l))
    /\ (forall c l, get exts [c; l]
                    = affine_padding
                        (get (w2cs b) (camera_at by_time (nth c vi 0) l))).
Proof.
  intros Hwf Hsel.
  destruct (base_wf_shapes b Hwf) as (HK & Hw & _).
  pose proof (select_views_bound _ _ Hsel) as Hbound.
  apply in_range_true in Hbound.
  unfold load_source_params. rewrite Hsel. simpl rbind.
  unfold guard_single.
  destruct by_time; destruct (length vi =? 1) eqn:E.
  - destruct vi as [|k [|k' vi]]; simpl in E; try discriminate E.
    unfold index_dim1, index_list_dim1, index_tensor_dim1.
    cbn [tensor_of_items mapM rbind]. rewrite HK, Hw, Hbound.
    cbn [rbind tmap shape permute_1_0].
    eexists. eexists. split; [reflexivity|].
    simpl. split; intros c l; reflexivity.
  - unfold index_dim1, index_tensor_dim1. rewrite HK, Hw, Hbound.
    cbn [rbind tmap shape permute_1_0].
    eexists. eexists. split; [reflexivity|].
    simpl. split; intros c l; reflexivity.
  - destruct vi as [|k [|k' vi]]; simpl in E; try discriminate E.
    unfold index_dim0, index_list. rewrite HK, Hw.
    cbn [length Nat.leb forallb combine fst snd Nat.eqb andb].
    rewrite Hbound. cbn [andb rbind].
    eexists. eexists. split; [reflexivity|].
    simpl. split; intros c l; reflexivity.
  - unfold index_dim0, index_tensor. rewrite HK, Hw, Hbound.
    cbn [rbind].
    eexists. eexists. split; [reflexivity|].
    simpl. split; intros c l; reflexivity.
Qed.

(** On cameras of matching shapes the ranking is built without an error, and
    the similarity it sorts is the inverse distance of the two centers. *)
Lemma load_source_indices_ok (by_time : bool) (b : Base)
    (exts : tensor Mat) (n : nat) :
  base_wf b = true ->
  shape exts = [n; if by_time then length (view_inds b)
                   else length (frame_inds b)] ->
  exists unsorted,
    load_source_indices affine_inverse translation by_time b exts
    = Ok (sort_dim1 before unsorted)
    /\ shape unsorted = [if by_time then length (frame_inds b)
                         else length (view_inds b);
                         n;
                         if by_time then length (view_inds b)
                         else length (frame_inds b)]
    /\ forall t c l,
        l < (if by_time then length (view_inds b)
             else length (frame_inds b)) ->
        get unsorted [t; c; l]
        = f_div f_one
            (norm (vsub (translation (affine_inverse (get exts [c; l])))
                     (translation (get (c2ws b) (camera_at by_time t l))))).
Proof.
  intros Hwf Hexts.
  destruct (base_wf_shapes b Hwf) as (_ & _ & Hc).
  unfold load_source_indices, target_c2ws.
  destruct by_time.
  - unfold permute_1_0. rewrite Hc. simpl rbind.
    unfold similarities. simpl shape. rewrite Hexts.
    unfold broadcast_dim. rewrite Nat.eqb_refl. simpl rbind.
    eexists. split; [reflexivity|]. split; [reflexivity|].
    intros t c l Hl. simpl.
    destruct (length (view_inds b) =? 1) eqn:E.
    + apply Nat.eqb_eq in E. replace l with 0 by lia. reflexivity.
    + reflexivity.
  - simpl rbind. unfold similarities. simpl shape. rewrite Hexts, Hc.
    unfold broadcast_dim. rewrite Nat.eqb_refl. simpl rbind.
    eexists. split; [reflexivity|]. split; [reflexivity|].
    intros t c l Hl. simpl.
    destruct (length (frame_inds b) =? 1) eqn:E.
    + apply Nat.eqb_eq in E. replace l with 0 by lia. reflexivity.
    + reflexivity.
Qed.

Lemma select_views_errors (n : nat) (s : sample_spec) (e : exn) :
  select_views n s = Raise e -> e = ValueError \/ e = IndexError.
Proof.
  assert (Hslice : forall start stop step,
             slice_positions n start stop step = Raise e -> e = ValueError).
  { intros start stop step. unfold slice_positions.
    destruct (_ <=? 0)%Z; intros Hr; inversion Hr; reflexivity. }
  assert (Hwrap : forall positions,
             mapM (wrap_position n) positions = Raise e -> e = IndexError).
  { induction positions as [|z positions IH]; simpl; [discriminate|].
    unfold wrap_position at 1.
    destruct (_ && _); simpl.
    - destruct (mapM (wrap_position n) positions); simpl;
        [discriminate|].
      intros Hr. apply IH. exact Hr.
    - intros Hr. inversion Hr. reflexivity. }
  unfold select_views. destruct s as [start stop step|positions].
  - intros Hr. left. eapply Hslice, Hr.
  - destruct positions as [|b0 [|e0 [|st [|x positions]]]]; intros Hr;
      try (right; eapply Hwrap, Hr).
    left. eapply Hslice, Hr.
Qed.

(** The parts of a dataset, as the constructor has computed them. *)
Lemma init_components (a : Args) (b : Base) (ds : Dataset) :
  init affine_padding affine_inverse translation a b = Ok ds ->
  parent ds = b
  /\ closest_using_t ds = a_closest_using_t a
  /\ load_source_params affine_padding (a_closest_using_t a)
       (a_src_view_sample a) b
     = Ok (src_view_inds ds, src_ixts ds, src_exts ds)
  /\ load_source_indices affine_inverse translation (a_closest_using_t a) b
       (src_exts ds)
     = Ok (src_sims ds, src_inds ds).
Proof.
  unfold init. intros Hinit.
  inv_result. destruct a0 as [[vi ixts] exts]. inv_result.
  destruct a0 as [sims inds]. inv_result.
  simpl. repeat split; assumption.
Qed.

Lemma load_source_params_selected (by_time : bool) (s : sample_spec)
    (b : Base) vi ixts exts :
  load_source_params affine_padding by_time s b = Ok (vi, ixts, exts) ->
  select_views (length (if by_time then frame_inds b else view_inds b)) s
  = Ok vi.
Proof.
  unfold load_source_params.
  destruct (select_views _ s) as [vi'|]; simpl; [|discriminate].
  destruct by_time; intros Hl; inv_result; reflexivity.
Qed.

(** The cameras that a constructed dataset holds for its candidates. *)
Lemma init_source_cameras (a : Args) (b : Base) (ds : Dataset) :
  base_wf b = true ->
  init affine_padding affine_inverse translation a b = Ok ds ->
  (forall c l, get (src_ixts ds) [c; l]
               = get (Ks b)
                   (camera_at (closest_using_t ds)
                      (nth c (src_view_inds ds) 0) l))
  /\ (forall c l, get (src_exts ds) [c; l]
                  = affine_padding
                      (get (w2cs b)
                         (camera_at (closest_using_t ds)
                            (nth c (src_view_inds ds) 0) l))).
Proof.
  intros Hwf Hinit.
  destruct (init_components _ _ Hinit) as (_ & Hct & Hparams & _).
  pose proof (load_source_params_selected _ _ _ Hparams) as Hsel.
  destruct (load_source_params_ok _ _ _ Hwf Hsel)
    as (ixts & exts & Hload & Hixts & Hexts).
  rewrite Hload in Hparams. inversion Hparams; subst.
  rewrite Hct. split; assumption.
Qed.

End ConstructorFacts.

(** X2. On cameras whose tensors have a view axis and a frame axis, the
    constructor succeeds exactly when its four assertions hold and
    [src_view_sample] is a valid selection of the candidate axis: reading the
    candidate cameras and building the ranking never fail on their own, and
    no shape error is ever raised. *)
Theorem X2_constructor_outcome :
  forall (F : Type) (S : Scalar F) (NK : NormKernel F) (SK : SortKernel F)
         (Mat : Type) (pad inv : Mat -> Mat)
         (tr : Mat -> vec3 F) (a : @args F) (b : @base F Mat),
    base_wf b = true ->
    is_ok (init pad inv tr a b)
    = init_checks a b
      && is_ok (select_views (candidate_axis a b) (a_src_view_sample a))
    /\ init pad inv tr a b <> Raise RuntimeError.
Proof.
  intros F S NK SK Mat pad inv tr a b Hwf.
  unfold init, init_checks, candidate_axis.
  destruct (negb (a_closest_using_t a) || is_default_sample (frame_sample b)
            || a_force_sparse_view a); simpl;
    [|split; [reflexivity|discriminate]].
  destruct (is_default_sample (view_sample b) || a_force_sparse_view a);
    simpl; [|split; [reflexivity|discriminate]].
  destruct (cache_raw b && negb (a_supply_decoded a)); simpl;
    [split; [reflexivity|discriminate]|].
  destruct (select_views
              (length (if a_closest_using_t a then frame_inds b
                       else view_inds b)) (a_src_view_sample a))
    as [vi|e] eqn:Hsel.
  - destruct (load_source_params_ok pad _ _ _ Hwf Hsel)
      as (ixts & exts & Hload & _).
    rewrite Hload. simpl rbind.
    destruct (load_source_params_shape _ _ _ _ Hwf Hload) as [_ Hshape].
    destruct (load_source_indices_ok inv tr _ _ _ Hwf Hshape)
      as (unsorted & Hinds & _).
    rewrite Hinds. simpl rbind.
    destruct (a_use_object_prior a
              && match a_objects_bounds a with
                 | Some _ => false
                 | None => true
                 end
              && negb (use_smpls b) && negb (use_vhulls b)); simpl;
      split; try reflexivity; discriminate.
  - unfold load_source_params. rewrite Hsel. simpl.
    rewrite andb_false_r. split; [reflexivity|].
    intros Hr. inversion Hr as [He].
    destruct (select_views_errors _ _ Hsel) as [Hv|Hv];
      rewrite Hv in He; discriminate He.
Qed.

Lemma X2_constructor_outcome_witness :
  is_ok (Scenario.build Scenario.training) = true
  /\ Scenario.build Scenario.training <> Raise RuntimeError.
Proof.
  exact (@X2_constructor_outcome float float_scalar Scenario.norm_kernel
           Scenario.sort_kernel Scenario.Mat
           Scenario.same Scenario.opposite Scenario.same
           Scenario.training Scenario.volume eq_refl).
Defined.

(** X3. The similarity that a constructed dataset stores at a rank, for a
    target and a secondary index, is the inverse of the distance between the
    center of the candidate camera listed at that rank and the center of the
    target camera, both at the secondary index, the distance being what the
    norm kernel answers for their difference; the candidate is a position
    of [src_view_inds]. With [closest_using_t] the roles of the view axis and
    the frame axis of the camera tensors are exchanged. *)
Theorem X3_stored_similarity_is_inverse_distance :
  forall (F : Type) (S : Scalar F) (NK : NormKernel F) (SK : SortKernel F)
         (Mat : Type) (pad inv : Mat -> Mat)
         (tr : Mat -> vec3 F) (a : @args F) (b : @base F Mat)
         (ds : @dataset F Mat) (t r l : nat),
    base_wf b = true ->
    init pad inv tr a b = Ok ds ->
    r < num_candidates ds ->
    l < num_extra ds ->
    let c := get (src_inds ds) [t; r; l] in
    let view := nth c (src_view_inds ds) 0 in
    c < num_candidates ds
    /\ get (src_sims ds) [t; r; l]
       = f_div f_one
           (norm
              (vsub
                 (tr (inv (pad (get (w2cs b)
                                  (camera_at (closest_using_t ds) view l)))))
                 (tr (get (c2ws b)
                        (camera_at (closest_using_t ds) t l))))).
Proof.
  intros F S NK SK Mat pad inv tr a b ds t r l Hwf Hinit Hr Hl c view.
  destruct (init_components _ _ _ _ _ Hinit)
    as (Hparent & Hct & Hparams & Hinds).
  destruct (load_source_params_shape _ _ _ _ Hwf Hparams) as [_ Hshape].
  destruct (load_source_indices_ok inv tr _ _ _ Hwf Hshape)
    as (unsorted & Hload & Hun & Hformula).
  rewrite Hload in Hinds.
  assert (Hsims : src_sims ds = fst (sort_dim1 before unsorted))
    by (inversion Hinds; reflexivity).
  assert (Hsort : src_inds ds = snd (sort_dim1 before unsorted))
    by (inversion Hinds; reflexivity).
  clear Hinds.
  assert (Hdim : dim unsorted 1 = num_candidates ds)
    by (unfold dim; rewrite Hun; reflexivity).
  destruct (@sort_dim1_lookup _ _ _ unsorted t l r) as [Hc Hlook];
    [rewrite Hdim; exact Hr|].
  rewrite <- Hsort in Hc, Hlook. rewrite <- Hsims in Hlook.
  fold c in Hc, Hlook. rewrite Hdim in Hc.
  split; [exact Hc|].
  rewrite Hlook.
  assert (Hl' : l < (if a_closest_using_t a then length (view_inds b)
                     else length (frame_inds b))).
  { unfold num_extra in Hl. rewrite Hparent, Hct in Hl. exact Hl. }
  rewrite (Hformula t c l Hl').
  destruct (init_source_cameras _ _ _ _ _ Hwf Hinit) as [_ Hexts].
  rewrite Hexts, Hct. reflexivity.
Qed.

Lemma X3_stored_similarity_is_inverse_distance_witness :
  let ds := Scenario.built Scenario.training in
  let c := get (src_inds ds) [5; 2; 0] in
  c < num_candidates ds
  /\ get (src_sims ds) [5; 2; 0]
     = f_div f_one
         (norm (NK := Scenario.norm_kernel)
            (vsub
               (Scenario.same
                  (Scenario.opposite
                     (Scenario.same
                        (get (w2cs Scenario.volume)
                           (camera_at (closest_using_t ds)
                              (nth c (src_view_inds ds) 0) 0)))))
               (Scenario.same
                  (get (c2ws Scenario.volume)
                     (camera_at (closest_using_t ds) 5 0))))).
Proof.
  intros ds.
  apply (@X3_stored_similarity_is_inverse_distance float float_scalar
           Scenario.norm_kernel Scenario.sort_kernel
           Scenario.Mat Scenario.same Scenario.opposite Scenario.same
           Scenario.training Scenario.volume ds 5 2 0).
  - reflexivity.
  - vm_compute. reflexivity.
  - vm_compute. lia.
  - vm_compute. lia.
Defined.

Lemma index_pairs_result {A : Type} (x : Torch.tensor A) (inds : list nat)
    (l : nat) (items : list A) :
  index_pairs x inds l = Ok items ->
  items = map (fun s => get x [s; l]) inds.
Proof.
  unfold index_pairs.
  destruct (shape x) as [|d0 [|d1 [|d2 rest]]]; try discriminate.
  destruct (_ && _); [|discriminate].
  intros Hr. inversion Hr. reflexivity.
Qed.

Lemma gather_result (x inds items : list nat) :
  gather x inds = Ok items -> items = map (fun i => nth i x 0) inds.
Proof.
  unfold gather. destruct (in_range _ _); [|discriminate].
  intros Hr. inversion Hr. reflexivity.
Qed.

Lemma resolve_query_index {F : Type} {Mat : Type} (ds : @dataset F Mat)
    (q : query) (g g' : rng) (index n : nat) :
  resolve_query ds q g = Ok (index, n, g') -> index = query_index q.
Proof.
  destruct q as [i k|i]; simpl; unfold bind, ret.
  - intros Hr. inversion Hr. reflexivity.
  - destruct (choices _ _ g) as [[k g1]|]; [|discriminate].
    intros Hr. inversion Hr. reflexivity.
Qed.

(** The steps of a successful [get_metadata]. *)
Lemma get_metadata_steps {F : Type} {Mat : Type} (ds : @dataset F Mat)
    (q : query) (g g' : rng) (m : metadata Mat) :
  get_metadata ds q g = Ok (m, g') ->
  exists n g1,
    resolve_query ds q g = Ok (query_index q, n, g1)
    /\ (m_view_index m, m_latent_index m)
       = get_cameras (parent ds) (query_index q)
    /\ m_t_inds m
       = snd (selection_axes (closest_using_t ds) (m_view_index m)
                (m_latent_index m))
    /\ select_sources ds
         (fst (selection_axes (closest_using_t ds) (m_view_index m)
                 (m_latent_index m)))
         (m_t_inds m) n g1
       = Ok (m_selection m, g')
    /\ m_src_exts m
       = map (fun s => get (src_exts ds) [s; m_t_inds m]) (m_selection m)
    /\ m_src_ixts m
       = map (fun s => get (src_ixts ds) [s; m_t_inds m]) (m_selection m)
    /\ m_src_inds m
       = map (fun s => nth s (src_view_inds ds) 0) (m_selection m).
Proof.
  unfold get_metadata, bind. intros Hget.
  destruct (resolve_query ds q g) as [[[index n] g1]|] eqn:Hq;
    [|discriminate].
  pose proof (resolve_query_index _ _ _ Hq) as Hindex. subst index.
  destruct (get_cameras (parent ds) (query_index q)) as [v l] eqn:Ecam.
  destruct (selection_axes (closest_using_t ds) v l) as [t e] eqn:Eax.
  destruct (select_sources ds t e n g1) as [[sel g2]|] eqn:Hsel;
    [|discriminate].
  unfold lift in Hget.
  destruct (as_index (negb (extra_src_pool ds =? 0)) sel) as [sel'|]
    eqn:Hidx; [|discriminate].
  assert (sel' = sel)
    by (destruct sel; cbn [as_index] in Hidx;
        [destruct (negb (extra_src_pool ds =? 0)); [discriminate|]|];
        inversion Hidx; reflexivity).
  subst sel'. clear Hidx.
  destruct (index_pairs (src_exts ds) sel e) as [exts|] eqn:Hexts;
    [|discriminate].
  destruct (index_pairs (src_ixts ds) sel e) as [ixts|] eqn:Hixts;
    [|discriminate].
  destruct (gather (src_view_inds ds) sel) as [inds|] eqn:Hinds;
    [|discriminate].
  destruct (get_sources inds); [|discriminate].
  unfold ret in Hget. inversion Hget; subst. simpl.
  exists n, g1. rewrite Eax. simpl.
  repeat split; try assumption.
  - apply index_pairs_result, Hexts.
  - apply index_pairs_result, Hixts.
  - apply gather_result, Hinds.
Qed.

(** X4. In the result of a successful [get_metadata] of a constructed
    dataset, [src_inds] holds the entries of [src_view_inds] at the selected
    candidates, and [src_exts] and [src_ixts] hold, in the same order, the
    padded extrinsics and the intrinsics that the base dataset stores for
    those entries at the query's other index [t_inds]. The camera of the
    query is the one the base class returns for the index. *)
Theorem X4_metadata_cameras_follow_selection :
  forall (F : Type) (S : Scalar F) (NK : NormKernel F) (SK : SortKernel F)
         (Mat : Type) (pad inv : Mat -> Mat)
         (tr : Mat -> vec3 F) (a : @args F) (b : @base F Mat)
         (ds : @dataset F Mat) (q : query) (g g' : rng)
         (m : metadata Mat),
    base_wf b = true ->
    init pad inv tr a b = Ok ds ->
    get_metadata ds q g = Ok (m, g') ->
    (m_view_index m, m_latent_index m) = get_cameras b (query_index q)
    /\ m_t_inds m = (if closest_using_t ds then m_view_index m
                     else m_latent_index m)
    /\ m_src_inds m
       = map (fun c => nth c (src_view_inds ds) 0) (m_selection m)
    /\ m_src_exts m
       = map (fun view =>
                pad (get (w2cs b)
                       (camera_at (closest_using_t ds) view (m_t_inds m))))
           (m_src_inds m)
    /\ m_src_ixts m
       = map (fun view =>
                get (Ks b)
                  (camera_at (closest_using_t ds) view (m_t_inds m)))
           (m_src_inds m).
Proof.
  intros F S NK SK Mat pad inv tr a b ds q g g' m Hwf Hinit Hget.
  destruct (get_metadata_steps _ _ _ Hget)
    as (n & g1 & _ & Hcam & Ht & _ & Hexts & Hixts & Hinds).
  destruct (init_components _ _ _ _ _ Hinit) as (Hparent & _).
  destruct (init_source_cameras _ _ _ _ _ Hwf Hinit) as [Hi He].
  rewrite Hparent in Hcam.
  split; [exact Hcam|].
  split; [rewrite Ht; unfold selection_axes;
          destruct (closest_using_t ds); reflexivity|].
  split; [exact Hinds|].
  rewrite Hexts, Hixts, Hinds, !map_map.
  split; apply map_ext; intros c; [apply He|apply Hi].
Qed.

Lemma X4_metadata_cameras_follow_selection_witness :
  let ds := Scenario.built Scenario.training in
  exists m g',
    get_metadata ds (Resolved 5 2) (Scenario.draws [7%N; 1%N; 3%N])
    = Ok (m, g')
    /\ m_src_inds m
       = map (fun c => nth c (src_view_inds ds) 0) (m_selection m)
    /\ m_src_exts m
       = map (fun view =>
                Scenario.same
                  (get (w2cs Scenario.volume)
                     (camera_at (closest_using_t ds) view (m_t_inds m))))
           (m_src_inds m).
Proof.
  intros ds.
  destruct (get_metadata ds (Resolved 5 2) (Scenario.draws [7%N; 1%N; 3%N]))
    as [[m g']|e] eqn:Hget; [|vm_compute in Hget; discriminate Hget].
  exists m, g'. split; [reflexivity|].
  destruct (@X4_metadata_cameras_follow_selection float float_scalar
              Scenario.norm_kernel Scenario.sort_kernel
              Scenario.Mat Scenario.same Scenario.opposite Scenario.same
              Scenario.training Scenario.volume ds (Resolved 5 2)
              (Scenario.draws [7%N; 1%N; 3%N]) g' m)
    as (_ & _ & Hinds & Hexts & _).
  - reflexivity.
  - vm_compute. reflexivity.
  - exact Hget.
  - split; assumption.
Defined.

(** ** The selection of a query *)

Lemma slice_positions_sorted (n : nat) (start stop step : option Z)
    (l : list nat) :
  slice_positions n start stop step = Ok l -> StronglySorted lt l.
Proof.
  rewrite slice_positions_spec.
  destruct (_ <=? 0)%Z eqn:E; [discriminate|].
  apply Z.leb_gt in E. intros Hl. inversion Hl.
  apply progression_sorted; [|exact E].
  apply (@clamp_bound_range n start 0%Z). lia.
Qed.

Lemma StronglySorted_lt_NoDup (l : list nat) : StronglySorted lt l -> NoDup l.
Proof.
  induction 1 as [|x l Hs IH Hx]; constructor; [|exact IH].
  intros Hin. rewrite Forall_forall in Hx. specialize (Hx x Hin). lia.
Qed.

(** The entries of a slice of a list, by their positions. *)
Lemma slice_In {A : Type} (a b : nat) (l : list A) (d x : A) :
  In x (slice a b l) ->
  exists k, a <= k < b /\ k < length l /\ nth k l d = x.
Proof.
  unfold slice. intros Hin.
  apply (In_nth _ _ d) in Hin. destruct Hin as (j & Hj & Hnth).
  rewrite length_firstn, length_skipn in Hj.
  rewrite nth_firstn in Hnth.
  destruct (j <? b - a) eqn:E; [|apply Nat.ltb_ge in E; lia].
  rewrite nth_skipn in Hnth.
  exists (a + j). repeat split; try lia. exact Hnth.
Qed.

Lemma map_nth_NoDup (l sel : list nat) :
  NoDup l -> NoDup sel -> Forall (fun i => i < length l) sel ->
  NoDup (map (fun i => nth i l 0) sel).
Proof.
  intros Hl Hsel Hbound.
  induction Hsel as [|i sel Hi Hsel IH]; simpl; constructor.
  - intros Hin. apply in_map_iff in Hin. destruct Hin as (j & Hj & Hin).
    inversion Hbound as [|? ? Hib Hrest]; subst.
    rewrite Forall_forall in Hrest.
    apply (proj1 (NoDup_nth l 0) Hl) in Hj;
      [subst j; exact (Hi Hin)|apply Hrest, Hin|exact Hib].
  - apply IH. inversion Hbound; assumption.
Qed.

Section SelectionWindow.

Context {F : Type} `{Scalar F} {NK : NormKernel F} {SK : SortKernel F}.
Variable Mat : Type.

Local Abbreviation Dataset := (@dataset F Mat).

Lemma select_sources_valid (ds : Dataset) (t e n : nat) (g g' : rng)
    (sel : list nat) :
  coherent ds ->
  select_sources ds t e n g = Ok (sel, g') ->
  t < num_targets ds /\ e < num_extra ds.
Proof.
  intros ((sims0 & Hshape & _ & Hinds) & _).
  unfold select_sources, bind, random, lift, select_lane.
  rewrite Hinds. simpl shape. rewrite Hshape.
  destruct (t <? num_targets ds) eqn:Et; [|discriminate].
  destruct (e <? num_extra ds) eqn:Ee; [|discriminate].
  intros _. apply Nat.ltb_lt in Et, Ee. split; assumption.
Qed.

(** What a selection that succeeds returns: distinct candidates of the pool,
    the whole pool in rank order when it is not widened, and as many as were
    asked for when it is. *)
Lemma select_sources_window (ds : Dataset) (t e n : nat) (g g' : rng)
    (sel : list nat) :
  coherent ds ->
  select_sources ds t e n g = Ok (sel, g') ->
  let skip := remove_gt_of (append_gt_prob ds) (peek_random g) in
  let pool := slice skip (skip + n + extra_src_pool ds) (ranking ds t e) in
  NoDup sel
  /\ incl sel pool
  /\ length sel <= n
  /\ (extra_src_pool ds = 0 -> sel = pool /\ g' = snd (next g))
  /\ (0 < extra_src_pool ds -> length sel = n).
Proof.
  intros Hds Hsel skip pool.
  destruct (select_sources_valid _ _ _ _ Hds Hsel) as [Ht He].
  rewrite (select_sources_unfold n g Hds Ht He) in Hsel.
  fold skip in Hsel. fold pool in Hsel.
  assert (Hnd : NoDup pool) by (apply slice_NoDup, ranking_NoDup, Hds).
  destruct (extra_src_pool ds =? 0) eqn:E; cbn [negb] in Hsel.
  - apply Nat.eqb_eq in E. inversion Hsel; subst sel g'.
    repeat split; try assumption; try apply incl_refl; try lia.
    unfold pool. rewrite slice_length. lia.
  - apply Nat.eqb_neq in E.
    destruct (le_lt_dec n (length pool)) as [Hfit|Hshort].
    + destruct (@sample_ok pool n (snd (next g)) Hfit)
        as (sel' & g2 & Hrun & Hlen & Hin & Hnd').
      rewrite Hrun in Hsel. inversion Hsel; subst sel' g2.
      repeat split; auto; lia.
    + rewrite sample_raises in Hsel by exact Hshort. discriminate Hsel.
Qed.

End SelectionWindow.

(** X5. With no widened pool ([extra_src_pool = 0]) the selection of a
    query of a loaded camera never fails: it is the candidates of the stored
    ranking behind the skipped entries, in rank order, and reads one random
    number. When fewer candidates are left than the count asks for, the
    selection is shorter than the count, without an error. The query
    succeeds with that selection when it holds a candidate; when the count
    is zero or no candidate is left behind the skipped entry, loading the
    sources raises [ValueError]. *)
Theorem X5_unwidened_selection_in_rank_order :
  forall (F : Type) (S : Scalar F) (NK : NormKernel F) (SK : SortKernel F)
         (Mat : Type) (pad inv : Mat -> Mat)
         (tr : Mat -> vec3 F) (a : @args F) (b : @base F Mat)
         (ds : @dataset F Mat) (q : query) (index n : nat) (g0 g : rng),
    base_wf b = true ->
    init pad inv tr a b = Ok ds ->
    resolve_query ds q g0 = Ok ((index, n), g) ->
    camera_ok b index = true ->
    extra_src_pool ds = 0 ->
    let skip := remove_gt_of (append_gt_prob ds) (peek_random g) in
    let t := fst (query_axes ds index) in
    let e := snd (query_axes ds index) in
    let ranked := ranking ds t e in
    select_sources ds t e n g
    = Ok (slice skip (skip + n) ranked, snd (next g))
    /\ length (slice skip (skip + n) ranked)
       = Nat.min n (num_candidates ds - skip)
    /\ (1 <= n -> skip < num_candidates ds ->
        exists m,
          get_metadata ds q g0 = Ok (m, snd (next g))
          /\ m_selection m = slice skip (skip + n) ranked)
    /\ (n = 0 \/ num_candidates ds <= skip ->
        get_metadata ds q g0 = Raise ValueError).
Proof.
  intros F S NK SK Mat pad inv tr a b ds q index n g0 g Hwf Hinit Hq Hcam
         Hpool skip t e ranked.
  rewrite (get_metadata_after_resolve ds q g0 Hq).
  pose proof (init_coherent _ _ _ _ _ Hwf Hinit) as Hds.
  destruct (init_fields _ _ _ _ _ Hinit) as (Hparent & _).
  rewrite <- Hparent in Hcam.
  destruct (query_axes_valid ds index Hcam) as [Ht He].
  pose proof (get_metadata_resolved index n g Hds Hcam) as Hrun.
  simpl in Hrun.
  pose proof (select_sources_in_order n g Hds Ht He Hpool) as Hsel.
  simpl in Hsel. fold skip t e in Hsel. fold ranked in Hsel.
  fold t e in Hrun. rewrite Hsel in Hrun.
  specialize (Hrun (@slice_incl _ _ _ _)).
  assert (Hlen : length (slice skip (skip + n) ranked)
                 = Nat.min n (num_candidates ds - skip)).
  { rewrite slice_length. unfold ranked.
    rewrite ranking_length by exact Hds. lia. }
  split; [exact Hsel|]. split; [exact Hlen|]. split.
  - intros Hn Hskip.
    destruct (slice skip (skip + n) ranked) as [|c sel];
      [simpl in Hlen; lia|exact Hrun].
  - intros Hempty.
    destruct (slice skip (skip + n) ranked) as [|c sel];
      [|simpl in Hlen; lia].
    rewrite Hrun, Hpool. reflexivity.
Qed.

Lemma X5_unwidened_selection_in_rank_order_witness :
  let ds := Scenario.built Scenario.all_views in
  let g := Scenario.draws [Scenario.half] in
  let ranked := ranking ds (fst (query_axes ds 5)) (snd (query_axes ds 5)) in
  (exists m,
      get_metadata ds (Resolved 5 5) g = Ok (m, snd (next g))
      /\ m_selection m = slice 1 6 ranked)
  /\ length (slice 1 6 ranked) = 4
  /\ get_metadata ds (Resolved 5 0) g = Raise ValueError.
Proof.
  intros ds g ranked.
  split; [|split].
  - apply (@X5_unwidened_selection_in_rank_order float float_scalar
             Scenario.norm_kernel Scenario.sort_kernel
             Scenario.Mat Scenario.same Scenario.opposite Scenario.same
             Scenario.all_views Scenario.volume ds (Resolved 5 5) 5 5 g g);
      try reflexivity.
    + vm_compute. lia.
    + vm_compute. lia.
  - reflexivity.
  - apply (@X5_unwidened_selection_in_rank_order float float_scalar
             Scenario.norm_kernel Scenario.sort_kernel
             Scenario.Mat Scenario.same Scenario.opposite Scenario.same
             Scenario.all_views Scenario.volume ds (Resolved 5 0) 5 0 g g);
      try reflexivity.
    left. reflexivity.
Defined.

Lemma select_views_sorted (n : nat) (s : sample_spec) (l : list nat) :
  reads_as_slice s = true -> select_views n s = Ok l -> StronglySorted lt l.
Proof.
  destruct s as [start stop step|[|b0 [|e0 [|st [|x positions]]]]];
    simpl; try discriminate; intros _; apply slice_positions_sorted.
Qed.

(** The selection of a successful query, in terms of the stored ranking. *)
Lemma get_metadata_window {F : Type} `{Scalar F} {SK : SortKernel F}
    {Mat : Type}
    (ds : @dataset F Mat) (q : query) (g0 g' : rng) (m : metadata Mat) :
  coherent ds ->
  get_metadata ds q g0 = Ok (m, g') ->
  exists n g,
    resolve_query ds q g0 = Ok (query_index q, n, g)
    /\ let skip := remove_gt_of (append_gt_prob ds) (peek_random g) in
       let ranked := ranking ds (fst (query_axes ds (query_index q)))
                       (snd (query_axes ds (query_index q))) in
       NoDup (m_selection m)
       /\ length (m_selection m) <= n
       /\ incl (m_selection m)
            (slice skip (skip + n + extra_src_pool ds) ranked).
Proof.
  intros Hds Hget.
  destruct (get_metadata_steps _ _ _ Hget)
    as (n & g & Hq & Hcam & Ht & Hsel & _).
  exists n, g. split; [exact Hq|].
  assert (Hax : query_axes ds (query_index q)
                = selection_axes (closest_using_t ds) (m_view_index m)
                    (m_latent_index m))
    by (unfold query_axes; rewrite <- Hcam; reflexivity).
  rewrite Hax, <- Ht.
  destruct (select_sources_window _ _ _ _ Hds Hsel)
    as (Hnd & Hincl & Hlen & _).
  repeat split; assumption.
Qed.

(** X6. Whatever a successful query returns, its selected candidates are
    pairwise distinct, at most as many as the count, and each of them stands
    in the stored ranking of the query at a rank from the number of skipped
    entries up to, but not including, that number plus the count plus
    [extra_src_pool]. So when the draw exceeds [append_gt_prob] the
    top-ranked candidate is never among the sources. *)
Theorem X6_selection_within_pool_window :
  forall (F : Type) (S : Scalar F) (NK : NormKernel F) (SK : SortKernel F)
         (Mat : Type) (pad inv : Mat -> Mat)
         (tr : Mat -> vec3 F) (a : @args F) (b : @base F Mat)
         (ds : @dataset F Mat) (q : query) (g0 g' : rng)
         (m : metadata Mat),
    base_wf b = true ->
    init pad inv tr a b = Ok ds ->
    get_metadata ds q g0 = Ok (m, g') ->
    exists n g,
      resolve_query ds q g0 = Ok (query_index q, n, g)
      /\ let skip := remove_gt_of (append_gt_prob ds) (peek_random g) in
         let ranked := ranking ds (fst (query_axes ds (query_index q)))
                         (snd (query_axes ds (query_index q))) in
         NoDup (m_selection m)
         /\ length (m_selection m) <= n
         /\ (forall c, In c (m_selection m) ->
               exists k, skip <= k < skip + n + extra_src_pool ds
                         /\ k < num_candidates ds
                         /\ nth k ranked 0 = c)
         /\ (skip = 1 -> ~ In (nth 0 ranked 0) (m_selection m)).
Proof.
  intros F S NK SK Mat pad inv tr a b ds q g0 g' m Hwf Hinit Hget.
  pose proof (init_coherent _ _ _ _ _ Hwf Hinit) as Hds.
  destruct (get_metadata_window _ _ Hds Hget)
    as (n & g & Hq & Hnd & Hlen & Hincl).
  exists n, g. split; [exact Hq|].
  intros skip ranked. fold skip in Hincl. fold ranked in Hincl.
  assert (Hrank : forall c, In c (m_selection m) ->
            exists k, skip <= k < skip + n + extra_src_pool ds
                      /\ k < num_candidates ds
                      /\ nth k ranked 0 = c).
  { intros c Hc. apply Hincl in Hc.
    destruct (@slice_In _ _ _ _ 0 _ Hc) as (k & Hk & Hkl & Hnth).
    exists k. unfold ranked in Hkl.
    rewrite ranking_length in Hkl by exact Hds.
    repeat split; try lia; exact Hnth. }
  split; [exact Hnd|]. split; [exact Hlen|]. split; [exact Hrank|].
  intros Hskip Hin. destruct (Hrank _ Hin) as (k & Hk & Hkn & Hnth).
  assert (Hr : NoDup ranked) by (apply ranking_NoDup, Hds).
  assert (Hl : length ranked = num_candidates ds)
    by (apply ranking_length, Hds).
  apply (proj1 (NoDup_nth ranked 0) Hr) in Hnth; lia.
Qed.

Lemma X6_selection_within_pool_window_witness :
  let ds := Scenario.built Scenario.training in
  let g0 := Scenario.draws [Scenario.half; Scenario.half; 3%N; 1%N] in
  exists m g' n g,
    get_metadata ds (Plain 5) g0 = Ok (m, g')
    /\ resolve_query ds (Plain 5) g0 = Ok (5, n, g)
    /\ NoDup (m_selection m)
    /\ length (m_selection m) <= n.
Proof.
  intros ds g0.
  destruct (get_metadata ds (Plain 5) g0) as [[m g']|e] eqn:Hget;
    [|vm_compute in Hget; discriminate Hget].
  destruct (@X6_selection_within_pool_window float float_scalar
              Scenario.norm_kernel Scenario.sort_kernel
              Scenario.Mat Scenario.same Scenario.opposite Scenario.same
              Scenario.training Scenario.volume ds (Plain 5) g0 g' m)
    as (n & g & Hq & Hnd & Hlen & _).
  - reflexivity.
  - vm_compute. reflexivity.
  - exact Hget.
  - exists m, g', n, g. repeat split; assumption.
Defined.

(** X7. The entries of [src_inds] that a successful query returns are
    positions of the axis the candidates are taken from. When
    [src_view_sample] has three parts, and so is read as a slice, they are
    pairwise distinct as well: no view is handed out twice as a source. *)
Theorem X7_source_views_valid_and_distinct :
  forall (F : Type) (S : Scalar F) (NK : NormKernel F) (SK : SortKernel F)
         (Mat : Type) (pad inv : Mat -> Mat)
         (tr : Mat -> vec3 F) (a : @args F) (b : @base F Mat)
         (ds : @dataset F Mat) (q : query) (g0 g' : rng)
         (m : metadata Mat),
    base_wf b = true ->
    init pad inv tr a b = Ok ds ->
    get_metadata ds q g0 = Ok (m, g') ->
    length (m_src_inds m) = length (m_selection m)
    /\ Forall (fun view => view < candidate_axis a b) (m_src_inds m)
    /\ (reads_as_slice (a_src_view_sample a) = true ->
        NoDup (m_src_inds m)).
Proof.
  intros F S NK SK Mat pad inv tr a b ds q g0 g' m Hwf Hinit Hget.
  pose proof (init_coherent _ _ _ _ _ Hwf Hinit) as Hds.
  destruct (init_components _ _ _ _ _ Hinit) as (_ & _ & Hparams & _).
  pose proof (load_source_params_selected _ _ _ _ Hparams) as Hviews.
  fold (candidate_axis a b) in Hviews.
  pose proof (select_views_bound _ _ Hviews) as Hbound.
  destruct (get_metadata_steps _ _ _ Hget) as (_ & _ & _ & _ & _ & _ & _ & _ & Hinds).
  destruct (get_metadata_window _ _ Hds Hget)
    as (n & g & _ & Hnd & _ & Hincl).
  assert (Hsel : Forall (fun i => i < length (src_view_inds ds))
                   (m_selection m)).
  { apply Forall_forall. intros c Hc. apply Hincl, slice_incl in Hc.
    eapply ranking_bound; [exact Hds|exact Hc]. }
  rewrite Hinds. split; [apply length_map|]. split.
  - apply Forall_forall. intros v Hv. apply in_map_iff in Hv.
    destruct Hv as (c & Hc & Hin). subst v.
    rewrite Forall_forall in Hbound, Hsel.
    apply Hbound, nth_In, Hsel, Hin.
  - intros Hslice. apply map_nth_NoDup; [|exact Hnd|exact Hsel].
    apply StronglySorted_lt_NoDup.
    apply (select_views_sorted _ _ Hslice Hviews).
Qed.

Lemma X7_source_views_valid_and_distinct_witness :
  let ds := Scenario.built Scenario.training in
  let g0 := Scenario.draws [Scenario.half; Scenario.half; 3%N; 1%N] in
  exists m g',
    get_metadata ds (Plain 5) g0 = Ok (m, g')
    /\ Forall (fun view => view < 6) (m_src_inds m)
    /\ NoDup (m_src_inds m).
Proof.
  intros ds g0.
  destruct (get_metadata ds (Plain 5) g0) as [[m g']|e] eqn:Hget;
    [|vm_compute in Hget; discriminate Hget].
  destruct (@X7_source_views_valid_and_distinct float float_scalar
              Scenario.norm_kernel Scenario.sort_kernel
              Scenario.Mat Scenario.same Scenario.opposite Scenario.same
              Scenario.training Scenario.volume ds (Plain 5) g0 g' m)
    as (_ & Hbound & Hnd).
  - reflexivity.
  - vm_compute. reflexivity.
  - exact Hget.
  - exists m, g'. split; [reflexivity|]. split; [exact Hbound|].
    apply Hnd. reflexivity.
Defined.

(** ** The count of a plain query *)

(** X8. A plain query draws its count with one random number, and the count
    is an entry of [n_srcs_list]. The draw succeeds exactly when the list
    and [n_srcs_prob] have the same length and the total of the weights,
    their last running sum in binary64 as [last + 0.0], is positive and
    finite; otherwise it raises [ValueError], or [IndexError] when both are
    empty. The constructor checks none of this: whether it succeeds does
    not depend on the two lists. *)
Theorem X8_plain_query_draws_listed_count :
  forall (F : Type) (S : Scalar F) (NK : NormKernel F) (SK : SortKernel F)
         (Mat : Type) (pad inv : Mat -> Mat) (tr : Mat -> vec3 F),
    (forall (ds : @dataset F Mat) (index : nat) (g : rng),
        match resolve_query ds (Plain index) g with
        | Ok (i, n, g') =>
            i = index /\ In n (n_srcs_list ds) /\ g' = snd (next g)
            /\ length (n_srcs_prob ds) = length (n_srcs_list ds)
            /\ exists last,
                last_item (accumulate (n_srcs_prob ds)) = Ok last
                /\ (last + 0 <=? 0)%float = false
                /\ PrimFloat.is_finite (last + 0)%float = true
        | Raise e =>
            (e = ValueError
             /\ (length (n_srcs_prob ds) <> length (n_srcs_list ds)
                 \/ exists last,
                     last_item (accumulate (n_srcs_prob ds)) = Ok last
                     /\ ((last + 0 <=? 0)%float = true
                         \/ PrimFloat.is_finite (last + 0)%float = false)))
            \/ (e = IndexError /\ n_srcs_list ds = [] /\ n_srcs_prob ds = [])
        end)
    /\ (forall (a : @args F) (b : @base F Mat) (counts : list nat)
               (probs : list float) (gt_prob : Q) (extra : nat),
           is_ok (init pad inv tr (set_sampling a counts probs gt_prob extra)
                    b)
           = is_ok (init pad inv tr a b)).
Proof.
  intros F S NK SK Mat pad inv tr. split.
  - intros ds index g. simpl. unfold bind, ret.
    pose proof (choices_outcome (n_srcs_list ds) (n_srcs_prob ds) g) as Hc.
    destruct (choices (n_srcs_list ds) (n_srcs_prob ds) g) as [[n g']|e].
    + destruct Hc as (Hin & Hg & Hlen & Htotal).
      repeat split; assumption.
    + exact Hc.
  - intros. apply init_ignores_sampling.
Qed.

(** ** The selection of the viewer *)

Section TopOfSort.

Context {K : Type} {kernel : SortKernel K}.
Variable before : K -> K -> bool.

Hypothesis before_asym :
  forall a b, before a b = true -> before b a = false.
Hypothesis before_ntrans :
  forall a b c, before a b = false -> before b c = false ->
                before a c = false.

(** No entry behind the first [k] of a descending sort comes strictly
    before one of the first [k]. *)
Lemma firstn_sorted_best (l : list K) (k c c' : nat) (d : K) :
  In c (firstn k (snd (sort_descending before l))) ->
  c' < length l ->
  ~ In c' (firstn k (snd (sort_descending before l))) ->
  before (nth c' l d) (nth c l d) = false.
Proof.
  intros Hc Hc' Hout.
  set (inds := snd (sort_descending before l)) in *.
  assert (Hlen : length inds = length l) by apply sort_indices_length.
  apply (In_nth _ _ 0) in Hc. destruct Hc as (p & Hp & Hpc).
  rewrite length_firstn in Hp. rewrite nth_firstn in Hpc.
  destruct (p <? k) eqn:Epk; [|apply Nat.ltb_ge in Epk; lia].
  apply Nat.ltb_lt in Epk.
  assert (Hin : In c' inds).
  { apply (Permutation_in _ (Permutation_sym (sort_indices_perm before l))).
    apply in_seq. lia. }
  apply (In_nth _ _ 0) in Hin. destruct Hin as (q & Hq & Hqc).
  assert (Hkq : k <= q).
  { destruct (le_lt_dec k q) as [Hle|Hlt]; [exact Hle|].
    exfalso. apply Hout. rewrite <- Hqc.
    replace (nth q inds 0) with (nth q (firstn k inds) 0).
    - apply nth_In. rewrite length_firstn. lia.
    - rewrite nth_firstn.
      replace (q <? k) with true by (symmetry; apply Nat.ltb_lt; exact Hlt).
      reflexivity. }
  assert (Hval : forall r, r < length l ->
            nth r (fst (sort_descending before l)) d
            = nth (nth r inds 0) l d).
  { intros r Hr. unfold inds. simpl.
    rewrite (map_nth snd _ (0, d)), (map_nth fst _ (0, d)).
    pose proof (sort_pairs_lookup before l (0, d) Hr) as Hlook.
    symmetry. apply nth_error_nth. exact Hlook. }
  pose proof (@sort_descending_ranked K kernel before before_asym
                before_ntrans l p q d ltac:(lia) ltac:(lia)) as Hdesc.
  cbv zeta in Hdesc.
  rewrite !Hval in Hdesc by lia.
  rewrite Hpc, Hqc in Hdesc. exact Hdesc.
Qed.

End TopOfSort.

Lemma real_before_asym (x y : R) : before x y = true -> before y x = false.
Proof.
  unfold before. simpl. intros Hxy.
  apply Rltb_true in Hxy. apply Rltb_false. lra.
Qed.

Lemma real_before_ntrans (x y z : R) :
  before x y = false -> before y z = false -> before x z = false.
Proof.
  unfold before. simpl. intros Hxy Hyz.
  apply Rltb_false in Hxy, Hyz. apply Rltb_false. lra.
Qed.

Section ViewerSteps.

Context {F : Type} `{Scalar F} {NK : NormKernel F} {SK : SortKernel F}.
Variable Mat : Type.
Variable affine_inverse : Mat -> Mat.
Variable translation : Mat -> vec3 F.

Local Abbreviation Dataset := (@dataset F Mat).

(** The steps of a viewer call that returns a batch of its own. *)
Lemma get_viewer_batch_steps (ds : Dataset) (i : viewer_input Mat)
    (g g' : rng) (bt : viewer_batch Mat) :
  coherent ds ->
  get_viewer_batch affine_inverse translation ds i g = Ok (Batch bt, g') ->
  let sims := viewer_all_similarities affine_inverse translation ds i in
  exists k,
    barebone ds = false
    /\ last_item (n_srcs_list ds) = Ok k
    /\ viewer_extra ds i < num_extra ds
    /\ g' = g
    /\ b_selection bt = firstn k (snd (sort_descending before sims))
    /\ b_sims bt = firstn k (fst (sort_descending before sims))
    /\ b_t_inds bt = viewer_extra ds i
    /\ b_src_inds bt
       = map (fun j => nth j (src_view_inds ds) 0) (b_selection bt)
    /\ b_src_exts bt
       = map (fun j => get (src_exts ds) [j; b_t_inds bt]) (b_selection bt)
    /\ b_src_ixts bt
       = map (fun j => get (src_ixts ds) [j; b_t_inds bt]) (b_selection bt).
Proof.
  intros Hds Hrun sims.
  destruct (barebone ds) eqn:Hbare.
  { unfold get_viewer_batch in Hrun. rewrite Hbare in Hrun.
    unfold ret in Hrun. inversion Hrun. }
  destruct (last_item (n_srcs_list ds)) as [k|e] eqn:Hk.
  2:{ exfalso. revert Hrun.
      unfold get_viewer_batch, bind, lift, ret. rewrite Hbare, Hk.
      destruct (selection_axes _ _ _) as [t e'].
      destruct (select_column (src_exts ds) e'); discriminate. }
  destruct (lt_dec (viewer_extra ds i) (num_extra ds)) as [He|He].
  2:{ exfalso. revert Hrun. destruct Hds as (_ & Hexts & _).
      unfold get_viewer_batch, bind, lift, ret. rewrite Hbare.
      unfold viewer_extra in He.
      destruct (selection_axes _ _ _) as [t e']. simpl in He.
      unfold select_column. rewrite Hexts.
      replace (e' <? num_extra ds) with false
        by (symmetry; apply Nat.ltb_ge; lia).
      discriminate. }
  pose proof (get_viewer_batch_unfold affine_inverse translation i g Hds
                Hbare Hk He) as Hun.
  cbv zeta in Hun. fold sims in Hun.
  destruct (firstn k (snd (sort_descending before sims))) as [|c rest]
    eqn:Esel.
  { rewrite Hun in Hrun. discriminate Hrun. }
  destruct Hun as (b0 & Hrun0 & Hsel & Hsims & Ht & Hinds).
  rewrite <- Esel in Hsel. clear Esel.
  rewrite Hrun0 in Hrun.
  assert (Hb : b0 = bt) by congruence.
  assert (Hg : g = g') by congruence.
  subst b0 g'. exists k.
  repeat (split; [first [reflexivity|assumption]|]).
  clear Hrun. revert Hrun0.
  unfold get_viewer_batch, bind, lift, ret. rewrite Hbare, Hk.
  destruct (selection_axes _ _ _) as [t e'].
  destruct (select_column (src_exts ds) e') as [column|]; [|discriminate].
  cbn [sort_descending].
  destruct (index_pairs (src_exts ds) _ e') as [exts|] eqn:Hexts;
    [|discriminate].
  destruct (index_pairs (src_ixts ds) _ e') as [ixts|] eqn:Hixts;
    [|discriminate].
  destruct (gather _ _) as [inds|]; [|discriminate].
  destruct (get_sources inds); [|discriminate].
  intros Hrun0. inversion Hrun0. simpl.
  split; eapply index_pairs_result; eassumption.
Qed.

End ViewerSteps.

(** X9. The sources of a viewer batch are the candidates most similar to the
    query: no candidate left out has a similarity that the descending sort
    places strictly before the similarity of a selected one. On binary64
    numbers this is the similarity as computed; over the real numbers it
    says that every selected candidate is at most as far from the query
    center, by the clipped distance, as every candidate left out. *)
Theorem X9_viewer_sources_most_similar :
  (forall (NK : NormKernel float) (SK : SortKernel float)
          (Mat : Type) (pad inv : Mat -> Mat) (tr : Mat -> vec3 float)
          (a : @args float) (b : @base float Mat) (ds : @dataset float Mat)
          (i : viewer_input Mat) (g g' : rng) (bt : viewer_batch Mat),
      base_wf b = true ->
      init pad inv tr a b = Ok ds ->
      get_viewer_batch inv tr ds i g = Ok (Batch bt, g') ->
      let sims := viewer_all_similarities inv tr ds i in
      forall c c',
        In c (b_selection bt) ->
        c' < num_candidates ds ->
        ~ In c' (b_selection bt) ->
        c < num_candidates ds
        /\ before (nth c' sims 0%float) (nth c sims 0%float) = false
        /\ (PrimFloat.is_nan (nth c sims 0%float) = false ->
            PrimFloat.is_nan (nth c' sims 0%float) = false ->
            (nth c' sims 0 <=? nth c sims 0)%float = true))
  /\ (forall (SK : SortKernel R)
             (Mat : Type) (pad inv : Mat -> Mat) (tr : Mat -> vec3 R)
             (a : @args R) (b : @base R Mat) (ds : @dataset R Mat)
             (i : viewer_input Mat) (g g' : rng) (bt : viewer_batch Mat),
        base_wf b = true ->
        init pad inv tr a b = Ok ds ->
        get_viewer_batch inv tr ds i g = Ok (Batch bt, g') ->
        let distance := fun s =>
          clip (norm (vsub (tr (inv (get (src_exts ds)
                                       [s; viewer_extra ds i])))
                        (tr (inv (i_w2c i))))) f_eps in
        forall c c',
          In c (b_selection bt) ->
          c' < num_candidates ds ->
          ~ In c' (b_selection bt) ->
          (distance c <= distance c')%R).
Proof.
  split.
  - intros NK SK Mat pad inv tr a b ds i g g' bt Hwf Hinit Hrun sims c c'
           Hc Hc' Hout.
    pose proof (init_coherent _ _ _ _ _ Hwf Hinit) as Hds.
    destruct (get_viewer_batch_steps _ _ _ _ Hds Hrun)
      as (k & _ & _ & _ & _ & Hsel & _).
    fold sims in Hsel. rewrite Hsel in Hc, Hout.
    assert (Hlen : length sims = num_candidates ds)
      by apply viewer_all_similarities_length.
    assert (Hcn : c < num_candidates ds).
    { pose proof (firstn_sorted_bound sims k) as Hb.
      rewrite Forall_forall in Hb. rewrite <- Hlen. apply Hb, Hc. }
    rewrite <- Hlen in Hc'.
    pose proof (@firstn_sorted_best float SK before float_before_asym
                  float_before_ntrans sims k c c' 0%float Hc Hc' Hout)
      as Hbest.
    split; [exact Hcn|]. split; [exact Hbest|].
    intros Hn Hn'. apply float_not_before_leb; assumption.
  - intros SK Mat pad inv tr a b ds i g g' bt Hwf Hinit Hrun distance c c'
           Hc Hc' Hout.
    pose proof (init_coherent _ _ _ _ _ Hwf Hinit) as Hds.
    destruct (get_viewer_batch_steps _ _ _ _ Hds Hrun)
      as (k & _ & _ & _ & _ & Hsel & _).
    set (sims := viewer_all_similarities inv tr ds i) in *.
    rewrite Hsel in Hc, Hout.
    assert (Hlen : length sims = num_candidates ds)
      by apply viewer_all_similarities_length.
    assert (Hcn : c < num_candidates ds).
    { pose proof (firstn_sorted_bound sims k) as Hb.
      rewrite Forall_forall in Hb. rewrite <- Hlen. apply Hb, Hc. }
    pose proof Hc' as Hc'l. rewrite <- Hlen in Hc'l.
    pose proof (@firstn_sorted_best R SK before real_before_asym
                  real_before_ntrans sims k c c' 0%R Hc Hc'l Hout)
      as Hbest.
    unfold sims in Hbest.
    rewrite !viewer_all_similarities_nth in Hbest by assumption.
    fold (distance c) in Hbest. fold (distance c') in Hbest.
    assert (Hd : (1e-10 <= distance c)%R) by apply real_clip_eps.
    assert (Hd' : (1e-10 <= distance c')%R) by apply real_clip_eps.
    unfold before in Hbest. simpl in Hbest.
    apply Rltb_false in Hbest.
    destruct (Rle_lt_dec (distance c) (distance c')) as [Hle|Hlt];
      [exact Hle|].
    exfalso.
    assert (Hinv : (/ distance c < / distance c')%R)
      by (apply Rinv_lt_contravar; [apply Rmult_lt_0_compat; lra|exact Hlt]).
    unfold Rdiv in Hbest. lra.
Qed.

Lemma X9_viewer_sources_most_similar_witness :
  let ds := Scenario.built Scenario.training in
  let sims := Scenario.similarities_at ds in
  exists bt g',
    Scenario.viewer ds (Scenario.draws []) = Ok (Batch bt, g')
    /\ In 1 (b_selection bt)
    /\ ~ In 4 (b_selection bt)
    /\ before (nth 4 sims 0%float) (nth 1 sims 0%float) = false.
Proof.
  intros ds sims.
  destruct (Scenario.viewer ds (Scenario.draws [])) as [[[|bt] g']|e]
    eqn:Hrun;
    try (vm_compute in Hrun; discriminate Hrun).
  assert (Hsel : b_selection bt = [1; 0; 2; 3]).
  { apply (f_equal (@viewer_selected float Scenario.Mat)) in Hrun.
    simpl in Hrun. remember (b_selection bt) as sel eqn:Esel.
    vm_compute in Hrun. congruence. }
  assert (Hin : In 1 (b_selection bt))
    by (rewrite Hsel; simpl; tauto).
  assert (Hout : ~ In 4 (b_selection bt))
    by (rewrite Hsel; simpl; intros Hc; repeat destruct Hc as [Hc|Hc];
        try discriminate Hc; exact Hc).
  exists bt, g'. split; [reflexivity|]. split; [exact Hin|].
  split; [exact Hout|].
  apply (proj1 X9_viewer_sources_most_similar Scenario.norm_kernel
           Scenario.sort_kernel Scenario.Mat Scenario.same
           Scenario.opposite Scenario.same Scenario.training Scenario.volume
           ds Scenario.pose (Scenario.draws []) g' bt);
    [reflexivity|vm_compute; reflexivity|exact Hrun|exact Hin
    |vm_compute; lia|exact Hout].
Defined.

(** X10. A viewer batch leaves the generator as it was. Its [src_inds] are
    the entries of [src_view_inds] at the selected candidates, and its
    [src_exts] and [src_ixts] are the padded extrinsics and the intrinsics
    of the base dataset for those entries at [t_inds], which is the latent
    index of the call, or view 0 under [closest_using_t]. When the last
    count is at least the number of candidates, every candidate is a
    source. *)
Theorem X10_viewer_cameras_follow_selection :
  forall (F : Type) (S : Scalar F) (NK : NormKernel F) (SK : SortKernel F)
         (Mat : Type) (pad inv : Mat -> Mat)
         (tr : Mat -> vec3 F) (a : @args F) (b : @base F Mat)
         (ds : @dataset F Mat) (i : viewer_input Mat) (g g' : rng)
         (bt : viewer_batch Mat),
    base_wf b = true ->
    init pad inv tr a b = Ok ds ->
    get_viewer_batch inv tr ds i g = Ok (Batch bt, g') ->
    g' = g
    /\ b_t_inds bt = (if closest_using_t ds then 0
                      else frame_to_latent b (t_to_frame b (i_t i)))
    /\ b_src_inds bt
       = map (fun c => nth c (src_view_inds ds) 0) (b_selection bt)
    /\ b_src_exts bt
       = map (fun view =>
                pad (get (w2cs b)
                       (camera_at (closest_using_t ds) view (b_t_inds bt))))
           (b_src_inds bt)
    /\ b_src_ixts bt
       = map (fun view =>
                get (Ks b)
                  (camera_at (closest_using_t ds) view (b_t_inds bt)))
           (b_src_inds bt)
    /\ (forall k, last_item (n_srcs_list ds) = Ok k ->
                  num_candidates ds <= k ->
                  Permutation (b_selection bt)
                    (seq 0 (num_candidates ds))).
Proof.
  intros F S NK SK Mat pad inv tr a b ds i g g' bt Hwf Hinit Hrun.
  pose proof (init_coherent _ _ _ _ _ Hwf Hinit) as Hds.
  destruct (init_components _ _ _ _ _ Hinit) as (Hparent & _).
  destruct (init_source_cameras _ _ _ _ _ Hwf Hinit) as [Hi He].
  destruct (get_viewer_batch_steps _ _ _ _ Hds Hrun)
    as (k & _ & Hk & _ & Hg & Hsel & _ & Ht & Hinds & Hexts & Hixts).
  split; [exact Hg|]. split.
  { rewrite Ht. unfold viewer_extra, selection_axes. rewrite Hparent.
    destruct (closest_using_t ds); reflexivity. }
  split; [exact Hinds|].
  rewrite Hexts, Hixts, Hinds, !map_map.
  split; [apply map_ext; intros c; apply He|].
  split; [apply map_ext; intros c; apply Hi|].
  intros k' Hk' Hall. rewrite Hk in Hk'. inversion Hk'; subst k'.
  rewrite Hsel.
  set (sims := viewer_all_similarities inv tr ds i).
  assert (Hlen : length sims = num_candidates ds)
    by apply viewer_all_similarities_length.
  rewrite firstn_all2
    by (rewrite sort_indices_length, Hlen; exact Hall).
  rewrite <- Hlen. apply sort_indices_perm.
Qed.

Lemma X10_viewer_cameras_follow_selection_witness :
  let ds := Scenario.built Scenario.training in
  exists bt g',
    Scenario.viewer ds (Scenario.draws [7%N]) = Ok (Batch bt, g')
    /\ g' = Scenario.draws [7%N]
    /\ b_src_inds bt
       = map (fun c => nth c (src_view_inds ds) 0) (b_selection bt).
Proof.
  intros ds.
  destruct (Scenario.viewer ds (Scenario.draws [7%N]))
    as [[[|bt] g']|e] eqn:Hrun;
    try (vm_compute in Hrun; discriminate Hrun).
  exists bt, g'. split; [reflexivity|].
  destruct (@X10_viewer_cameras_follow_selection float float_scalar
              Scenario.norm_kernel Scenario.sort_kernel
              Scenario.Mat Scenario.same Scenario.opposite Scenario.same
              Scenario.training Scenario.volume ds Scenario.pose
              (Scenario.draws [7%N]) g' bt)
    as (Hg & _ & Hinds & _).
  - reflexivity.
  - vm_compute. reflexivity.
  - exact Hrun.
  - split; assumption.
Defined.

(** ** The object box and the projected box *)

(** X11. For a projected box that lies in the image, the stored box of
    [get_objects_prior] relates to it as follows. When width and height are
    rounded up, the stored box covers the projected box. When they are
    rounded down, because a rounded-up side would exceed the image, the
    stored box lies within the projected box: the rim of the object is cut
    off, and the corner is not clipped. *)
Theorem X11_objects_box_covers_or_crops :
  forall x y w_orig h_orig H W : Z,
    (0 <= x)%Z -> (0 <= y)%Z -> (0 <= w_orig)%Z -> (0 <= h_orig)%Z ->
    (x + w_orig <= W)%Z -> (y + h_orig <= H)%Z ->
    match objects_xywh x y w_orig h_orig H W with
    | (x', y', w, h) =>
        ((ceil_div w_orig 32 * 32 <= W /\ ceil_div h_orig 32 * 32 <= H ->
          x' <= x /\ x + w_orig <= x' + w
          /\ y' <= y /\ y + h_orig <= y' + h)
         /\ (W < ceil_div w_orig 32 * 32 \/ H < ceil_div h_orig 32 * 32 ->
             x <= x' /\ x' + w <= x + w_orig
             /\ y <= y' /\ y' + h <= y + h_orig
             /\ x' = x - (w - w_orig) / 2
             /\ y' = y - (h - h_orig) / 2))%Z
    end.
Proof.
  intros x y w_orig h_orig H W Hx Hy Hw Hh HxW HyH.
  pose proof (ceil32_bounds w_orig) as Hcw.
  pose proof (ceil32_bounds h_orig) as Hch.
  pose proof (floor32_bounds w_orig) as Hfw.
  pose proof (floor32_bounds h_orig) as Hfh.
  unfold objects_xywh, np_clip.
  set (cw := (ceil_div w_orig 32 * 32)%Z) in *.
  set (ch := (ceil_div h_orig 32 * 32)%Z) in *.
  set (fw := (floor_div w_orig 32 * 32)%Z) in *.
  set (fh := (floor_div h_orig 32 * 32)%Z) in *.
  destruct ((cw >? W)%Z || (ch >? H)%Z) eqn:E.
  - apply orb_true_iff in E.
    assert (Ho : (W < cw \/ H < ch)%Z)
      by (destruct E as [E|E]; apply Z.gtb_lt in E; [left|right]; exact E).
    split; [intros [Hcw' Hch']; exfalso; lia|]. intros _.
    pose proof (Z.div_mod (fw - w_orig) 2 ltac:(lia)) as Hdw.
    pose proof (Z.mod_pos_bound (fw - w_orig) 2 ltac:(lia)) as Hmw.
    pose proof (Z.div_mod (fh - h_orig) 2 ltac:(lia)) as Hdh.
    pose proof (Z.mod_pos_bound (fh - h_orig) 2 ltac:(lia)) as Hmh.
    repeat split; lia.
  - apply orb_false_iff in E. destruct E as [Ew Eh].
    rewrite Z.gtb_ltb in Ew, Eh. apply Z.ltb_ge in Ew, Eh.
    split; [|intros [Hc|Hc]; exfalso; lia]. intros _.
    pose proof (Z.div_mod (cw - w_orig) 2 ltac:(lia)) as Hdw.
    pose proof (Z.mod_pos_bound (cw - w_orig) 2 ltac:(lia)) as Hmw.
    pose proof (Z.div_mod (ch - h_orig) 2 ltac:(lia)) as Hdh.
    pose proof (Z.mod_pos_bound (ch - h_orig) 2 ltac:(lia)) as Hmh.
    repeat split; lia.
Qed.

Lemma X11_objects_box_covers_or_crops_witness :
  match objects_xywh 100 100 50 40 480 640 with
  | (x', y', w, h) =>
      (x' <= 100 /\ 100 + 50 <= x' + w
       /\ y' <= 100 /\ 100 + 40 <= y' + h)%Z
  end.
Proof.
  apply (proj1 (@X11_objects_box_covers_or_crops 100 100 50 40 480 640
                  ltac:(lia) ltac:(lia) ltac:(lia) ltac:(lia) ltac:(lia)
                  ltac:(lia))%Z).
  vm_compute. split; discriminate.
Defined.

(** ** The counts of the no-op dataset *)

Lemma noop_count_outcome (sample : list (option Z)) :
  match NoopInit.count sample with
  | NoopInit.Done n =>
      exists start stop step rest,
        sample = Some start :: Some stop :: Some step :: rest
        /\ step <> 0%Z /\ n = ((stop - start) / step)%Z
  | NoopInit.Fail NoopInit.IndexError => length sample < 3
  | NoopInit.Fail NoopInit.TypeError =>
      exists i, i < 3 /\ nth_error sample i = Some None
  | NoopInit.Fail NoopInit.ZeroDivisionError =>
      nth_error sample 2 = Some (Some 0%Z)
  end.
Proof.
  unfold NoopInit.count, NoopInit.entry.
  destruct sample as [|start [|stop [|step rest]]]; simpl; try lia.
  - destruct stop as [e|]; destruct start as [b|]; simpl; try lia;
      first [exists 1; split; [lia|reflexivity]
            |exists 0; split; [lia|reflexivity]].
  - destruct stop as [e|]; destruct start as [b|]; simpl;
      try (exists 1; split; [lia|reflexivity]);
      try (exists 0; split; [lia|reflexivity]).
    destruct step as [s|]; simpl;
      [|exists 2; split; [lia|reflexivity]].
    destruct (s =? 0)%Z eqn:E.
    + apply Z.eqb_eq in E. subst s. reflexivity.
    + apply Z.eqb_neq in E. exists b, e, s, rest.
      repeat split; [exact E].
Qed.

(** X12. The no-op dataset counts the views and the latents of a sample
    [[start, stop, step]] as the quotient of [stop - start] by [step],
    rounded down, so all three entries have to be integers and the step
    must not be zero: a [None], as in the default [[0, None, 1]] of the other
    datasets, raises [TypeError]. For a positive step and [start <= stop]
    the count is the number of positions [start, start + step, ...] below
    [stop] when the step divides [stop - start], and one less otherwise. The
    length of the dataset is the product of the two counts. *)
Theorem X12_noop_counts_round_down :
  (forall frame_sample view_sample c,
      NoopInit.init frame_sample view_sample = NoopInit.Done c ->
      exists fb fe fs frest vb ve vs vrest,
        frame_sample = Some fb :: Some fe :: Some fs :: frest
        /\ view_sample = Some vb :: Some ve :: Some vs :: vrest
        /\ fs <> 0%Z /\ vs <> 0%Z
        /\ NoopInit.n_latents c = ((fe - fb) / fs)%Z
        /\ NoopInit.n_views c = ((ve - vb) / vs)%Z
        /\ NoopInit.n_frame_total c = NoopInit.n_latents c
        /\ NoopInit.n_view_total c = NoopInit.n_views c
        /\ NoopInit.len c = (((fe - fb) / fs) * ((ve - vb) / vs))%Z)
  /\ (forall start step rest,
        NoopInit.count (Some start :: None :: step :: rest)
        = NoopInit.Fail NoopInit.TypeError)
  /\ (forall start stop rest,
        NoopInit.count (Some start :: Some stop :: Some 0%Z :: rest)
        = NoopInit.Fail NoopInit.ZeroDivisionError)
  /\ (forall start stop step rest,
        (0 < step)%Z -> (start <= stop)%Z ->
        exists n,
          NoopInit.count (Some start :: Some stop :: Some step :: rest)
          = NoopInit.Done n
          /\ n = (if ((stop - start) mod step =? 0)%Z
                  then NoopInit.range_length start stop step
                  else NoopInit.range_length start stop step - 1)%Z).
Proof.
  split; [|split; [|split]].
  - intros frame_sample view_sample c. unfold NoopInit.init.
    pose proof (noop_count_outcome view_sample) as Hv.
    pose proof (noop_count_outcome frame_sample) as Hf.
    destruct (NoopInit.count view_sample) as [nv|]; simpl; [|discriminate].
    destruct (NoopInit.count frame_sample) as [nl|]; simpl; [|discriminate].
    intros Hc. inversion Hc. subst c. clear Hc.
    destruct Hv as (vb & ve & vs & vrest & Hv & Hvs & Hnv).
    destruct Hf as (fb & fe & fs & frest & Hf & Hfs & Hnl).
    exists fb, fe, fs, frest, vb, ve, vs, vrest.
    unfold NoopInit.len. simpl. subst nv nl.
    repeat split; assumption.
  - intros start step rest. reflexivity.
  - intros start stop rest. reflexivity.
  - intros start stop step rest Hstep Hle.
    exists ((stop - start) / step)%Z. split.
    + unfold NoopInit.count. simpl.
      replace (step =? 0)%Z with false
        by (symmetry; apply Z.eqb_neq; lia).
      reflexivity.
    + unfold NoopInit.range_length.
      rewrite stride_spec by lia.
      rewrite length_map, length_seq.
      assert (Hq : (0 <= (stop - start + step - 1) / step)%Z)
        by (apply Z.div_pos; lia).
      rewrite Z2Nat.id by exact Hq.
      destruct ((stop - start) mod step =? 0)%Z eqn:E.
      * apply Z.eqb_eq in E. Z.div_mod_to_equations. nia.
      * apply Z.eqb_neq in E. Z.div_mod_to_equations. nia.
Qed.

Lemma X12_noop_counts_round_down_witness :
  exists n,
    NoopInit.count [Some 0%Z; Some 5%Z; Some 2%Z] = NoopInit.Done n
    /\ n = 2%Z
    /\ NoopInit.range_length 0 5 2 = 3%Z.
Proof.
  destruct (proj2 (proj2 (proj2 X12_noop_counts_round_down)) 0%Z 5%Z 2%Z []
              ltac:(lia) ltac:(lia)) as (n & Hn & Hval).
  exists n. split; [exact Hn|]. split; [|reflexivity].
  rewrite Hval. reflexivity.
Defined.

(** ** A list of positions as the sample of the candidates *)

Lemma wrap_positions_outcome (n : nat) (positions : list Z) :
  mapM (wrap_position n) positions
  = if forallb (fun p => (- Z.of_nat n <=? p)%Z && (p <? Z.of_nat n)%Z)
         positions
    then Ok (map (fun p => Z.to_nat (p mod Z.of_nat n)) positions)
    else Raise IndexError.
Proof.
  induction positions as [|p positions IH]; simpl; [reflexivity|].
  unfold wrap_position at 1.
  destruct (p <? 0)%Z eqn:Eneg.
  - apply Z.ltb_lt in Eneg.
    destruct (- Z.of_nat n <=? p)%Z eqn:Elo.
    + apply Z.leb_le in Elo.
      replace (p <? Z.of_nat n)%Z with true
        by (symmetry; apply Z.ltb_lt; lia).
      replace (0 <=? p + Z.of_nat n)%Z with true
        by (symmetry; apply Z.leb_le; lia).
      replace (p + Z.of_nat n <? Z.of_nat n)%Z with true
        by (symmetry; apply Z.ltb_lt; lia).
      simpl. rewrite IH.
      destruct (forallb _ positions); simpl; [|reflexivity].
      do 3 f_equal.
      apply Z.mod_unique with (q := (-1)%Z); lia.
    + apply Z.leb_gt in Elo.
      replace (0 <=? p + Z.of_nat n)%Z with false
        by (symmetry; apply Z.leb_gt; lia).
      reflexivity.
  - apply Z.ltb_ge in Eneg.
    replace (- Z.of_nat n <=? p)%Z with true
      by (symmetry; apply Z.leb_le; lia).
    replace (0 <=? p)%Z with true by (symmetry; apply Z.leb_le; lia).
    destruct (p <? Z.of_nat n)%Z eqn:Ehi; simpl; [|reflexivity].
    apply Z.ltb_lt in Ehi. rewrite IH.
    destruct (forallb _ positions); simpl; [|reflexivity].
    do 3 f_equal. rewrite Z.mod_small by lia. reflexivity.
Qed.

(** X13. A [src_view_sample] that does not have three entries is a list of
    positions of the candidate axis: every entry from [-n] up to [n - 1] is
    taken, a negative one counted from the end, in the order of the list and
    with its repetitions; one entry outside of this range raises
    [IndexError]. A list of exactly three entries is never read this way: it
    is the slice from the first entry to the second by the third. *)
Theorem X13_position_list_kept_in_order :
  (forall (n : nat) (positions : list Z),
      length positions <> 3 ->
      select_views n (IndexSpec positions)
      = if forallb (fun p => (- Z.of_nat n <=? p)%Z && (p <? Z.of_nat n)%Z)
             positions
        then Ok (map (fun p => Z.to_nat (p mod Z.of_nat n)) positions)
        else Raise IndexError)
  /\ (forall (n : nat) (first second third : Z) (l : list nat),
        select_views n (IndexSpec [first; second; third]) = Ok l ->
        select_views n (SliceSpec (Some first) (Some second) (Some third))
        = Ok l
        /\ StronglySorted lt l).
Proof.
  split.
  - intros n positions Hlen.
    rewrite <- wrap_positions_outcome.
    destruct positions as [|b0 [|e0 [|st [|x positions]]]];
      try reflexivity.
    exfalso. apply Hlen. reflexivity.
  - intros n first second third l Hl. split; [exact Hl|].
    apply (slice_positions_sorted _ _ _ _ Hl).
Qed.

Lemma X13_position_list_kept_in_order_witness :
  select_views 6 (IndexSpec [5; (-1); 0; 2]%Z) = Ok [5; 5; 0; 2]
  /\ select_views 6 (IndexSpec [0; 2; 4]%Z) = Ok [0].
Proof.
  split.
  - rewrite (proj1 X13_position_list_kept_in_order 6 [5; (-1); 0; 2]%Z)
      by (simpl; lia).
    reflexivity.
  - assert (Hl : select_views 6 (IndexSpec [0; 2; 4]%Z) = Ok [0])
      by reflexivity.
    exact (proj1 (proj2 X13_position_list_kept_in_order 6 0%Z 2%Z 4%Z [0]
                    Hl)).
Defined.
